(** * zk-oracle off-chain services: trust scoring and cross-validation

    A shallow embedding of the two TypeScript services

    - [TrustScorer]    (off-chain/trust-scorer, services/trustScorer.ts)
    - [CrossValidator] (off-chain/cross-validator, services/crossValidator.ts)

    together with the properties their specification states about them.

    ** Number model

    JavaScript numbers are modelled by [JS.number]: an exact rational, or one
    of the three IEEE special values [PInf], [NInf] and [NaN].  Arithmetic on
    finite values is exact (no binary64 rounding, no signed zero); every other
    rule (division by zero, [NaN] propagation through [Math.round],
    [Math.min] and [Math.max], comparisons with [NaN] being false) is the
    JavaScript one.  Finite results are kept in lowest terms, so that equal
    numbers are equal terms.

    The exact sums, products and quotients are the ones binary64 computes
    wherever binary64 does not round: on integers below 2^53, hence on trust
    scores (integers of [[0,1000]]) and on sums of them.  A statement that
    depends on the values of the arithmetic carries the range it is stated
    for: trust scores, scores of [[0,1000]], timestamps and horizons of
    magnitude at most 2^53, decay weights of [[0,1]].  Where rounding or
    overflow decides a property, [Binary64] runs the aggregation on binary64
    numbers. *)

From Stdlib Require Import ZArith QArith Qround Qabs Qcanon Lqa Lia.
From Stdlib Require Import List Permutation Sorted Ascii String.
From Stdlib Require Floats.PrimFloat.
From stdpp Require Import gmap strings list.

Set Default Proof Using "Type".

(* ===================================================================== *)
(** * JavaScript numbers                                                  *)
(* ===================================================================== *)

Module JS.

Inductive number : Type :=
| Fin (q : Q)
| PInf
| NInf
| NaN.

(** A finite value, in lowest terms. *)
Definition fin (q : Q) : number := Fin (Qred q).

Definition ofZ (z : Z) : number := Fin (inject_Z z).
Definition ofNat (n : nat) : number := ofZ (Z.of_nat n).

Definition zero : number := ofZ 0.
Definition one : number := ofZ 1.

(** Sign of a finite value; decides which infinity a product or a
    quotient is. *)
Definition signed (q : Q) (pos neg nul : number) : number :=
  match (q ?= 0)%Q with
  | Gt => pos
  | Lt => neg
  | Eq => nul
  end.

Definition neg (x : number) : number :=
  match x with
  | Fin a => fin (- a)
  | PInf => NInf
  | NInf => PInf
  | NaN => NaN
  end.

Definition add (x y : number) : number :=
  match x, y with
  | NaN, _ | _, NaN => NaN
  | Fin a, Fin b => fin (a + b)
  | PInf, NInf | NInf, PInf => NaN
  | PInf, _ | _, PInf => PInf
  | NInf, _ | _, NInf => NInf
  end.

Definition sub (x y : number) : number := add x (neg y).

Definition mul (x y : number) : number :=
  match x, y with
  | NaN, _ | _, NaN => NaN
  | Fin a, Fin b => fin (a * b)
  | Fin a, PInf | PInf, Fin a => signed a PInf NInf NaN
  | Fin a, NInf | NInf, Fin a => signed a NInf PInf NaN
  | PInf, PInf | NInf, NInf => PInf
  | PInf, NInf | NInf, PInf => NaN
  end.

Definition div (x y : number) : number :=
  match x, y with
  | NaN, _ | _, NaN => NaN
  | Fin a, Fin b =>
      if Qeq_bool b 0 then signed a PInf NInf NaN else fin (a / b)
  | Fin _, _ => zero
  | PInf, Fin b => signed b PInf NInf PInf
  | NInf, Fin b => signed b NInf PInf NInf
  | _, _ => NaN
  end.

(** [x < y]; false as soon as one side is [NaN]. *)
Definition ltb (x y : number) : bool :=
  match x, y with
  | NaN, _ | _, NaN => false
  | Fin a, Fin b => match (a ?= b)%Q with Lt => true | _ => false end
  | NInf, NInf | PInf, _ => false
  | NInf, _ => true
  | Fin _, PInf => true
  | Fin _, NInf => false
  end.

Definition gtb (x y : number) : bool := ltb y x.

(** [x <= y]; false as soon as one side is [NaN]. *)
Definition leb (x y : number) : bool :=
  match x, y with
  | NaN, _ | _, NaN => false
  | Fin a, Fin b => match (a ?= b)%Q with Gt => false | _ => true end
  | NInf, _ | _, PInf => true
  | PInf, _ => false
  | Fin _, NInf => false
  end.

Definition geb (x y : number) : bool := leb y x.

(** [x !== y] for numbers: [NaN] differs from everything. *)
Definition neqb (x y : number) : bool :=
  match x, y with
  | NaN, _ | _, NaN => true
  | Fin a, Fin b => negb (Qeq_bool a b)
  | PInf, PInf | NInf, NInf => false
  | _, _ => true
  end.

(** [Math.max] and [Math.min] of two arguments: [NaN] if either is. *)
Definition Math_max (x y : number) : number :=
  match x, y with
  | NaN, _ | _, NaN => NaN
  | _, _ => if ltb x y then y else x
  end.

Definition Math_min (x y : number) : number :=
  match x, y with
  | NaN, _ | _, NaN => NaN
  | _, _ => if ltb y x then y else x
  end.

(** [Math.round]: nearest integer, halves towards +Infinity. *)
Definition Math_round (x : number) : number :=
  match x with
  | Fin a => ofZ (Qfloor (a + (1 # 2)))
  | _ => x
  end.

Definition Math_abs (x : number) : number :=
  match x with
  | Fin a => fin (Qabs a)
  | NInf => PInf
  | _ => x
  end.

(** [Math.sqrt]: exact where the root is rational, otherwise truncated to a
    multiple of [2^-64] over the denominator. *)
Definition Math_sqrt (x : number) : number :=
  match x with
  | Fin a =>
      match (a ?= 0)%Q with
      | Lt => NaN
      | _ =>
          let n := Qnum (Qred a) in
          let d := Z.pos (Qden (Qred a)) in
          let r := Z.sqrt n in
          let t := Z.sqrt d in
          if ((r * r =? n) && (t * t =? d))%Z
          then Fin (r # Z.to_pos t)
          else fin (Z.sqrt (n * d * 4 ^ 64) # (Qden (Qred a) * 2 ^ 64))
      end
  | PInf => PInf
  | _ => NaN
  end.

(** [Math.pow(x, 2)]. *)
Definition square (x : number) : number := mul x x.

(** [arr[i]] read as a number: [undefined] out of range, which arithmetic
    turns into [NaN]. *)
Definition index (arr : list number) (i : nat) : number :=
  match arr !! i with
  | Some x => x
  | None => NaN
  end.

(** [arr.reduce((sum, val) => sum + val, 0)]. *)
Definition sum (arr : list number) : number := fold_left add arr zero.

End JS.

(* ===================================================================== *)
(** * Trust Scoring Service                                               *)
(* ===================================================================== *)

Module TrustScorer.
Import JS.

Record AccuracyHistory : Type := {
  timestamp : number;
  score : number
}.

(** [TrustScoreParams]: every field is optional.  [domainExpertise] is
    never read by the service and is left out. *)
Record TrustScoreParams : Type := {
  baseScore : option number;
  accuracyHistory : option (list AccuracyHistory);
  consistencyFactor : option number;
  validationSuccessRate : option number;
  totalSubmissions : option number
}.

Record TrustScoreWeights : Type := {
  accuracy : number;
  consistency : number;
  validation : number
}.

(** [Partial<TrustScoreWeights>]. *)
Module Partial.
Record TrustScoreWeights : Type := {
  accuracy : option number;
  consistency : option number;
  validation : option number
}.
(** The default argument [{}]. *)
Definition empty : TrustScoreWeights :=
  {| accuracy := None; consistency := None; validation := None |}.
End Partial.

(** [a ?? b] *)
Definition nullish {A : Type} (a : option A) (b : A) : A :=
  match a with
  | Some v => v
  | None => b
  end.
Infix "??" := nullish (at level 45, left associativity).

Definition defaultWeights : TrustScoreWeights :=
  {| accuracy := Fin (3 # 5); consistency := Fin (1 # 5); validation := Fin (1 # 5) |}.

Definition decayRate : number := Fin (1 # 20).

Definition msPerDay : number := ofZ (24 * 60 * 60 * 1000).

(** [Math.min(1000, Math.max(0, x))] *)
Definition clamp (x : number) : number :=
  Math_min (ofZ 1000) (Math_max zero x).

Definition normalizeWeights (weights : TrustScoreWeights) : TrustScoreWeights :=
  let total := add (add (accuracy weights) (consistency weights)) (validation weights) in
  {| accuracy := div (accuracy weights) total;
     consistency := div (consistency weights) total;
     validation := div (validation weights) total |}.

Definition updateTrustScore
    (currentScore newEvidence : number) (evidenceWeight : option number) : number :=
  let evidenceWeight := evidenceWeight ?? Fin (1 # 10) in
  let normalizedWeight := Math_max zero (Math_min one evidenceWeight) in
  let updatedScore :=
    Math_round (add (mul currentScore (sub one normalizedWeight))
                    (mul newEvidence normalizedWeight)) in
  clamp updatedScore.

Definition updateValidationRate (currentRate : number) (isValidated : bool) : number :=
  let delta := if isValidated then ofZ 10 else ofZ (-20) in
  clamp (add currentRate delta).

Record Regression : Type := { slope : number; intercept : number }.

Definition linearRegression (x y : list number) : Regression :=
  let meanX := div (sum x) (ofNat (length x)) in
  let meanY := div (sum y) (ofNat (length y)) in
  let '(numerator, denominator) :=
    fold_left
      (fun '(numerator, denominator) i =>
         (add numerator (mul (sub (index x i) meanX) (sub (index y i) meanY)),
          add denominator (square (sub (index x i) meanX))))
      (seq 0 (length x)) (zero, zero) in
  let slope := if neqb denominator zero then div numerator denominator else zero in
  let intercept := sub meanY (mul slope meanX) in
  {| slope := slope; intercept := intercept |}.

(** The service reads the clock ([Date.now()]) and calls [Math.exp]; both
    are taken from the environment. *)
Section Environment.
Variable Math_exp : number -> number.
Variable now : number.

Definition calculateDecayedAccuracy (history : list AccuracyHistory) : number :=
  if (length history =? 0)%nat then ofZ 500
  else
    let '(totalWeight, weightedSum) :=
      fold_left
        (fun '(totalWeight, weightedSum) entry =>
           let ageInDays := div (sub now (timestamp entry)) msPerDay in
           let weight := Math_exp (mul (neg decayRate) ageInDays) in
           (add totalWeight weight, add weightedSum (mul (score entry) weight)))
        history (zero, zero) in
    if gtb totalWeight zero
    then Math_round (div weightedSum totalWeight)
    else ofZ 500.

Definition calculateTrustScore
    (params : TrustScoreParams) (weights : Partial.TrustScoreWeights) : number :=
  let baseScore := baseScore params ?? ofZ 500 in
  let accuracyHistory := accuracyHistory params ?? [] in
  let consistencyFactor := consistencyFactor params ?? ofZ 500 in
  let validationSuccessRate := validationSuccessRate params ?? ofZ 500 in
  let finalWeights :=
    normalizeWeights
      {| accuracy := Partial.accuracy weights ?? accuracy defaultWeights;
         consistency := Partial.consistency weights ?? consistency defaultWeights;
         validation := Partial.validation weights ?? validation defaultWeights |} in
  let accuracyFactor := calculateDecayedAccuracy accuracyHistory in
  let weightedAccuracy := Math_round (mul accuracyFactor (accuracy finalWeights)) in
  let weightedConsistency := Math_round (mul consistencyFactor (consistency finalWeights)) in
  let weightedValidation := Math_round (mul validationSuccessRate (validation finalWeights)) in
  clamp (add (add weightedAccuracy weightedConsistency) weightedValidation).

Definition updateConsistencyFactor
    (currentFactor newSubmission previousSubmission : number) : number :=
  let deviation := div (Math_abs (sub newSubmission previousSubmission)) (ofZ 1000) in
  let sigmoid :=
    div one (add one (Math_exp (mul (ofZ (-10)) (sub deviation (Fin (1 # 2)))))) in
  let consistencyDelta := Math_round (mul (sub (Fin (1 # 2)) sigmoid) (ofZ 200)) in
  clamp (add currentFactor consistencyDelta).

(** The [try] block only does arithmetic, which never throws, so the
    [catch] branch is unreachable and the function is total.  In the short
    branch the last entry is read only when the history is not empty. *)
Definition predictTrustScoreTrend
    (history : list AccuracyHistory) (daysToPredict : option number) : number :=
  let daysToPredict := daysToPredict ?? ofZ 30 in
  if (length history <? 3)%nat then
    if (0 <? length history)%nat
    then match history !! (length history - 1)%nat with
         | Some h => score h
         | None => NaN
         end
    else ofZ 500
  else
    let x := map timestamp history in
    let y := map score history in
    let regression := linearRegression x y in
    let futureTimestamp := add now (mul daysToPredict msPerDay) in
    let predictedScore :=
      add (mul (slope regression) futureTimestamp) (intercept regression) in
    Math_min (ofZ 1000) (Math_max zero (Math_round predictedScore)).

End Environment.

End TrustScorer.


(* ===================================================================== *)
(** * Cross-Validator Service                                             *)
(* ===================================================================== *)

Module CrossValidator.
Import JS.

Module Validation.
Record t : Type := {
  validator : string;
  result : bool;
  trustScore : number;
  timestamp : number;
  evidence : option string
}.
End Validation.

Module ValidationResult.
Record t : Type := {
  dataId : string;
  isValid : bool;
  weightedPositive : number;
  weightedNegative : number;
  consensusRatio : number;
  validations : list Validation.t;
  timestamp : number
}.
End ValidationResult.

Module ConsensusConfig.
Record t : Type := {
  minValidations : number;
  consensusThreshold : number;
  timeoutMs : number
}.
(** [Partial<ConsensusConfig>] *)
Record partial : Type := {
  minValidations_opt : option number;
  consensusThreshold_opt : option number;
  timeoutMs_opt : option number
}.
(** The default argument [{}]. *)
Definition empty : partial :=
  {| minValidations_opt := None; consensusThreshold_opt := None; timeoutMs_opt := None |}.
End ConsensusConfig.

(** An [async] method returns a promise, which is either resolved with a
    value or rejected with an error. *)
Inductive Promise (A : Type) : Type :=
| Resolved (value : A)
| Rejected (error : string).
Arguments Resolved {A} value.
Arguments Rejected {A} error.

Definition defaultConfig : ConsensusConfig.t :=
  {| ConsensusConfig.minValidations := ofZ 3;
     ConsensusConfig.consensusThreshold := Fin (33 # 50);
     ConsensusConfig.timeoutMs := ofZ 30000 |}.

(** [{ ...defaultConfig, ...config }] *)
Definition mergeConfig (config : ConsensusConfig.partial) : ConsensusConfig.t :=
  {| ConsensusConfig.minValidations :=
       default (ConsensusConfig.minValidations defaultConfig)
               (ConsensusConfig.minValidations_opt config);
     ConsensusConfig.consensusThreshold :=
       default (ConsensusConfig.consensusThreshold defaultConfig)
               (ConsensusConfig.consensusThreshold_opt config);
     ConsensusConfig.timeoutMs :=
       default (ConsensusConfig.timeoutMs defaultConfig)
               (ConsensusConfig.timeoutMs_opt config) |}.

(** Body of the weighting loop: one validation added to the pair
    [(weightedPositive, weightedNegative)]. *)
Definition weigh (acc : number * number) (validation : Validation.t) : number * number :=
  let '(weightedPositive, weightedNegative) := acc in
  if Validation.result validation
  then (add weightedPositive (Validation.trustScore validation), weightedNegative)
  else (weightedPositive, add weightedNegative (Validation.trustScore validation)).

(** [now] is the value [Date.now()] returns when the result is built. *)
Definition aggregateValidations
    (dataId : string) (validations : list Validation.t)
    (config : ConsensusConfig.partial) (now : number)
  : Promise ValidationResult.t :=
  let finalConfig := mergeConfig config in
  if ltb (ofNat (length validations)) (ConsensusConfig.minValidations finalConfig)
  then
    Resolved
      {| ValidationResult.dataId := dataId;
         ValidationResult.isValid := false;
         ValidationResult.weightedPositive := zero;
         ValidationResult.weightedNegative := zero;
         ValidationResult.consensusRatio := zero;
         ValidationResult.validations := validations;
         ValidationResult.timestamp := now |}
  else
    let '(weightedPositive, weightedNegative) := fold_left weigh validations (zero, zero) in
    let totalWeight := add weightedPositive weightedNegative in
    let consensusRatio :=
      if gtb totalWeight zero then div weightedPositive totalWeight else zero in
    let isValid := geb consensusRatio (ConsensusConfig.consensusThreshold finalConfig) in
    Resolved
      {| ValidationResult.dataId := dataId;
         ValidationResult.isValid := isValid;
         ValidationResult.weightedPositive := weightedPositive;
         ValidationResult.weightedNegative := weightedNegative;
         ValidationResult.consensusRatio := consensusRatio;
         ValidationResult.validations := validations;
         ValidationResult.timestamp := now |}.

(** A weight as validations carry it: a trust score is finite and never
    negative. *)
Definition nonNegative (x : number) : Prop :=
  match x with
  | Fin q => (0 <= q)%Q
  | _ => False
  end.

(** A trust score of the data model: an integer of [[0,1000]]. *)
Definition isTrustScore (x : number) : Prop :=
  exists t : Z, x = ofZ t /\ (0 <= t <= 1000)%Z.

(** A weight within the range of the trust scores, integral or not. *)
Definition inScoreRange (x : number) : Prop :=
  match x with
  | Fin q => (0 <= q <= 1000)%Q
  | _ => False
  end.

(** ** Collusion detection *)

Definition boolToNumber (val : bool) : number := if val then one else zero.

(** Body of the correlation loop, at index [i]; the state is
    [(numerator, denominatorA, denominatorB)]. *)
Definition accumulate (numA numB : list number) (meanA meanB : number)
    (acc : number * number * number) (i : nat) : number * number * number :=
  let '(numerator, denominatorA, denominatorB) := acc in
  let diffA := sub (index numA i) meanA in
  let diffB := sub (index numB i) meanB in
  (add numerator (mul diffA diffB),
   add denominatorA (mul diffA diffA),
   add denominatorB (mul diffB diffB)).

Definition calculateCorrelation (a b : list bool) : number :=
  let numA := map boolToNumber a in
  let numB := map boolToNumber b in
  let meanA := div (sum numA) (ofNat (length numA)) in
  let meanB := div (sum numB) (ofNat (length numB)) in
  let '(numerator, denominatorA, denominatorB) :=
    fold_left (accumulate numA numB meanA meanB)
      (seq 0 (length numA)) (zero, zero, zero) in
  let denominator := Math_sqrt (mul denominatorA denominatorB) in
  if gtb denominator zero then div numerator denominator else zero.

Record CollusionReport : Type := {
  detected : bool;
  probability : number;
  suspects : list string
}.

(** The two records the detector fills: the vote pattern and the vote count
    of every candidate.  They are plain objects in the source and finite
    maps here; the two agree on every key but [__proto__], which a plain
    object does not store as a property of its own. *)
Record Behaviour : Type := {
  patterns : gmap string (list bool);
  validationCounts : gmap string nat
}.

Definition initBehaviour (validatorIds : list string) : Behaviour :=
  fold_left
    (fun s validatorId =>
       {| patterns := <[validatorId := []]> (patterns s);
          validationCounts := <[validatorId := 0%nat]> (validationCounts s) |})
    validatorIds
    {| patterns := ∅; validationCounts := ∅ |}.

(** One vote seen while scanning the history.  The key is present whenever
    the guard holds, because every candidate was initialised. *)
Definition recordVote (validatorIds : list string) (s : Behaviour) (v : Validation.t)
  : Behaviour :=
  if bool_decide (Validation.validator v ∈ validatorIds)
  then {| patterns :=
            alter (fun p => p ++ [Validation.result v]) (Validation.validator v) (patterns s);
          validationCounts := alter S (Validation.validator v) (validationCounts s) |}
  else s.

Definition collectBehaviour
    (validatorIds : list string) (validations : list ValidationResult.t) (s : Behaviour)
  : Behaviour :=
  fold_left
    (fun s validation =>
       fold_left (recordVote validatorIds) (ValidationResult.validations validation) s)
    validations s.

(** [suspects.includes(x) || suspects.push(x)] *)
Definition pushNew (x : string) (suspects : list string) : list string :=
  if bool_decide (x ∈ suspects) then suspects else suspects ++ [x].

(** Body of the inner loop, for the pair [(validatorA, validatorB)]; the
    state is [(suspects, maxCorrelation)]. *)
Definition checkPair (s : Behaviour) (validatorA : string)
    (st : list string * number) (validatorB : string) : list string * number :=
  let '(suspects, maxCorrelation) := st in
  let minValidations :=
    Nat.min (validationCounts s !!! validatorA) (validationCounts s !!! validatorB) in
  if (minValidations <? 5)%nat then st
  else
    let correlation :=
      calculateCorrelation (patterns s !!! validatorA) (patterns s !!! validatorB) in
    if gtb correlation (Fin (9 # 10))
    then (pushNew validatorB (pushNew validatorA suspects),
          Math_max maxCorrelation correlation)
    else st.

(** [for (i ...) for (j = i + 1 ...)]: every candidate against the
    candidates after it. *)
Fixpoint checkPairs (s : Behaviour) (validatorIds : list string)
    (st : list string * number) : list string * number :=
  match validatorIds with
  | [] => st
  | validatorA :: rest =>
      checkPairs s rest (fold_left (checkPair s validatorA) rest st)
  end.

Definition detectCollusion
    (validations : list ValidationResult.t) (validatorIds : list string)
  : CollusionReport :=
  if ((length validations <? 5)%nat || (length validatorIds <? 2)%nat)%bool
  then {| detected := false; probability := zero; suspects := [] |}
  else
    let s := collectBehaviour validatorIds validations (initBehaviour validatorIds) in
    let '(suspects, maxCorrelation) := checkPairs s validatorIds ([], zero) in
    {| detected := (0 <? length suspects)%nat;
       probability := maxCorrelation;
       suspects := suspects |}.

(** *** Vocabulary for stating what the detector does *)

(** The calls of [calculateCorrelation] that the pair loops make, in
    order: the same loops, recording each call instead of scoring it. *)
Record CorrelationCall : Type := {
  callerA : string;
  callerB : string;
  argumentA : list bool;
  argumentB : list bool
}.

Definition comparePair (s : Behaviour) (validatorA : string)
    (calls : list CorrelationCall) (validatorB : string) : list CorrelationCall :=
  let minValidations :=
    Nat.min (validationCounts s !!! validatorA) (validationCounts s !!! validatorB) in
  if (minValidations <? 5)%nat then calls
  else calls ++ [ {| callerA := validatorA; callerB := validatorB;
                     argumentA := patterns s !!! validatorA;
                     argumentB := patterns s !!! validatorB |} ].

Fixpoint comparePairs (s : Behaviour) (validatorIds : list string)
    (calls : list CorrelationCall) : list CorrelationCall :=
  match validatorIds with
  | [] => calls
  | validatorA :: rest =>
      comparePairs s rest (fold_left (comparePair s validatorA) rest calls)
  end.

Definition correlationCalls
    (validations : list ValidationResult.t) (validatorIds : list string)
  : list CorrelationCall :=
  if ((length validations <? 5)%nat || (length validatorIds <? 2)%nat)%bool
  then []
  else
    comparePairs
      (collectBehaviour validatorIds validations (initBehaviour validatorIds))
      validatorIds [].

(** What the loop body does with the outcome of one recorded call. *)
Definition scoreCall (st : list string * number) (call : CorrelationCall)
  : list string * number :=
  let correlation := calculateCorrelation (argumentA call) (argumentB call) in
  if gtb correlation (Fin (9 # 10))
  then (pushNew (callerB call) (pushNew (callerA call) st.1),
        Math_max st.2 correlation)
  else st.

(** The votes a validator cast in one result, and over the whole history. *)
Definition votesIn (validations : list Validation.t) (validatorId : string) : list bool :=
  map Validation.result
    (filter (fun v => Validation.validator v = validatorId) validations).

Definition votesOf (history : list ValidationResult.t) (validatorId : string) : list bool :=
  concat (map (fun r => votesIn (ValidationResult.validations r) validatorId) history).

(** The records hold, for every candidate, the sequence [f] and its
    length. *)
Definition tracks (validatorIds : list string) (s : Behaviour)
    (f : string -> list bool) : Prop :=
  forall validatorId, validatorId ∈ validatorIds ->
    patterns s !! validatorId = Some (f validatorId) /\
    validationCounts s !! validatorId = Some (length (f validatorId)).

(** The past results (claims) in which both validators voted. *)
Definition sharedClaims (history : list ValidationResult.t) (validatorA validatorB : string)
  : list ValidationResult.t :=
  filter
    (fun r => votesIn (ValidationResult.validations r) validatorA <> []
              /\ votesIn (ValidationResult.validations r) validatorB <> [])
    history.

(** The pairs the loops visit: every candidate with each later one. *)
Fixpoint pairsOf (validatorIds : list string) : list (string * string) :=
  match validatorIds with
  | [] => []
  | validatorA :: rest => map (pair validatorA) rest ++ pairsOf rest
  end.

Definition correlationOf (history : list ValidationResult.t)
    (validatorA validatorB : string) : number :=
  calculateCorrelation (votesOf history validatorA) (votesOf history validatorB).

(** Two validators look suspicious when both have at least 5 recorded votes
    and their vote sequences correlate above 0.9. *)
Definition suspicious (history : list ValidationResult.t)
    (validatorA validatorB : string) : Prop :=
  (5 <= length (votesOf history validatorA))%nat /\
  (5 <= length (votesOf history validatorB))%nat /\
  gtb (correlationOf history validatorA validatorB) (Fin (9 # 10)) = true.

(** A flagged pair: a visited pair that looks suspicious. *)
Definition flagged (history : list ValidationResult.t) (validatorIds : list string)
    (validatorA validatorB : string) : Prop :=
  (validatorA, validatorB) ∈ pairsOf validatorIds /\
  suspicious history validatorA validatorB.

(** The inner loop body, read off the votes instead of the records. *)
Definition checkPairOf (history : list ValidationResult.t)
    (st : list string * number) (pair : string * string) : list string * number :=
  let minValidations :=
    Nat.min (length (votesOf history pair.1)) (length (votesOf history pair.2)) in
  if (minValidations <? 5)%nat then st
  else if gtb (correlationOf history pair.1 pair.2) (Fin (9 # 10))
       then (pushNew pair.2 (pushNew pair.1 st.1),
             Math_max st.2 (correlationOf history pair.1 pair.2))
       else st.

(** ** Consensus proof *)

(** Strings are sequences of code units below 256, so that [charCodeAt] is
    the character code and UTF-8 needs at most two bytes per unit. *)
Definition charCodeAt (c : ascii) : Z := Z.of_nat (nat_of_ascii c).

(** [ToInt32]: wrap-around to a signed 32-bit integer. *)
Definition toInt32 (z : Z) : Z := ((z + 2 ^ 31) mod 2 ^ 32 - 2 ^ 31)%Z.

(** [hash << 5] *)
Definition shl5 (hash : Z) : Z := toInt32 (Z.shiftl (toInt32 hash) 5).

(** [hash = ((hash << 5) - hash) + char; hash = hash & hash] *)
Definition hashStep (hash : Z) (c : ascii) : Z :=
  let hash := (shl5 hash - hash + charCodeAt c)%Z in
  Z.land (toInt32 hash) (toInt32 hash).

Fixpoint hashLoop (s : string) (hash : Z) : Z :=
  match s with
  | EmptyString => hash
  | String c s' => hashLoop s' (hashStep hash c)
  end.

Definition digitChar (d : Z) : ascii :=
  if (d <? 10)%Z then ascii_of_nat (48 + Z.to_nat d) else ascii_of_nat (87 + Z.to_nat d).

(** Digits of [n >= 0] in the given radix, most significant first; [fuel]
    bounds the number of further digits. *)
Fixpoint digits (radix : Z) (fuel : nat) (n : Z) (acc : string) : string :=
  let acc := String (digitChar (n mod radix)) acc in
  match fuel with
  | O => acc
  | S fuel => if (n / radix =? 0)%Z then acc else digits radix fuel (n / radix) acc
  end.

(** [n.toString(radix)] for an integer [n >= 0]; a number has at most
    [log2 n + 1] digits in any radix. *)
Definition toStringRadix (radix n : Z) : string :=
  digits radix (Z.to_nat (Z.log2 n)) n EmptyString.

Fixpoint repeatChar (n : nat) (c : ascii) : string :=
  match n with
  | O => EmptyString
  | S n => String c (repeatChar n c)
  end.

(** [s.padStart(n, c)] *)
Definition padStart (n : nat) (c : ascii) (s : string) : string :=
  repeatChar (n - String.length s) c +:+ s.

(** [l.join(sep)] *)
Fixpoint join (sep : string) (l : list string) : string :=
  match l with
  | [] => EmptyString
  | x :: l' =>
      match l' with
      | [] => x
      | _ => x +:+ sep +:+ join sep l'
      end
  end.

Definition boolToString (b : bool) : string := if b then "true" else "false".

(** [Array.prototype.sort] with a comparator is a stable sort; for a
    consistent comparator every stable sort returns the same array, here
    computed by insertion. *)
Fixpoint insertSorted {A : Type} (compareFn : A -> A -> Z) (x : A) (l : list A) : list A :=
  match l with
  | [] => [x]
  | y :: l' =>
      if (compareFn x y <=? 0)%Z then x :: l else y :: insertSorted compareFn x l'
  end.

Definition Array_sort {A : Type} (compareFn : A -> A -> Z) (l : list A) : list A :=
  foldr (insertSorted compareFn) [] l.

(** The order a comparator induces: [a] may come before [b]. *)
Definition before {A : Type} (compareFn : A -> A -> Z) (a b : A) : Prop :=
  (compareFn a b <= 0)%Z.

Definition doubleQuote : string := String "034"%char EmptyString.

Definition hex2 (n : Z) : string :=
  String (digitChar (n / 16)) (String (digitChar (n mod 16)) EmptyString).

(** JSON escape of one code unit. *)
Definition escapeChar (c : ascii) : string :=
  let n := charCodeAt c in
  if (n =? 34)%Z then "\" +:+ doubleQuote
  else if (n =? 92)%Z then "\\"
  else if (n =? 8)%Z then "\b"
  else if (n =? 9)%Z then "\t"
  else if (n =? 10)%Z then "\n"
  else if (n =? 12)%Z then "\f"
  else if (n =? 13)%Z then "\r"
  else if (n <? 32)%Z then "\u00" +:+ hex2 n
  else String c EmptyString.

Fixpoint escape (s : string) : string :=
  match s with
  | EmptyString => EmptyString
  | String c s' => escapeChar c +:+ escape s'
  end.

(** [JSON.stringify] of a string. *)
Definition JSON_string (s : string) : string := doubleQuote +:+ escape s +:+ doubleQuote.

(** UTF-8 encoding of one code unit below 256. *)
Definition utf8 (c : ascii) : list Byte.byte :=
  let n := nat_of_ascii c in
  if (n <? 128)%nat then [byte_of_ascii c]
  else [byte_of_ascii (ascii_of_nat (192 + n / 64));
        byte_of_ascii (ascii_of_nat (128 + n mod 64))].

(** [Buffer.from(s)] *)
Fixpoint Buffer_from (s : string) : list Byte.byte :=
  match s with
  | EmptyString => []
  | String c s' => utf8 c ++ Buffer_from s'
  end.

Module ProofData.
Record t : Type := {
  dataId : string;
  consensusRatio : number;
  validationCount : nat;
  timestamp : number;
  validationsHash : string
}.
End ProofData.

(** [String.prototype.localeCompare] and the conversion of a number to a
    string are the runtime's; the service is parametric in them. *)
Section Runtime.
Variable localeCompare : string -> string -> Z.
Variable Number_toString : number -> string.

(** [`${v.validator}:${v.result}:${v.trustScore}`] *)
Definition validationEntry (v : Validation.t) : string :=
  Validation.validator v +:+ ":" +:+ boolToString (Validation.result v)
    +:+ ":" +:+ Number_toString (Validation.trustScore v).

Definition hashValidations (validations : list Validation.t) : string :=
  let sortedValidations :=
    Array_sort
      (fun a b => localeCompare (Validation.validator a) (Validation.validator b))
      validations in
  let validationString := join "|" (map validationEntry sortedValidations) in
  let hash := hashLoop validationString 0 in
  padStart 8 "0" (toStringRadix 16 (Z.abs hash)).

(** [JSON.stringify] of a number: [null] unless it is finite. *)
Definition JSON_number (x : number) : string :=
  match x with
  | Fin _ => Number_toString x
  | _ => "null"
  end.

(** [JSON.stringify(proofData)]: the keys in the order of the literal. *)
Definition JSON_stringify (proofData : ProofData.t) : string :=
  "{" +:+ JSON_string "dataId" +:+ ":" +:+ JSON_string (ProofData.dataId proofData)
  +:+ "," +:+ JSON_string "consensusRatio" +:+ ":"
  +:+ JSON_number (ProofData.consensusRatio proofData)
  +:+ "," +:+ JSON_string "validationCount" +:+ ":"
  +:+ Number_toString (ofNat (ProofData.validationCount proofData))
  +:+ "," +:+ JSON_string "timestamp" +:+ ":"
  +:+ JSON_number (ProofData.timestamp proofData)
  +:+ "," +:+ JSON_string "validationsHash" +:+ ":"
  +:+ JSON_string (ProofData.validationsHash proofData) +:+ "}".

Definition generateConsensusProof (result : ValidationResult.t) : list Byte.byte :=
  let proofData :=
    {| ProofData.dataId := ValidationResult.dataId result;
       ProofData.consensusRatio := ValidationResult.consensusRatio result;
       ProofData.validationCount := length (ValidationResult.validations result);
       ProofData.timestamp := ValidationResult.timestamp result;
       ProofData.validationsHash := hashValidations (ValidationResult.validations result) |} in
  Buffer_from (JSON_stringify proofData).

End Runtime.

(** *** A concrete runtime, for running the service on examples *)

(** Comparison by code units; it agrees with [localeCompare] on identifiers
    made of digits and letters of one case. *)
Definition codeUnitCompare (a b : string) : Z :=
  match String.compare a b with
  | Lt => (-1)%Z
  | Eq => 0%Z
  | Gt => 1%Z
  end.

(** Decimal notation; it agrees with [Number.prototype.toString] on the
    integers below [10^21], which is all the examples use.  Other finite
    values are written as a fraction. *)
Definition decimalToString (x : number) : string :=
  match x with
  | NaN => "NaN"
  | PInf => "Infinity"
  | NInf => "-Infinity"
  | Fin q =>
      let n := Qnum (Qred q) in
      let d := Z.pos (Qden (Qred q)) in
      let sign := if (n <? 0)%Z then "-" else EmptyString in
      let whole := sign +:+ toStringRadix 10 (Z.abs n) in
      if (d =? 1)%Z then whole else whole +:+ "/" +:+ toStringRadix 10 d
  end.

End CrossValidator.

(* ===================================================================== *)
(** * The aggregation on binary64 numbers                                 *)
(* ===================================================================== *)

(** [aggregateValidations] with the numbers of the runtime: every sum and
    every quotient is rounded to binary64, and a sum beyond the largest
    finite number is [Infinity]. *)
Module Binary64.
Import PrimFloat.
#[local] Set Warnings "-inexact-float".
Local Open Scope float_scope.

Module Validation.
Record t : Type := {
  validator : string;
  result : bool;
  trustScore : float;
  timestamp : float;
  evidence : option string
}.
End Validation.

Module ValidationResult.
Record t : Type := {
  dataId : string;
  isValid : bool;
  weightedPositive : float;
  weightedNegative : float;
  consensusRatio : float;
  validations : list Validation.t;
  timestamp : float
}.
End ValidationResult.

Module ConsensusConfig.
Record t : Type := {
  minValidations : float;
  consensusThreshold : float;
  timeoutMs : float
}.
Record partial : Type := {
  minValidations_opt : option float;
  consensusThreshold_opt : option float;
  timeoutMs_opt : option float
}.
Definition empty : partial :=
  {| minValidations_opt := None; consensusThreshold_opt := None; timeoutMs_opt := None |}.
End ConsensusConfig.

Definition defaultConfig : ConsensusConfig.t :=
  {| ConsensusConfig.minValidations := 3;
     ConsensusConfig.consensusThreshold := 0.66;
     ConsensusConfig.timeoutMs := 30000 |}.

Definition mergeConfig (config : ConsensusConfig.partial) : ConsensusConfig.t :=
  {| ConsensusConfig.minValidations :=
       default (ConsensusConfig.minValidations defaultConfig)
               (ConsensusConfig.minValidations_opt config);
     ConsensusConfig.consensusThreshold :=
       default (ConsensusConfig.consensusThreshold defaultConfig)
               (ConsensusConfig.consensusThreshold_opt config);
     ConsensusConfig.timeoutMs :=
       default (ConsensusConfig.timeoutMs defaultConfig)
               (ConsensusConfig.timeoutMs_opt config) |}.

(** The length of an array, as a number. *)
Fixpoint ofNat (n : nat) : float :=
  match n with
  | O => 0
  | S n => ofNat n + 1
  end.

Definition weigh (acc : float * float) (validation : Validation.t) : float * float :=
  let '(weightedPositive, weightedNegative) := acc in
  if Validation.result validation
  then (weightedPositive + Validation.trustScore validation, weightedNegative)
  else (weightedPositive, weightedNegative + Validation.trustScore validation).

Definition aggregateValidations
    (dataId : string) (validations : list Validation.t)
    (config : ConsensusConfig.partial) (now : float)
  : CrossValidator.Promise ValidationResult.t :=
  let finalConfig := mergeConfig config in
  if ofNat (length validations) <? ConsensusConfig.minValidations finalConfig
  then
    CrossValidator.Resolved
      {| ValidationResult.dataId := dataId;
         ValidationResult.isValid := false;
         ValidationResult.weightedPositive := 0;
         ValidationResult.weightedNegative := 0;
         ValidationResult.consensusRatio := 0;
         ValidationResult.validations := validations;
         ValidationResult.timestamp := now |}
  else
    let '(weightedPositive, weightedNegative) := fold_left weigh validations (0, 0) in
    let totalWeight := weightedPositive + weightedNegative in
    let consensusRatio :=
      if 0 <? totalWeight then weightedPositive / totalWeight else 0 in
    let isValid := ConsensusConfig.consensusThreshold finalConfig <=? consensusRatio in
    CrossValidator.Resolved
      {| ValidationResult.dataId := dataId;
         ValidationResult.isValid := isValid;
         ValidationResult.weightedPositive := weightedPositive;
         ValidationResult.weightedNegative := weightedNegative;
         ValidationResult.consensusRatio := consensusRatio;
         ValidationResult.validations := validations;
         ValidationResult.timestamp := now |}.

(** A validation with the given trust score and nothing else of note. *)
Definition vote (validator : string) (result : bool) (trustScore : float) : Validation.t :=
  {| Validation.validator := validator;
     Validation.result := result;
     Validation.trustScore := trustScore;
     Validation.timestamp := 0;
     Validation.evidence := None |}.

(** Four validations with fractional trust scores, in two orders of
    arrival. *)
Definition fractionalVotes : list Validation.t :=
  [vote "A" true 0.1; vote "B" true 0.2; vote "C" true 0.3; vote "D" false 0.3].

Definition fractionalVotesReversed : list Validation.t :=
  [vote "D" false 0.3; vote "C" true 0.3; vote "B" true 0.2; vote "A" true 0.1].

(** A two-thirds majority, as the decimal [0.6666666666666667]. *)
Definition twoThirds : ConsensusConfig.partial :=
  {| ConsensusConfig.minValidations_opt := None;
     ConsensusConfig.consensusThreshold_opt := Some 0.6666666666666667;
     ConsensusConfig.timeoutMs_opt := None |}.

(** Integral weights beyond the range of trust scores, in two orders of
    arrival: 2^53 + 1 is not a binary64 number. *)
Definition largeVotes : list Validation.t :=
  [vote "A" true 9007199254740992; vote "B" true 1; vote "C" true 1].

Definition largeVotesReversed : list Validation.t :=
  [vote "C" true 1; vote "B" true 1; vote "A" true 9007199254740992].

(** Three yes votes, two of them with the weight 2^1023: their sum is
    beyond the largest finite number. *)
Definition hugeVotes : list Validation.t :=
  [vote "A" true 0x1p1023; vote "B" true 0x1p1023; vote "C" true 1].

End Binary64.

(* ===================================================================== *)
(** * Example inputs                                                      *)
(* ===================================================================== *)

Module Examples.
Import JS CrossValidator.

(** A validation with an integral trust score and nothing else of note. *)
Definition vote (validator : string) (result : bool) (trustScore : Z) : Validation.t :=
  {| Validation.validator := validator;
     Validation.result := result;
     Validation.trustScore := ofZ trustScore;
     Validation.timestamp := ofZ 0;
     Validation.evidence := None |}.

(** A past result holding the given validations; the aggregate fields play
    no part in collusion detection. *)
Definition pastResult (dataId : string) (validations : list Validation.t)
  : ValidationResult.t :=
  {| ValidationResult.dataId := dataId;
     ValidationResult.isValid := true;
     ValidationResult.weightedPositive := zero;
     ValidationResult.weightedNegative := zero;
     ValidationResult.consensusRatio := zero;
     ValidationResult.validations := validations;
     ValidationResult.timestamp := ofZ 0 |}.

(** Ten past results: "A" voted on the first five only, "B" on the last
    five only, and "C" on all of them.  "A" and "B" share no claim. *)
Definition disjointHistory : list ValidationResult.t :=
  [ pastResult "c1" [vote "A" true 800; vote "C" true 500];
    pastResult "c2" [vote "A" false 800; vote "C" true 500];
    pastResult "c3" [vote "A" true 800; vote "C" true 500];
    pastResult "c4" [vote "A" false 800; vote "C" true 500];
    pastResult "c5" [vote "A" true 800; vote "C" true 500];
    pastResult "c6" [vote "B" true 700; vote "C" true 500];
    pastResult "c7" [vote "B" false 700; vote "C" true 500];
    pastResult "c8" [vote "B" true 700; vote "C" true 500];
    pastResult "c9" [vote "B" false 700; vote "C" true 500];
    pastResult "c10" [vote "B" true 700; vote "C" true 500] ].

(** Six past results: "A" voted on all six, "B" on the first five. *)
Definition unevenHistory : list ValidationResult.t :=
  [ pastResult "c1" [vote "A" true 800; vote "B" true 700];
    pastResult "c2" [vote "A" false 800; vote "B" false 700];
    pastResult "c3" [vote "A" true 800; vote "B" true 700];
    pastResult "c4" [vote "A" false 800; vote "B" false 700];
    pastResult "c5" [vote "A" true 800; vote "B" true 700];
    pastResult "c6" [vote "A" true 800] ].

(** Five past results on which "A" and "B" both voted, always [true]. *)
Definition unanimousHistory : list ValidationResult.t :=
  [ pastResult "c1" [vote "A" true 800; vote "B" true 700];
    pastResult "c2" [vote "A" true 800; vote "B" true 700];
    pastResult "c3" [vote "A" true 800; vote "B" true 700];
    pastResult "c4" [vote "A" true 800; vote "B" true 700];
    pastResult "c5" [vote "A" true 800; vote "B" true 700] ].

(** Five past results on which "A" and "B" voted alike, not always the
    same way. *)
Definition lockstepHistory : list ValidationResult.t :=
  [ pastResult "c1" [vote "A" true 800; vote "B" true 700];
    pastResult "c2" [vote "A" false 800; vote "B" false 700];
    pastResult "c3" [vote "A" true 800; vote "B" true 700];
    pastResult "c4" [vote "A" false 800; vote "B" false 700];
    pastResult "c5" [vote "A" true 800; vote "B" true 700] ].

(** Two results that differ only in the order of their two validations,
    both submitted under the validator id "A". *)
Definition twiceA : ValidationResult.t :=
  {| ValidationResult.dataId := "claim-1";
     ValidationResult.isValid := true;
     ValidationResult.weightedPositive := ofZ 1;
     ValidationResult.weightedNegative := ofZ 2;
     ValidationResult.consensusRatio := Fin (1 # 3);
     ValidationResult.validations := [vote "A" true 1; vote "A" false 2];
     ValidationResult.timestamp := ofZ 1700000000000 |}.

Definition twiceA_swapped : ValidationResult.t :=
  {| ValidationResult.dataId := "claim-1";
     ValidationResult.isValid := true;
     ValidationResult.weightedPositive := ofZ 1;
     ValidationResult.weightedNegative := ofZ 2;
     ValidationResult.consensusRatio := Fin (1 # 3);
     ValidationResult.validations := [vote "A" false 2; vote "A" true 1];
     ValidationResult.timestamp := ofZ 1700000000000 |}.

(** The same, with the second validation submitted by "B". *)
Definition byAB : ValidationResult.t :=
  {| ValidationResult.dataId := "claim-1";
     ValidationResult.isValid := true;
     ValidationResult.weightedPositive := ofZ 1;
     ValidationResult.weightedNegative := ofZ 2;
     ValidationResult.consensusRatio := Fin (1 # 3);
     ValidationResult.validations := [vote "A" true 1; vote "B" false 2];
     ValidationResult.timestamp := ofZ 1700000000000 |}.

Definition byAB_swapped : ValidationResult.t :=
  {| ValidationResult.dataId := "claim-1";
     ValidationResult.isValid := true;
     ValidationResult.weightedPositive := ofZ 1;
     ValidationResult.weightedNegative := ofZ 2;
     ValidationResult.consensusRatio := Fin (1 # 3);
     ValidationResult.validations := [vote "B" false 2; vote "A" true 1];
     ValidationResult.timestamp := ofZ 1700000000000 |}.

End Examples.

(* ===================================================================== *)
(** * More of the JavaScript runtime                                      *)
(* ===================================================================== *)

Module JSRuntime.
Import JS.

(** Truncation towards zero. *)
Definition truncate (q : Q) : Z :=
  if (Qnum q <? 0)%Z then Qceiling q else Qfloor q.

(** [x % y]: the remainder takes the sign of the dividend. *)
Definition rem (x y : number) : number :=
  match x, y with
  | NaN, _ | _, NaN => NaN
  | PInf, _ | NInf, _ => NaN
  | Fin a, Fin b =>
      if Qeq_bool b 0 then NaN else fin (a - b * inject_Z (truncate (a / b)))
  | Fin _, _ => x
  end.

(** [s.substring(start, end)]: both indices are clamped to the length and
    swapped when out of order. *)
Definition substring (start finish : nat) (s : string) : string :=
  let len := String.length s in
  let finalStart := Nat.min start len in
  let finalEnd := Nat.min finish len in
  let from := Nat.min finalStart finalEnd in
  let to := Nat.max finalStart finalEnd in
  String.substring from (to - from) s.

(** White space that [parseInt] skips, among the code units below 256. *)
Definition isWhiteSpace (c : ascii) : bool :=
  let n := nat_of_ascii c in
  ((n =? 9) || (n =? 10) || (n =? 11) || (n =? 12) || (n =? 13)
   || (n =? 32) || (n =? 160))%nat.

Fixpoint trimStart (s : string) : string :=
  match s with
  | EmptyString => EmptyString
  | String c s' => if isWhiteSpace c then trimStart s' else s
  end.

(** Value of a hexadecimal digit, of either case. *)
Definition hexValue (c : ascii) : option Z :=
  let n := Z.of_nat (nat_of_ascii c) in
  if ((48 <=? n) && (n <=? 57))%Z then Some (n - 48)%Z
  else if ((97 <=? n) && (n <=? 102))%Z then Some (n - 87)%Z
  else if ((65 <=? n) && (n <=? 70))%Z then Some (n - 55)%Z
  else None.

(** The longest prefix of hexadecimal digits, read as a number; [None] when
    there is no digit at all. *)
Fixpoint hexPrefix (s : string) (value : Z) (seen : bool) : option Z :=
  match s with
  | EmptyString => if seen then Some value else None
  | String c s' =>
      match hexValue c with
      | Some d => hexPrefix s' (16 * value + d) true
      | None => if seen then Some value else None
      end
  end.

(** A string made of hexadecimal digits only. *)
Fixpoint hexDigits (s : string) : bool :=
  match s with
  | EmptyString => true
  | String c s' =>
      match hexValue c with
      | Some _ => hexDigits s'
      | None => false
      end
  end.

(** [parseInt(s, 16)]: leading white space, an optional sign and an
    optional [0x] are skipped; [NaN] when no digit follows. *)
Definition parseInt16 (s : string) : number :=
  let s := trimStart s in
  let '(sign, s) :=
    match s with
    | String c s' =>
        if Ascii.eqb c "-" then ((-1)%Z, s')
        else if Ascii.eqb c "+" then (1%Z, s')
        else (1%Z, s)
    | EmptyString => (1%Z, s)
    end in
  let s :=
    match s with
    | String c0 (String c1 s') =>
        if (Ascii.eqb c0 "0" && (Ascii.eqb c1 "x" || Ascii.eqb c1 "X"))%bool
        then s' else s
    | _ => s
    end in
  match hexPrefix s 0 false with
  | Some value => ofZ (sign * value)
  | None => NaN
  end.

(** A number that is neither [NaN] nor an infinity. *)
Definition finite (x : number) : Prop :=
  match x with
  | Fin _ => True
  | _ => False
  end.

(** A positive, increasing stand-in for [Math.exp], exact at 0, with which
    the service can be run on examples. *)
Definition rationalExp (x : number) : number :=
  match x with
  | Fin q => if Qle_bool q 0 then fin (1 / (1 - q)) else fin (1 + q)
  | PInf => PInf
  | NInf => zero
  | NaN => NaN
  end.

(** The number a vote is coded by. *)
Definition bitValue (b : bool) : Q := if b then 1%Q else 0%Q.

End JSRuntime.

(* ===================================================================== *)
(** * Vocabulary for the Trust Scoring Service                             *)
(* ===================================================================== *)

Module TrustVocabulary.
Import JS JSRuntime TrustScorer.

(** Magnitude at most 2^53: the range in which binary64 holds every
    integer, and far from any overflow. *)
Definition safe (q : Q) : Prop :=
  (- inject_Z (2 ^ 53) <= q <= inject_Z (2 ^ 53))%Q.

(** A record with a timestamp of safe magnitude and a score between two
    bounds. *)
Definition boundedRecord (lo hi : Q) (h : AccuracyHistory) : Prop :=
  exists t s, timestamp h = Fin t /\ score h = Fin s /\ safe t /\ (lo <= s <= hi)%Q.

(** The weight the decay loop gives a record:
    [Math.exp(-decayRate * ageInDays)]. *)
Definition decayWeight (Math_exp : number -> number) (now : number)
    (h : AccuracyHistory) : number :=
  Math_exp (mul (neg decayRate) (div (sub now (timestamp h)) msPerDay)).

(** A record whose decay weight is a number of [[0,1]], as [Math.exp] gives
    it for a record that is not dated in the future. *)
Definition discounted (Math_exp : number -> number) (now : number)
    (h : AccuracyHistory) : Prop :=
  exists r, decayWeight Math_exp now h = Fin r /\ (0 <= r <= 1)%Q.

(** A record that still counts: its decay weight has not vanished. *)
Definition counted (Math_exp : number -> number) (now : number)
    (h : AccuracyHistory) : Prop :=
  exists r, decayWeight Math_exp now h = Fin r /\ (0 < r <= 1)%Q.

(** The sum of a list of integers. *)
Definition Zsum (l : list Z) : Z := fold_right Z.add 0%Z l.

(** The sum of a list of rationals. *)
Definition Qsum (l : list Q) : Q := fold_right Qplus 0%Q l.

(** The points lie on the line [y = a x + b]. *)
Definition onLine (a b : Q) (xs ys : list Q) : Prop :=
  Forall2 (fun x y => (y == a * x + b)%Q) xs ys.

(** A record with a finite timestamp and a finite score. *)
Definition finiteRecord (h : AccuracyHistory) : Prop :=
  finite (timestamp h) /\ finite (score h).

End TrustVocabulary.

(* ===================================================================== *)
(** * Vocabulary for the Cross-Validator Service                           *)
(* ===================================================================== *)

Module CrossVocabulary.
Import JS CrossValidator.

(** Two validations that agree on what the consensus proof reads of them:
    the validator, the verdict and the trust score. *)
Definition sameCommitment (v v' : Validation.t) : Prop :=
  Validation.validator v = Validation.validator v' /\
  Validation.result v = Validation.result v' /\
  Validation.trustScore v = Validation.trustScore v'.

(** The polynomial hash with multiplier 31, computed without any
    wrap-around: [hash * 31 + char] at every character. *)
Fixpoint polynomialHash (s : string) (hash : Z) : Z :=
  match s with
  | EmptyString => hash
  | String c s' => polynomialHash s' (hash * 31 + charCodeAt c)
  end.

(** A signed 32-bit integer. *)
Definition isInt32 (z : Z) : Prop := (- 2 ^ 31 <= z < 2 ^ 31)%Z.

End CrossVocabulary.

(* ===================================================================== *)
(** * Cross-Validator Service: requesting validations                      *)
(* ===================================================================== *)

Module Simulation.
Import JS JSRuntime CrossValidator.

Module ValidationRequest.
Record t : Type := {
  dataId : string;
  dataHash : string;
  category : number;
  validators : list string;
  minValidations : number;
  consensusThreshold : number
}.
End ValidationRequest.

(** [hashString]: the hash of [hashValidations], padded to 32 digits. *)
Definition hashString (str : string) : string :=
  let hash := hashLoop str 0 in
  padStart 32 "0" (toStringRadix 16 (Z.abs hash)).

Section Runtime.
Variable Number_toString : number -> string.

(** The [evidence] object of a simulated validation, kept as its JSON
    text. *)
Definition simulatedEvidence (confidence : number) : string :=
  "{" +:+ JSON_string "method" +:+ ":" +:+ JSON_string "simulated"
  +:+ "," +:+ JSON_string "confidence" +:+ ":"
  +:+ JSON_number Number_toString confidence +:+ "}".

(** [now] is the value [Date.now()] returns in this call. *)
Definition simulateValidation
    (validator : string) (request : ValidationRequest.t) (now : number)
  : Validation.t :=
  let seed := validator +:+ ":" +:+ ValidationRequest.dataHash request in
  let pseudoRandom := hashString seed in
  let result :=
    ltb (rem (parseInt16 (substring 0 8 pseudoRandom)) (ofZ 100)) (ofZ 80) in
  let trustScore :=
    add (ofZ 200) (rem (parseInt16 (substring 8 16 pseudoRandom)) (ofZ 800)) in
  {| Validation.validator := validator;
     Validation.result := result;
     Validation.trustScore := trustScore;
     Validation.timestamp := now;
     Validation.evidence :=
       Some (simulatedEvidence
               (add (Fin (7 # 10))
                    (div (rem (parseInt16 (substring 16 18 pseudoRandom)) (ofZ 30))
                         (ofZ 100)))) |}.

(** [clock i] is what the [i]-th call of [Date.now()] returns.  Every
    simulated validator answers at once, in request order, so the race
    against the timeout is always won by the answers, no answer is [null],
    and nothing throws. *)
Definition requestValidations
    (request : ValidationRequest.t) (config : ConsensusConfig.partial)
    (clock : nat -> number) : Promise ValidationResult.t :=
  let validations :=
    imap (fun i validator => simulateValidation validator request (clock i))
         (ValidationRequest.validators request) in
  let successfulValidations := validations in
  aggregateValidations (ValidationRequest.dataId request) successfulValidations config
    (clock (length (ValidationRequest.validators request))).

End Runtime.

End Simulation.


(* ===================================================================== *)
(** * Facts about the number model                                        *)
(* ===================================================================== *)

Module JSFacts.
Import JS.

Lemma fin_eq (a b : Q) : (a == b)%Q -> fin a = fin b.
Proof. intros H. unfold fin. f_equal. by apply Qred_complete. Qed.

Lemma fin_inject_Z (z : Z) : fin (inject_Z z) = ofZ z.
Proof.
  unfold fin, ofZ. f_equal. apply Qred_identity. simpl. apply Z.gcd_1_r.
Qed.

Lemma add_ofZ (a b : Z) : add (ofZ a) (ofZ b) = ofZ (a + b).
Proof.
  rewrite <- (fin_inject_Z (a + b)). unfold add, ofZ. apply fin_eq.
  by rewrite inject_Z_plus.
Qed.

Lemma add_comm (x y : number) : add x y = add y x.
Proof. destruct x, y; simpl; try reflexivity. apply fin_eq. ring. Qed.

Lemma add_assoc (x y z : number) : add (add x y) z = add x (add y z).
Proof.
  destruct x, y, z; simpl; try reflexivity.
  apply fin_eq. rewrite !Qred_correct. ring.
Qed.

Lemma add_NaN_r (x : number) : add x NaN = NaN.
Proof. by destruct x. Qed.

Lemma mul_NaN_r (x : number) : mul x NaN = NaN.
Proof. by destruct x. Qed.

Lemma sub_NaN_l (x : number) : sub NaN x = NaN.
Proof. reflexivity. Qed.

Lemma ltb_Fin (a b : Q) : ltb (Fin a) (Fin b) = true <-> (a < b)%Q.
Proof.
  simpl. rewrite Qlt_alt. destruct (a ?= b)%Q; split; congruence.
Qed.

Lemma ltb_Fin_false (a b : Q) : ltb (Fin a) (Fin b) = false <-> (b <= a)%Q.
Proof.
  simpl. rewrite Qle_alt, <- (Qcompare_antisym a b).
  destruct (a ?= b)%Q; simpl; split; (congruence || done).
Qed.

Lemma leb_Fin (a b : Q) : leb (Fin a) (Fin b) = true <-> (a <= b)%Q.
Proof.
  simpl. rewrite Qle_alt. destruct (a ?= b)%Q; split; congruence.
Qed.

(** Rounding an integer leaves it unchanged. *)
Lemma Qfloor_half (z : Z) (q : Q) : (q == inject_Z z)%Q -> Qfloor (q + (1 # 2)) = z.
Proof.
  intros H.
  assert (Hlo : (inject_Z z <= q + (1 # 2))%Q) by (rewrite H; lra).
  assert (Hhi : (q + (1 # 2) < inject_Z (z + 1))%Q).
  { rewrite H, inject_Z_plus. change (inject_Z 1) with 1%Q. lra. }
  apply Qfloor_resp_le in Hlo. rewrite Qfloor_Z in Hlo.
  pose proof (Qfloor_le (q + (1 # 2))) as Hfl.
  assert (Hz : (inject_Z (Qfloor (q + (1 # 2))) < inject_Z (z + 1))%Q) by lra.
  rewrite <- Zlt_Qlt in Hz. lia.
Qed.

Lemma Math_round_integer (z : Z) (q : Q) :
  (q == inject_Z z)%Q -> Math_round (Fin q) = ofZ z.
Proof. intros H. unfold Math_round. by rewrite (Qfloor_half z). Qed.

Lemma Math_max_zero_ofZ (z : Z) : (0 <= z)%Z -> Math_max zero (ofZ z) = ofZ z.
Proof.
  intros Hz. unfold Math_max, zero, ofZ.
  destruct (ltb (Fin (inject_Z 0)) (Fin (inject_Z z))) eqn:E; [done|].
  apply ltb_Fin_false in E. rewrite <- Zle_Qle in E.
  by replace z with 0%Z by lia.
Qed.

Lemma Math_min_ofZ (m z : Z) : (z <= m)%Z -> Math_min (ofZ m) (ofZ z) = ofZ z.
Proof.
  intros Hz. unfold Math_min, ofZ.
  destruct (ltb (Fin (inject_Z z)) (Fin (inject_Z m))) eqn:E; [done|].
  apply ltb_Fin_false in E. rewrite <- Zle_Qle in E.
  by replace z with m by lia.
Qed.

(** Clamping into [[0,1]] never yields an infinity, and yields [NaN] only
    on [NaN]. *)
Lemma unit_clamp_finite (w : number) :
  w <> NaN -> exists q, Math_max zero (Math_min one w) = Fin q.
Proof.
  intros Hw. destruct w as [q| | |]; [| | |done].
  - unfold Math_min, one, ofZ. destruct (ltb (Fin q) (Fin (inject_Z 1))).
    + unfold Math_max, zero, ofZ. destruct (ltb _ _); eauto.
    + unfold Math_max, zero, ofZ. destruct (ltb _ _); eauto.
  - by exists (inject_Z 1).
  - by exists (inject_Z 0).
Qed.

(** ** Squares *)
Lemma sq_nonneg (y : Q) : (0 <= y * y)%Q.
Proof.
  destruct (Qlt_le_dec y 0) as [H|H].
  - assert (E : (y * y == (- y) * (- y))%Q) by ring. rewrite E.
    apply Qmult_le_0_compat; lra.
  - by apply Qmult_le_0_compat.
Qed.

Lemma sq_zero (y : Q) : (y * y <= 0)%Q -> (y == 0)%Q.
Proof.
  intros H. destruct (Qeq_dec y 0) as [|Hne]; [done|].
  assert (0 < y * y)%Q; [|lra].
  destruct (Qlt_le_dec y 0) as [Hlt|Hge].
  - assert (E : (y * y == (- y) * (- y))%Q) by ring. rewrite E.
    apply Qmult_lt_0_compat; lra.
  - assert (0 < y)%Q.
    { apply Qle_lteq in Hge as [|Heq]; [done|]. exfalso. apply Hne. by symmetry. }
    by apply Qmult_lt_0_compat.
Qed.

(** ** Square roots of squares *)

Lemma gcd_square (n p : Z) : Z.gcd n p = 1%Z -> Z.gcd (n * n) (p * p) = 1%Z.
Proof.
  intros H. apply Z.coprime_mul_l; by apply Z.coprime_mul_r.
Qed.

Lemma Qred_square (d : Q) :
  Qred (d * d) = (Qnum (Qred d) * Qnum (Qred d) # Qden (Qred d) * Qden (Qred d))%Q.
Proof.
  rewrite (Qred_complete (d * d) (Qred d * Qred d))
    by (by rewrite Qred_correct).
  pose proof (Qred_involutive d) as Hred. apply Qred_iff in Hred.
  destruct (Qred d) as [n p]. simpl in *.
  apply Qred_identity. simpl. rewrite Pos2Z.inj_mul. by apply gcd_square.
Qed.

Lemma Math_sqrt_square (d : Q) : (0 <= d)%Q -> Math_sqrt (mul (Fin d) (Fin d)) = fin d.
Proof.
  intros Hd. unfold mul, fin, Math_sqrt.
  assert (Hsq : (0 <= Qred (d * d))%Q) by (rewrite Qred_correct; nra).
  destruct (Qred (d * d) ?= 0)%Q eqn:E.
  2:{ apply Qlt_alt in E. lra. }
  all: rewrite Qred_involutive, Qred_square.
  all: assert (Hn : (0 <= Qnum (Qred d))%Z)
         by (rewrite <- (Qred_correct d) in Hd; unfold Qle in Hd; simpl in Hd; lia).
  all: destruct (Qred d) as [n p]; cbn [Qnum Qden] in *.
  all: rewrite Pos2Z.inj_mul, !Z.sqrt_square by lia.
  all: by rewrite !Z.eqb_refl.
Qed.

(** ** Order *)

Lemma leb_refl (x : number) : x <> NaN -> leb x x = true.
Proof.
  destruct x as [a| | |]; try done. intros _. apply leb_Fin. lra.
Qed.

Lemma leb_trans (x y z : number) :
  leb x y = true -> leb y z = true -> leb x z = true.
Proof.
  destruct x as [a| | |], y as [b| | |], z as [c| | |]; try done.
  rewrite !leb_Fin. lra.
Qed.

Lemma Math_max_spec (x y : number) :
  x <> NaN -> y <> NaN ->
  (Math_max x y = x \/ Math_max x y = y) /\
  leb x (Math_max x y) = true /\ leb y (Math_max x y) = true.
Proof.
  intros Hx Hy.
  destruct x as [a| | |], y as [b| | |]; try done; try (by auto).
  - unfold Math_max. destruct (ltb (Fin a) (Fin b)) eqn:E.
    + apply ltb_Fin in E. split; [by right|]. split; apply leb_Fin; lra.
    + apply ltb_Fin_false in E. split; [by left|]. split; apply leb_Fin; lra.
  - unfold Math_max. simpl. split; [by left|]. split; [apply leb_Fin; lra|done].
  - unfold Math_max. simpl. split; [by right|]. split; [done|apply leb_Fin; lra].
Qed.

Lemma gtb_not_NaN (x y : number) : gtb x y = true -> x <> NaN.
Proof. destruct x, y; done. Qed.

Lemma gtb_leb_lt (x : number) (a b : Q) :
  (b <= a)%Q -> gtb x (Fin a) = true -> leb x (Fin b) = true -> False.
Proof.
  intros Hab. destruct x as [c| | |]; try done.
  unfold gtb. rewrite ltb_Fin, leb_Fin. lra.
Qed.

End JSFacts.

(* ===================================================================== *)
(** * Properties of the Trust Scoring Service                              *)
(* ===================================================================== *)

Module TrustScorerProps.
Import JS JSFacts TrustScorer.

(** With all three weights zero the normalised weights are [0/0]. *)
Lemma normalizeWeights_zero :
  normalizeWeights {| accuracy := zero; consistency := zero; validation := zero |}
  = {| accuracy := NaN; consistency := NaN; validation := NaN |}.
Proof. reflexivity. Qed.

Lemma clamp_NaN : clamp NaN = NaN.
Proof. reflexivity. Qed.

(** Apart from [NaN], which it lets through, the clamp lands in [[0,1000]]. *)
Lemma clamp_range (x : number) :
  x <> NaN -> leb zero (clamp x) = true /\ leb (clamp x) (ofZ 1000) = true.
Proof.
  intros Hx. unfold clamp.
  destruct x as [q| | |]; [| done | done | done].
  unfold Math_max, zero, ofZ.
  destruct (ltb (Fin (inject_Z 0)) (Fin q)) eqn:E.
  - unfold Math_min. destruct (ltb (Fin q) (Fin (inject_Z 1000))) eqn:E'.
    + apply ltb_Fin in E, E'. split; apply leb_Fin; lra.
    + done.
  - done.
Qed.

(** Whatever the inputs, the score is in [[0,1000]] or it is [NaN]. *)
Lemma calculateTrustScore_range_or_NaN
    (Math_exp : number -> number) (now : number)
    (params : TrustScoreParams) (weights : Partial.TrustScoreWeights) :
  let score := calculateTrustScore Math_exp now params weights in
  score = NaN \/ (leb zero score = true /\ leb score (ofZ 1000) = true).
Proof.
  cbv zeta. unfold calculateTrustScore. cbv zeta.
  match goal with |- clamp ?x = _ \/ _ => generalize x end.
  intros [q| | |]; [right | right | right | by left]; by apply clamp_range.
Qed.

(** Absent weights are the defaults, and a triple on one factor is fine. *)
Example calculateTrustScore_defaults (Math_exp : number -> number) (now : number) :
  calculateTrustScore Math_exp now
    {| baseScore := None; accuracyHistory := None; consistencyFactor := Some (ofZ 800);
       validationSuccessRate := Some (ofZ 900); totalSubmissions := None |}
    Partial.empty
  = ofZ 640.
Proof. reflexivity. Qed.

Example calculateTrustScore_one_factor (Math_exp : number -> number) (now : number) :
  calculateTrustScore Math_exp now
    {| baseScore := None; accuracyHistory := None; consistencyFactor := Some (ofZ 800);
       validationSuccessRate := Some (ofZ 900); totalSubmissions := None |}
    {| Partial.accuracy := Some zero; Partial.consistency := Some (ofZ 7);
       Partial.validation := Some zero |}
  = ofZ 800.
Proof. reflexivity. Qed.

(** C1 (as the code behaves): a caller that passes the weight triple
    (0, 0, 0) does not get the default weights: normalisation divides zero
    by zero, and whatever the other inputs are the returned score is [NaN],
    which is not a number of [[0,1000]]. *)
Theorem calculateTrustScore_zero_weights
    (Math_exp : number -> number) (now : number) (params : TrustScoreParams) :
  let score :=
    calculateTrustScore Math_exp now params
      {| Partial.accuracy := Some zero;
         Partial.consistency := Some zero;
         Partial.validation := Some zero |} in
  score = NaN /\ leb zero score = false /\ leb score (ofZ 1000) = false.
Proof.
  cbv zeta.
  assert (H : calculateTrustScore Math_exp now params
      {| Partial.accuracy := Some zero;
         Partial.consistency := Some zero;
         Partial.validation := Some zero |} = NaN).
  { unfold calculateTrustScore. cbn [Partial.accuracy Partial.consistency
      Partial.validation nullish]. rewrite normalizeWeights_zero.
    cbn [accuracy consistency validation]. rewrite !mul_NaN_r. reflexivity. }
  rewrite H. done.
Qed.

(** C7: with fewer than three history points no regression is made: the
    prediction is the score of the last entry, or 500 for an empty history,
    whatever the horizon and the clock. *)
Theorem predictTrustScoreTrend_short_history
    (now : number)
    (history : list AccuracyHistory) (daysToPredict : option number) :
  (length history < 3)%nat ->
  predictTrustScoreTrend now history daysToPredict
  = match last history with
    | Some h => score h
    | None => ofZ 500
    end.
Proof.
  intros Hlen. unfold predictTrustScoreTrend.
  destruct history as [|h1 [|h2 [|h3 rest]]]; simpl in *; try reflexivity; lia.
Qed.

Lemma clamp_ofZ (z : Z) : (0 <= z <= 1000)%Z -> clamp (ofZ z) = ofZ z.
Proof.
  intros [Hlo Hhi]. unfold clamp.
  rewrite Math_max_zero_ofZ by done. by apply Math_min_ofZ.
Qed.

(** A blend of a score with itself is that score, for any finite weight. *)
Lemma blend_same (s : Z) (q : Q) :
  Math_round (add (mul (ofZ s) (sub one (Fin q))) (mul (ofZ s) (Fin q))) = ofZ s.
Proof.
  unfold sub, one, ofZ, neg, add, mul, fin.
  apply Math_round_integer.
  rewrite !Qred_correct. ring.
Qed.

(** C8: blending a trust score (an integer of [[0,1000]]) towards identical
    evidence returns it unchanged, whatever the weight: absent (default
    0.1), inside or outside [[0,1]], or infinite. *)
Theorem updateTrustScore_same_evidence (s : Z) (w : option number) :
  (0 <= s <= 1000)%Z ->
  w <> Some NaN ->
  updateTrustScore (ofZ s) (ofZ s) w = ofZ s.
Proof.
  intros Hs Hw. unfold updateTrustScore.
  destruct (unit_clamp_finite (w ?? Fin (1 # 10))) as [q Hq].
  { destruct w as [w|]; simpl; congruence. }
  cbv zeta. rewrite Hq, blend_same. by apply clamp_ofZ.
Qed.

Lemma updateTrustScore_same_evidence_witness :
  updateTrustScore (ofZ 700) (ofZ 700) (Some (Fin (1 # 3))) = ofZ 700.
Proof.
  apply (updateTrustScore_same_evidence 700 (Some (Fin (1 # 3)))); [lia | discriminate].
Defined.

Lemma predictTrustScoreTrend_short_history_witness :
  predictTrustScoreTrend (ofZ 1700000000000)
    [ {| timestamp := ofZ 1; score := ofZ 400 |};
      {| timestamp := ofZ 2; score := ofZ 650 |} ] None
  = ofZ 650.
Proof.
  apply (predictTrustScoreTrend_short_history (ofZ 1700000000000)
    [ {| timestamp := ofZ 1; score := ofZ 400 |};
      {| timestamp := ofZ 2; score := ofZ 650 |} ] None).
  simpl. lia.
Defined.

End TrustScorerProps.

(* ===================================================================== *)
(** * Properties of the Cross-Validator Service                            *)
(* ===================================================================== *)

Module CrossValidatorProps.
Import JS JSFacts CrossValidator Examples.

(** Case analysis on a membership in a list given by its elements. *)
Ltac elem_cases H :=
  repeat (apply elem_of_cons in H as [->|H]); [..|by apply elem_of_nil in H].

(** ** Aggregation *)

(** C2: when fewer validations arrive than the configuration asks for, the
    promise is resolved (not rejected) with the insufficient result:
    not valid, ratio 0 and both weighted sums 0, whatever the validations
    say. *)
Theorem aggregateValidations_insufficient
    (dataId : string) (validations : list Validation.t)
    (config : ConsensusConfig.partial) (now : number) :
  ltb (ofNat (length validations))
      (ConsensusConfig.minValidations (mergeConfig config)) = true ->
  aggregateValidations dataId validations config now
  = Resolved
      {| ValidationResult.dataId := dataId;
         ValidationResult.isValid := false;
         ValidationResult.weightedPositive := zero;
         ValidationResult.weightedNegative := zero;
         ValidationResult.consensusRatio := zero;
         ValidationResult.validations := validations;
         ValidationResult.timestamp := now |}.
Proof. intros Hlt. unfold aggregateValidations. cbv zeta. by rewrite Hlt. Qed.

Lemma aggregateValidations_insufficient_witness :
  aggregateValidations "claim-1" [vote "A" true 900; vote "B" true 800]
    ConsensusConfig.empty (ofZ 1700000000000)
  = Resolved
      {| ValidationResult.dataId := "claim-1";
         ValidationResult.isValid := false;
         ValidationResult.weightedPositive := zero;
         ValidationResult.weightedNegative := zero;
         ValidationResult.consensusRatio := zero;
         ValidationResult.validations := [vote "A" true 900; vote "B" true 800];
         ValidationResult.timestamp := ofZ 1700000000000 |}.
Proof.
  apply (aggregateValidations_insufficient "claim-1"
           [vote "A" true 900; vote "B" true 800] ConsensusConfig.empty
           (ofZ 1700000000000)).
  reflexivity.
Defined.

(** Two turns of the weighting loop commute. *)
Lemma weigh_swap (acc : number * number) (v1 v2 : Validation.t) :
  weigh (weigh acc v1) v2 = weigh (weigh acc v2) v1.
Proof.
  destruct acc as [p n]. unfold weigh.
  destruct (Validation.result v1), (Validation.result v2); try reflexivity.
  - f_equal. rewrite !add_assoc. f_equal. apply add_comm.
  - f_equal. rewrite !add_assoc. f_equal. apply add_comm.
Qed.

Lemma fold_weigh_Permutation (l l' : list Validation.t) :
  Permutation l l' -> forall acc, fold_left weigh l acc = fold_left weigh l' acc.
Proof.
  induction 1 as [|x l l' _ IH|x y l|l l' l'' _ IH1 _ IH2]; intros acc; simpl.
  - reflexivity.
  - apply IH.
  - by rewrite weigh_swap.
  - by rewrite IH1.
Qed.

(** On integral trust scores of [[0,1000]] the weighted sums are integers
    bounded by 1000 per validation: no rounding is involved, and the exact
    sums are the ones binary64 arithmetic computes. *)
Lemma fold_weigh_integral (l : list Validation.t) :
  Forall (fun v => exists t, Validation.trustScore v = ofZ t /\ (0 <= t <= 1000)%Z) l ->
  forall p n,
  exists p' n',
    fold_left weigh l (ofZ p, ofZ n) = (ofZ p', ofZ n')
    /\ (p <= p' <= p + 1000 * Z.of_nat (length l))%Z
    /\ (n <= n' <= n + 1000 * Z.of_nat (length l))%Z.
Proof.
  induction 1 as [|v l (t & Ht & Hrange) _ IH]; intros p n; cbn [fold_left].
  - exists p, n. simpl. split; [done|]. lia.
  - unfold weigh at 2. rewrite Ht.
    destruct (Validation.result v); rewrite add_ofZ.
    + destruct (IH (p + t)%Z n) as (p' & n' & -> & Hp & Hn).
      exists p', n'. split; [done|]. cbn [length]. lia.
    + destruct (IH p (n + t)%Z) as (p' & n' & -> & Hp & Hn).
      exists p', n'. split; [done|]. cbn [length]. lia.
Qed.

(** C3: on validations that carry trust scores (integers of [[0,1000]]),
    reordering the validations changes neither weighted sum, nor the
    consensus ratio, nor the verdict; both sums are integers of at most
    1000 per validation, so that no sum is rounded. *)
Theorem aggregateValidations_Permutation
    (dataId : string) (validations validations' : list Validation.t)
    (config : ConsensusConfig.partial) (now : number) :
  Forall (fun v => isTrustScore (Validation.trustScore v)) validations ->
  Permutation validations validations' ->
  exists r r',
    aggregateValidations dataId validations config now = Resolved r /\
    aggregateValidations dataId validations' config now = Resolved r' /\
    ValidationResult.weightedPositive r = ValidationResult.weightedPositive r' /\
    ValidationResult.weightedNegative r = ValidationResult.weightedNegative r' /\
    ValidationResult.consensusRatio r = ValidationResult.consensusRatio r' /\
    ValidationResult.isValid r = ValidationResult.isValid r' /\
    exists p n : Z,
      ValidationResult.weightedPositive r = ofZ p /\
      ValidationResult.weightedNegative r = ofZ n /\
      (0 <= p <= 1000 * Z.of_nat (length validations))%Z /\
      (0 <= n <= 1000 * Z.of_nat (length validations))%Z.
Proof.
  intros Hall Hperm. unfold aggregateValidations. cbv zeta.
  rewrite <- (Permutation_length Hperm).
  destruct (ltb _ _).
  - eexists _, _. repeat split. exists 0%Z, 0%Z. repeat split; lia.
  - rewrite <- (fold_weigh_Permutation _ _ Hperm).
    destruct (fold_weigh_integral validations Hall 0 0) as (p & n & Hfold & Hp & Hn).
    change (ofZ 0, ofZ 0) with (zero, zero) in Hfold. rewrite Hfold.
    eexists _, _. repeat split. exists p, n. repeat split; lia.
Qed.

Lemma aggregateValidations_Permutation_witness :
  exists r r',
    aggregateValidations "claim-1"
      [vote "A" true 900; vote "B" false 100; vote "C" false 100]
      ConsensusConfig.empty (ofZ 1700000000000) = Resolved r /\
    aggregateValidations "claim-1"
      [vote "C" false 100; vote "A" true 900; vote "B" false 100]
      ConsensusConfig.empty (ofZ 1700000000000) = Resolved r' /\
    ValidationResult.weightedPositive r = ValidationResult.weightedPositive r' /\
    ValidationResult.weightedNegative r = ValidationResult.weightedNegative r' /\
    ValidationResult.consensusRatio r = ValidationResult.consensusRatio r' /\
    ValidationResult.isValid r = ValidationResult.isValid r' /\
    exists p n : Z,
      ValidationResult.weightedPositive r = ofZ p /\
      ValidationResult.weightedNegative r = ofZ n /\
      (0 <= p <= 1000 * Z.of_nat 3)%Z /\
      (0 <= n <= 1000 * Z.of_nat 3)%Z.
Proof.
  apply (aggregateValidations_Permutation "claim-1"
           [vote "A" true 900; vote "B" false 100; vote "C" false 100]
           [vote "C" false 100; vote "A" true 900; vote "B" false 100]
           ConsensusConfig.empty (ofZ 1700000000000)).
  - repeat (apply List.Forall_cons; [eexists; split; [reflexivity|lia]|]).
    apply List.Forall_nil.
  - symmetry.
    apply (Permutation_cons_append [vote "A" true 900; vote "B" false 100]
             (vote "C" false 100)).
Defined.

(** C3, as stated for every list of validations, fails on the runtime's
    numbers: the sums are accumulated in arrival order and binary64
    addition is not associative.  With the fractional trust scores 0.1, 0.2
    and 0.3 for and 0.3 against, the two orders of arrival give different
    weighted sums and different ratios, and at a two-thirds threshold the
    one is rejected and the other accepted.  With the integral weights
    2^53, 1 and 1 the two orders give different sums as well. *)
Lemma aggregateValidations_order_dependent :
  (Permutation Binary64.fractionalVotes Binary64.fractionalVotesReversed /\
   exists r r',
     Binary64.aggregateValidations "claim-1" Binary64.fractionalVotes
       Binary64.twoThirds PrimFloat.zero = Resolved r /\
     Binary64.aggregateValidations "claim-1" Binary64.fractionalVotesReversed
       Binary64.twoThirds PrimFloat.zero = Resolved r' /\
     PrimFloat.eqb (Binary64.ValidationResult.weightedPositive r)
                   (Binary64.ValidationResult.weightedPositive r') = false /\
     PrimFloat.eqb (Binary64.ValidationResult.consensusRatio r)
                   (Binary64.ValidationResult.consensusRatio r') = false /\
     Binary64.ValidationResult.isValid r = false /\
     Binary64.ValidationResult.isValid r' = true) /\
  (Permutation Binary64.largeVotes Binary64.largeVotesReversed /\
   exists r r',
     Binary64.aggregateValidations "claim-2" Binary64.largeVotes
       Binary64.ConsensusConfig.empty PrimFloat.zero = Resolved r /\
     Binary64.aggregateValidations "claim-2" Binary64.largeVotesReversed
       Binary64.ConsensusConfig.empty PrimFloat.zero = Resolved r' /\
     PrimFloat.eqb (Binary64.ValidationResult.weightedPositive r)
                   (Binary64.ValidationResult.weightedPositive r') = false).
Proof.
  split; split.
  - unfold Binary64.fractionalVotes, Binary64.fractionalVotesReversed.
    apply Permutation_rev.
  - eexists _, _. split; [by vm_compute|]. split; [by vm_compute|].
    repeat split; by vm_compute.
  - unfold Binary64.largeVotes, Binary64.largeVotesReversed.
    apply Permutation_rev.
  - eexists _, _. split; [by vm_compute|]. split; by vm_compute.
Qed.

(** The weighted sums of non-negative trust scores are finite and
    non-negative. *)
Lemma fold_weigh_nonNegative (l : list Validation.t) :
  Forall (fun v => nonNegative (Validation.trustScore v)) l ->
  forall p n, (0 <= p)%Q -> (0 <= n)%Q ->
  exists p' n', fold_left weigh l (Fin p, Fin n) = (Fin p', Fin n')
                /\ (0 <= p')%Q /\ (0 <= n')%Q.
Proof.
  induction 1 as [|v l Hv _ IH]; intros p n Hp Hn; simpl.
  - eauto.
  - destruct (Validation.trustScore v) as [t| | |]; try done. simpl in Hv.
    destruct (Validation.result v); simpl; unfold fin.
    + apply IH; [|done]. rewrite Qred_correct. lra.
    + apply IH; [done|]. rewrite Qred_correct. lra.
Qed.

Lemma inScoreRange_nonNegative (l : list Validation.t) :
  Forall (fun v => inScoreRange (Validation.trustScore v)) l ->
  Forall (fun v => nonNegative (Validation.trustScore v)) l.
Proof.
  intros H. eapply Forall_impl; [exact H|].
  intros v Hv. cbv beta in *.
  destruct (Validation.trustScore v); simpl in *; [lra|done..].
Qed.

(** The ratio of a non-negative part to a non-negative whole. *)
Lemma ratio_range (p n : Q) :
  (0 <= p)%Q -> (0 <= n)%Q ->
  let total := add (Fin p) (Fin n) in
  let ratio := if gtb total zero then div (Fin p) total else zero in
  leb zero ratio = true /\ leb ratio one = true.
Proof.
  intros Hp Hn. cbv zeta. simpl add. unfold fin.
  destruct (gtb (Fin (Qred (p + n))) zero) eqn:E; [|done].
  apply ltb_Fin in E. rewrite Qred_correct in E. change (inject_Z 0) with 0%Q in E.
  unfold div. destruct (Qeq_bool (Qred (p + n)) 0) eqn:E0.
  { apply Qeq_bool_eq in E0. rewrite Qred_correct in E0. lra. }
  unfold fin, zero, one, ofZ.
  split; apply leb_Fin; rewrite !Qred_correct.
  - change (inject_Z 0) with 0%Q. apply Qle_shift_div_l; lra.
  - change (inject_Z 1) with 1%Q. apply Qle_shift_div_r; lra.
Qed.

(** C4: for validations whose trust scores lie between 0 and 1000 the
    consensus ratio of the result is weightedPositive over the total
    weight, 0 when the total is not positive, in particular when both sums
    are 0, and it lies in [[0,1]]. *)
Theorem aggregateValidations_ratio
    (dataId : string) (validations : list Validation.t)
    (config : ConsensusConfig.partial) (now : number) :
  Forall (fun v => inScoreRange (Validation.trustScore v)) validations ->
  exists r,
    aggregateValidations dataId validations config now = Resolved r /\
    let weightedFor := ValidationResult.weightedPositive r in
    let weightedAgainst := ValidationResult.weightedNegative r in
    let ratio := ValidationResult.consensusRatio r in
    ratio = (if gtb (add weightedFor weightedAgainst) zero
             then div weightedFor (add weightedFor weightedAgainst)
             else zero) /\
    (weightedFor = zero -> weightedAgainst = zero -> ratio = zero) /\
    leb zero ratio = true /\ leb ratio one = true.
Proof.
  intros Hall. apply inScoreRange_nonNegative in Hall.
  unfold aggregateValidations. cbv zeta.
  destruct (ltb _ _).
  - eexists. split; [reflexivity|]. simpl. done.
  - destruct (fold_weigh_nonNegative _ Hall 0 0) as (p & n & Hfold & Hp & Hn);
      [lra | lra |].
    change (Fin 0) with zero in Hfold. rewrite Hfold.
    eexists. split; [reflexivity|]. cbn [ValidationResult.weightedPositive
      ValidationResult.weightedNegative ValidationResult.consensusRatio].
    split; [reflexivity|]. split.
    + intros Hp0 Hn0. rewrite Hp0, Hn0. reflexivity.
    + by apply ratio_range.
Qed.

Lemma aggregateValidations_ratio_witness :
  exists r,
    aggregateValidations "claim-1"
      [vote "A" true 900; vote "B" false 100; vote "C" false 100]
      ConsensusConfig.empty (ofZ 1700000000000) = Resolved r /\
    let weightedFor := ValidationResult.weightedPositive r in
    let weightedAgainst := ValidationResult.weightedNegative r in
    let ratio := ValidationResult.consensusRatio r in
    ratio = (if gtb (add weightedFor weightedAgainst) zero
             then div weightedFor (add weightedFor weightedAgainst)
             else zero) /\
    (weightedFor = zero -> weightedAgainst = zero -> ratio = zero) /\
    leb zero ratio = true /\ leb ratio one = true.
Proof.
  apply (aggregateValidations_ratio "claim-1"
           [vote "A" true 900; vote "B" false 100; vote "C" false 100]
           ConsensusConfig.empty (ofZ 1700000000000)).
  repeat (apply List.Forall_cons; [by vm_compute|]). apply List.Forall_nil.
Defined.

(** C4, as stated for every list of validations, fails outside that range.
    A negative trust score for, outweighed by the scores against, gives the
    ratio -1; and on the runtime's numbers two weights of 2^1023 add up to
    [Infinity], whose ratio to itself is [NaN]. *)
Lemma aggregateValidations_ratio_escapes :
  (exists r,
     aggregateValidations "claim-1"
       [vote "A" true (-100); vote "B" false 100; vote "C" false 100]
       ConsensusConfig.empty (ofZ 1700000000000) = Resolved r /\
     ValidationResult.consensusRatio r = ofZ (-1) /\
     leb zero (ValidationResult.consensusRatio r) = false) /\
  (exists r,
     Binary64.aggregateValidations "claim-1" Binary64.hugeVotes
       Binary64.ConsensusConfig.empty PrimFloat.zero = Resolved r /\
     PrimFloat.is_nan (Binary64.ValidationResult.consensusRatio r) = true /\
     PrimFloat.leb PrimFloat.zero (Binary64.ValidationResult.consensusRatio r) = false).
Proof.
  split; eexists; (split; [by vm_compute|]); split; by vm_compute.
Qed.

(** ** Correlation of a vote sequence with itself *)

Lemma accumulate_same (l : list number) (m x b : Q) (i : nat) :
  index l i = Fin b ->
  exists x',
    accumulate l l (Fin m) (Fin m) (Fin x, Fin x, Fin x) i = (Fin x', Fin x', Fin x')
    /\ (x' == x + (b - m) * (b - m))%Q.
Proof.
  intros Hb. unfold accumulate. rewrite Hb.
  unfold sub, neg, add, mul, fin.
  eexists. split; [reflexivity|].
  rewrite !Qred_correct. ring.
Qed.

Lemma correlation_loop_same (l : list number) (m : Q) (indices : list nat) :
  (forall i, i ∈ indices -> exists b, index l i = Fin b) ->
  forall x, (0 <= x)%Q ->
  exists x',
    fold_left (accumulate l l (Fin m) (Fin m)) indices (Fin x, Fin x, Fin x)
    = (Fin x', Fin x', Fin x')
    /\ (x <= x')%Q
    /\ ((exists i b, i ∈ indices /\ index l i = Fin b /\ ~ (b == m)%Q) -> (x < x')%Q).
Proof.
  induction indices as [|i indices IH]; intros Hfin x Hx; cbn [fold_left].
  - exists x. split; [done|]. split; [lra|].
    intros (i & b & Hi & _). by apply elem_of_nil in Hi.
  - destruct (Hfin i) as [b Hb]; [by left|].
    destruct (accumulate_same l m x b i Hb) as (x1 & -> & Hx1).
    pose proof (sq_nonneg (b - m)) as Hsq.
    destruct (IH (fun j Hj => Hfin j (list_elem_of_further _ _ _ Hj)) x1)
      as (x' & -> & Hle & Hlt); [lra|].
    exists x'. split; [done|]. split; [lra|].
    intros (j & c & Hj & Hc & Hne).
    apply elem_of_cons in Hj as [->|Hj].
    + rewrite Hb in Hc. injection Hc as <-.
      assert ((0 < (b - m) * (b - m))%Q); [|lra].
      destruct (Qlt_le_dec 0 ((b - m) * (b - m))) as [|Hz]; [done|].
      exfalso. apply Hne. apply sq_zero in Hz. lra.
    + assert (x1 < x')%Q; [|lra]. apply Hlt. eauto.
Qed.

Lemma sum_bits_finite (p : list bool) :
  forall q, exists q', fold_left add (map boolToNumber p) (Fin q) = Fin q'.
Proof.
  induction p as [|b p IH]; intros q; simpl; [eauto|].
  destruct b; apply IH.
Qed.

Lemma index_bits (p : list bool) (i : nat) (b : bool) :
  p !! i = Some b -> index (map boolToNumber p) i = boolToNumber b.
Proof. intros H. unfold index. by rewrite list_lookup_fmap, H. Qed.

(** A sequence holding both votes, compared with itself, correlates
    perfectly. *)
Lemma calculateCorrelation_same (p : list bool) :
  true ∈ p -> false ∈ p -> calculateCorrelation p p = one.
Proof.
  intros Ht Hf. unfold calculateCorrelation. cbv zeta.
  set (l := map boolToNumber p).
  destruct (sum_bits_finite p 0) as [k Hk].
  assert (Hsum : sum l = Fin k) by exact Hk. rewrite Hsum.
  assert (Hpos : (0 < length l)%nat).
  { subst l. rewrite length_map. destruct p; [by apply elem_of_nil in Ht|simpl; lia]. }
  assert (Hmean : exists m, div (Fin k) (ofNat (length l)) = Fin m).
  { unfold div, ofNat, ofZ.
    destruct (Qeq_bool (inject_Z (Z.of_nat (length l))) 0) eqn:E; [|by eexists].
    apply Qeq_bool_eq in E. unfold Qeq in E. simpl in E. lia. }
  destruct Hmean as [m ->].
  destruct (correlation_loop_same l m (seq 0 (length l))) with (x := 0%Q)
    as (d & Hloop & _ & Hd); [|lra|].
  { intros i Hi. apply elem_of_seq in Hi.
    destruct (lookup_lt_is_Some_2 p i) as [b Hb].
    { subst l. rewrite length_map in Hi. lia. }
    subst l. rewrite (index_bits _ _ _ Hb). destruct b; by eexists. }
  change (Fin 0) with zero in Hloop. rewrite Hloop.
  assert (Hdpos : (0 < d)%Q).
  { apply Hd.
    apply list_elem_of_lookup in Ht as [i Hi], Hf as [j Hj].
    destruct (Qeq_dec m 1) as [Hm|Hm].
    - exists j, 0%Q. split; [|split].
      + apply elem_of_seq. apply lookup_lt_Some in Hj. subst l.
        rewrite length_map. lia.
      + subst l. by rewrite (index_bits _ _ _ Hj).
      + rewrite Hm. discriminate.
    - exists i, 1%Q. split; [|split].
      + apply elem_of_seq. apply lookup_lt_Some in Hi. subst l.
        rewrite length_map. lia.
      + subst l. by rewrite (index_bits _ _ _ Hi).
      + intros H. apply Hm. by symmetry. }
  rewrite Math_sqrt_square by lra.
  unfold fin, gtb.
  assert (Hgt : ltb zero (Fin (Qred d)) = true).
  { apply ltb_Fin. rewrite Qred_correct. by change (inject_Z 0) with 0%Q. }
  rewrite Hgt. unfold div.
  destruct (Qeq_bool (Qred d) 0) eqn:E.
  { apply Qeq_bool_eq in E. rewrite Qred_correct in E. lra. }
  unfold one. rewrite <- (fin_inject_Z 1). apply fin_eq.
  rewrite Qred_correct. change (inject_Z 1) with 1%Q. field. lra.
Qed.

(** ** What the detector records *)

Lemma tracks_ext (ids : list string) (s : Behaviour) (f g : string -> list bool) :
  (forall id, f id = g id) -> tracks ids s f -> tracks ids s g.
Proof. intros Hfg Hf id Hid. rewrite <- Hfg. by apply Hf. Qed.

Lemma initBehaviour_fold (l : list string) :
  forall (s : Behaviour) (id : string),
    id ∈ l \/ (patterns s !! id = Some [] /\ validationCounts s !! id = Some 0%nat) ->
    let s' :=
      fold_left
        (fun s validatorId =>
           {| patterns := <[validatorId := []]> (patterns s);
              validationCounts := <[validatorId := 0%nat]> (validationCounts s) |})
        l s in
    patterns s' !! id = Some [] /\ validationCounts s' !! id = Some 0%nat.
Proof.
  induction l as [|x l IH]; intros s id H; cbn [fold_left].
  - destruct H as [H|H]; [by apply elem_of_nil in H | done].
  - apply IH. destruct (decide (id = x)) as [->|Hne].
    + right. simpl. by rewrite !lookup_insert_eq.
    + destruct H as [H|H].
      * apply elem_of_cons in H as [H|H]; [done | by left].
      * right. simpl. by rewrite !lookup_insert_ne.
Qed.

Lemma initBehaviour_tracks (ids : list string) :
  tracks ids (initBehaviour ids) (fun _ => []).
Proof. intros id Hid. apply initBehaviour_fold. by left. Qed.

Lemma votesIn_cons (v : Validation.t) (vs : list Validation.t) (id : string) :
  votesIn (v :: vs) id
  = (if decide (Validation.validator v = id) then [Validation.result v] else [])
      ++ votesIn vs id.
Proof. unfold votesIn. rewrite filter_cons. by case_decide. Qed.

Lemma recordVote_tracks (ids : list string) (s : Behaviour)
    (f : string -> list bool) (v : Validation.t) :
  tracks ids s f ->
  tracks ids (recordVote ids s v)
    (fun id => f id ++ (if decide (Validation.validator v = id)
                        then [Validation.result v] else [])).
Proof.
  intros Hf id Hid. destruct (Hf id Hid) as [Hp Hc].
  unfold recordVote. case_bool_decide as Hin; cbn [patterns validationCounts].
  - rewrite !lookup_alter. case_decide as Heq.
    + subst id. rewrite Hp, Hc. simpl. rewrite length_app. simpl.
      split; [done|]. f_equal. lia.
    + by rewrite app_nil_r.
  - case_decide as Heq; [congruence|]. by rewrite app_nil_r.
Qed.

Lemma recordVotes_tracks (ids : list string) (vs : list Validation.t) :
  forall (s : Behaviour) (f : string -> list bool),
    tracks ids s f ->
    tracks ids (fold_left (recordVote ids) vs s) (fun id => f id ++ votesIn vs id).
Proof.
  induction vs as [|v vs IH]; intros s f Hf; cbn [fold_left].
  - apply (tracks_ext ids s f); [|done]. intros id. by rewrite app_nil_r.
  - eapply tracks_ext; [|apply IH, recordVote_tracks, Hf].
    intros id. cbn beta. by rewrite votesIn_cons, app_assoc.
Qed.

Lemma collectBehaviour_tracks (ids : list string) (history : list ValidationResult.t) :
  forall (s : Behaviour) (f : string -> list bool),
    tracks ids s f ->
    tracks ids (collectBehaviour ids history s) (fun id => f id ++ votesOf history id).
Proof.
  unfold collectBehaviour.
  induction history as [|r history IH]; intros s f Hf; cbn [fold_left].
  - apply (tracks_ext ids s f); [|done]. intros id. by rewrite app_nil_r.
  - eapply tracks_ext; [|apply IH, recordVotes_tracks, Hf].
    intros id. cbn beta. unfold votesOf. by rewrite fmap_cons, concat_cons, app_assoc.
Qed.

(** After the scan, every candidate's pattern is the sequence of the votes
    it cast, in history order, and its count is their number. *)
Lemma collected_votesOf (ids : list string) (history : list ValidationResult.t)
    (id : string) :
  id ∈ ids ->
  let s := collectBehaviour ids history (initBehaviour ids) in
  patterns s !!! id = votesOf history id /\
  validationCounts s !!! id = length (votesOf history id).
Proof.
  intros Hid.
  destruct (collectBehaviour_tracks ids history _ _ (initBehaviour_tracks ids) id Hid)
    as [Hp Hc].
  split; by apply lookup_total_correct.
Qed.

(** ** The pair loops *)

Lemma pushNew_here (x : string) (l : list string) : x ∈ pushNew x l.
Proof. unfold pushNew. case_bool_decide; [done|]. apply elem_of_app. right. by left. Qed.

Lemma pushNew_keeps (x y : string) (l : list string) : y ∈ l -> y ∈ pushNew x l.
Proof. intros H. unfold pushNew. case_bool_decide; [done|]. apply elem_of_app. by left. Qed.

Lemma pairsOf_members (ids : list string) (a b : string) :
  (a, b) ∈ pairsOf ids -> a ∈ ids /\ b ∈ ids.
Proof.
  induction ids as [|x ids IH]; simpl; intros H.
  - by apply elem_of_nil in H.
  - apply elem_of_app in H as [H|H].
    + apply list_elem_of_fmap in H as (y & [= -> ->] & Hy).
      split; [by left | by right].
    + destruct (IH H). split; by right.
Qed.

Lemma pairsOf_distinct (ids : list string) (a b : string) :
  a ∈ ids -> b ∈ ids -> a <> b -> (a, b) ∈ pairsOf ids \/ (b, a) ∈ pairsOf ids.
Proof.
  induction ids as [|x ids IH]; intros Ha Hb Hne.
  - by apply elem_of_nil in Ha.
  - simpl. apply elem_of_cons in Ha as [->|Ha], Hb as [->|Hb].
    + done.
    + left. apply elem_of_app. left. apply list_elem_of_fmap. eauto.
    + right. apply elem_of_app. left. apply list_elem_of_fmap. eauto.
    + destruct (IH Ha Hb Hne); [left|right]; apply elem_of_app; by right.
Qed.

Lemma fold_left_ext_elem {A B : Type} (f g : A -> B -> A) (l : list B) :
  (forall x, x ∈ l -> forall a, f a x = g a x) ->
  forall a, fold_left f l a = fold_left g l a.
Proof.
  induction l as [|x l IH]; intros H a; simpl; [done|].
  rewrite (H x) by by left. apply IH. intros y Hy. apply H. by right.
Qed.

Lemma checkPairs_pairsOf (s : Behaviour) (ids : list string) :
  forall st,
    checkPairs s ids st
    = fold_left (fun st pair => checkPair s pair.1 st pair.2) (pairsOf ids) st.
Proof.
  induction ids as [|a ids IH]; intros st; simpl; [done|].
  rewrite fold_left_app, IH. f_equal.
  generalize st. clear. induction ids as [|b ids IH]; intros st; simpl; [done|].
  apply IH.
Qed.

(** On candidates, the loop body only depends on the votes cast. *)
Lemma checkPair_votesOf (ids : list string) (history : list ValidationResult.t)
    (a b : string) (st : list string * number) :
  a ∈ ids -> b ∈ ids ->
  checkPair (collectBehaviour ids history (initBehaviour ids)) a st b
  = checkPairOf history st (a, b).
Proof.
  intros Ha Hb. unfold checkPair, checkPairOf, correlationOf.
  destruct (collected_votesOf ids history a Ha) as [-> ->].
  destruct (collected_votesOf ids history b Hb) as [-> ->].
  by destruct st.
Qed.

Lemma checkPairs_votesOf (ids : list string) (history : list ValidationResult.t)
    (st : list string * number) :
  checkPairs (collectBehaviour ids history (initBehaviour ids)) ids st
  = fold_left (checkPairOf history) (pairsOf ids) st.
Proof.
  rewrite checkPairs_pairsOf. apply fold_left_ext_elem.
  intros [a b] Hab st'. apply pairsOf_members in Hab as [Ha Hb].
  by apply checkPair_votesOf.
Qed.

(** One turn of the loop: either the state is kept and the pair is not
    suspicious, or the pair is suspicious and recorded. *)
Lemma checkPairOf_cases (history : list ValidationResult.t)
    (st : list string * number) (a b : string) :
  (checkPairOf history st (a, b) = st /\ ~ suspicious history a b) \/
  (checkPairOf history st (a, b)
   = (pushNew b (pushNew a st.1), Math_max st.2 (correlationOf history a b))
   /\ suspicious history a b).
Proof.
  unfold checkPairOf, suspicious. cbn [fst snd].
  destruct (Nat.ltb_spec (Nat.min (length (votesOf history a))
                                   (length (votesOf history b))) 5) as [Hlt|Hge].
  - left. split; [done|]. intros (? & ? & _). lia.
  - destruct (gtb _ _) eqn:E.
    + right. split; [done|]. repeat split; [lia | lia].
    + left. split; [done|]. intros (_ & _ & ?). congruence.
Qed.

Lemma scan_pairs (history : list ValidationResult.t) (ps : list (string * string)) :
  forall st, st.2 <> NaN ->
  let st' := fold_left (checkPairOf history) ps st in
  st'.2 <> NaN /\
  leb st.2 st'.2 = true /\
  (forall x, x ∈ st.1 -> x ∈ st'.1) /\
  (forall a b, (a, b) ∈ ps -> suspicious history a b ->
     a ∈ st'.1 /\ b ∈ st'.1 /\ leb (correlationOf history a b) st'.2 = true) /\
  (st'.2 = st.2 \/
   exists a b, (a, b) ∈ ps /\ suspicious history a b
               /\ st'.2 = correlationOf history a b).
Proof.
  induction ps as [|[a b] ps IH]; intros st Hst; cbn [fold_left].
  - cbv zeta. split; [done|]. split; [by apply leb_refl|]. split; [done|].
    split; [|by left]. intros a b H. by apply elem_of_nil in H.
  - destruct (checkPairOf_cases history st a b) as [[-> Hno]|[-> Hyes]].
    + destruct (IH st Hst) as (H1 & H2 & H3 & H4 & H5). cbv zeta.
      split; [done|]. split; [done|]. split; [done|]. split.
      * intros a' b' Hin Hsus. apply elem_of_cons in Hin as [[= -> ->]|Hin]; [done|].
        by apply H4.
      * destruct H5 as [H5|(a' & b' & Hin & Hsus & H5)]; [by left|].
        right. exists a', b'. split; [by right|done].
    + pose proof Hyes as (_ & _ & Hgt). apply gtb_not_NaN in Hgt.
      destruct (Math_max_spec st.2 (correlationOf history a b) Hst Hgt)
        as (Hmax & Hle1 & Hle2).
      set (st1 := (pushNew b (pushNew a st.1),
                   Math_max st.2 (correlationOf history a b))) in *.
      assert (Hst1 : st1.2 <> NaN).
      { subst st1. cbn [snd]. destruct Hmax as [-> | ->]; done. }
      destruct (IH st1 Hst1) as (H1 & H2 & H3 & H4 & H5). cbv zeta.
      split; [done|]. split; [by eapply leb_trans|]. split.
      { intros x Hx. apply H3. subst st1. cbn [fst].
        by apply pushNew_keeps, pushNew_keeps. }
      split.
      * intros a' b' Hin Hsus. apply elem_of_cons in Hin as [[= -> ->]|Hin].
        -- split; [|split].
           ++ apply H3. subst st1. cbn [fst]. apply pushNew_keeps, pushNew_here.
           ++ apply H3. subst st1. cbn [fst]. apply pushNew_here.
           ++ by eapply leb_trans.
        -- by apply H4.
      * destruct H5 as [H5|(a' & b' & Hin & Hsus & H5)].
        -- rewrite H5. subst st1. cbn [snd]. destruct Hmax as [-> | ->]; [by left|].
           right. exists a, b. split; [by left|done].
        -- right. exists a', b'. split; [by right|done].
Qed.

(** ** Collusion detection *)

Lemma sharedClaims_length (history : list ValidationResult.t) (a b : string) :
  (length (sharedClaims history a b) <= length history)%nat /\
  (length (sharedClaims history a b) <= length (votesOf history a))%nat.
Proof.
  unfold sharedClaims, votesOf.
  induction history as [|r history [IH1 IH2]]; [done|].
  rewrite filter_cons. cbn [map concat]. rewrite length_app.
  case_decide as H; cbn [length]; [|lia].
  destruct H as [Ha _].
  destruct (votesIn (ValidationResult.validations r) a); [done|]. simpl. lia.
Qed.

Lemma votesOf_ext (history : list ValidationResult.t) (a b : string) :
  (forall r, r ∈ history ->
     votesIn (ValidationResult.validations r) a
     = votesIn (ValidationResult.validations r) b) ->
  votesOf history a = votesOf history b.
Proof.
  unfold votesOf. induction history as [|r history IH]; intros H; [done|].
  cbn [map concat]. f_equal.
  - apply H. by left.
  - apply IH. intros r' Hr'. apply H. by right.
Qed.

Lemma pairsOf_length (ids : list string) (p : string * string) :
  p ∈ pairsOf ids -> (2 <= length ids)%nat.
Proof.
  destruct ids as [|x [|y ids]]; simpl; intros H; [| |lia];
    by apply elem_of_nil in H.
Qed.

(** What a full run reports, in terms of the flagged pairs. *)
Lemma detectCollusion_flagged (history : list ValidationResult.t) (ids : list string) :
  (5 <= length history)%nat ->
  let report := detectCollusion history ids in
  (forall a b, flagged history ids a b ->
     a ∈ suspects report /\ b ∈ suspects report /\
     leb (correlationOf history a b) (probability report) = true) /\
  (probability report = zero \/
   exists a b, flagged history ids a b
               /\ probability report = correlationOf history a b).
Proof.
  intros Hhist. unfold detectCollusion.
  destruct (Nat.ltb_spec (length history) 5) as [|_]; [lia|].
  destruct (Nat.ltb_spec (length ids) 2) as [Hids|_]; cbn [orb].
  - cbv zeta. cbn [suspects probability]. split; [|by left].
    intros a b [Hin _]. apply pairsOf_length in Hin. lia.
  - rewrite checkPairs_votesOf.
    pose proof (scan_pairs history (pairsOf ids) ([], zero)) as Hscan.
    destruct (fold_left (checkPairOf history) (pairsOf ids) ([], zero))
      as [sus mx].
    destruct Hscan as (_ & _ & _ & H4 & H5); [done|].
    cbv zeta. cbn [suspects probability fst snd] in *. split.
    + intros a b [Hin Hsus]. by apply H4.
    + destruct H5 as [H5|(a & b & Hin & Hsus & H5)]; [by left|].
      right. by exists a, b.
Qed.

(** C5 (as the code behaves): two distinct candidates that cast the same
    votes in every past result, on at least 5 shared claims and not always
    the same way, correlate at exactly 1; both are suspects; and the
    reported probability is the largest correlation among the flagged
    pairs. *)
Theorem detectCollusion_lockstep
    (history : list ValidationResult.t) (ids : list string) (a b : string) :
  a ∈ ids -> b ∈ ids -> a <> b ->
  (forall r, r ∈ history ->
     votesIn (ValidationResult.validations r) a
     = votesIn (ValidationResult.validations r) b) ->
  (5 <= length (sharedClaims history a b))%nat ->
  true ∈ votesOf history a -> false ∈ votesOf history a ->
  let report := detectCollusion history ids in
  correlationOf history a b = one /\
  a ∈ suspects report /\ b ∈ suspects report /\
  detected report = true /\
  (forall a' b', flagged history ids a' b' ->
     leb (correlationOf history a' b') (probability report) = true) /\
  (exists a' b', flagged history ids a' b'
                 /\ probability report = correlationOf history a' b').
Proof.
  intros Ha Hb Hne Hsame Hshared Htrue Hfalse.
  pose proof (votesOf_ext history a b Hsame) as Hvotes.
  destruct (sharedClaims_length history a b) as [Hlen Hlena].
  assert (Hcorr : correlationOf history a b = one).
  { unfold correlationOf. rewrite <- Hvotes. by apply calculateCorrelation_same. }
  assert (Hsus : suspicious history a b /\ suspicious history b a).
  { unfold suspicious, correlationOf in *. rewrite <- !Hvotes in *.
    rewrite Hcorr. repeat split; lia || done. }
  destruct Hsus as [Hab Hba].
  destruct (detectCollusion_flagged history ids) as [Hall Hmax]; [lia|].
  cbv zeta.
  assert (Hin : a ∈ suspects (detectCollusion history ids)
                /\ b ∈ suspects (detectCollusion history ids)
                /\ exists a' b', flagged history ids a' b').
  { destruct (pairsOf_distinct ids a b Ha Hb Hne) as [Hp|Hp].
    - destruct (Hall a b) as (? & ? & _); [by split|].
      split; [done|]. split; [done|]. exists a, b. by split.
    - destruct (Hall b a) as (? & ? & _); [by split|].
      split; [done|]. split; [done|]. exists b, a. by split. }
  destruct Hin as (Hina & Hinb & a0 & b0 & Hflag0).
  split; [done|]. split; [done|]. split; [done|]. split.
  { unfold detectCollusion in *. destruct (_ || _)%bool.
    - cbn [suspects] in Hina. by apply elem_of_nil in Hina.
    - destruct (checkPairs _ _ _) as [sus mx]. cbn [suspects detected] in *.
      destruct sus; [by apply elem_of_nil in Hina|done]. }
  split.
  - intros a' b' Hflag. by apply Hall.
  - destruct Hmax as [Hzero|Hex]; [|done].
    exfalso. destruct (Hall a0 b0 Hflag0) as (_ & _ & Hle).
    destruct Hflag0 as (_ & _ & _ & Hgt). rewrite Hzero in Hle.
    eapply (gtb_leb_lt _ (9 # 10) 0); [|exact Hgt|exact Hle]. lra.
Qed.

Lemma detectCollusion_lockstep_witness :
  let report := detectCollusion lockstepHistory ["A"; "B"] in
  correlationOf lockstepHistory "A" "B" = one /\
  "A" ∈ suspects report /\ "B" ∈ suspects report /\
  detected report = true /\
  (forall a' b', flagged lockstepHistory ["A"; "B"] a' b' ->
     leb (correlationOf lockstepHistory a' b') (probability report) = true) /\
  (exists a' b', flagged lockstepHistory ["A"; "B"] a' b'
                 /\ probability report = correlationOf lockstepHistory a' b').
Proof.
  apply (detectCollusion_lockstep lockstepHistory ["A"; "B"] "A" "B").
  - by left.
  - right. by left.
  - discriminate.
  - intros r Hr. unfold lockstepHistory in Hr. elem_cases Hr; reflexivity.
  - vm_compute. lia.
  - vm_compute. by left.
  - vm_compute. right. by left.
Defined.

(** C5 as stated fails on unanimous voters: "A" and "B" cast the same vote
    on each of 5 shared claims, yet the variance is zero, the correlation
    is reported as 0 and nobody is suspected. *)
Lemma detectCollusion_unanimous :
  (forall r, r ∈ unanimousHistory ->
     votesIn (ValidationResult.validations r) "A"
     = votesIn (ValidationResult.validations r) "B") /\
  length (sharedClaims unanimousHistory "A" "B") = 5%nat /\
  correlationOf unanimousHistory "A" "B" = zero /\
  correlationOf unanimousHistory "A" "B" <> one /\
  detectCollusion unanimousHistory ["A"; "B"]
  = {| detected := false; probability := zero; suspects := [] |}.
Proof.
  split.
  { intros r Hr. unfold unanimousHistory in Hr. elem_cases Hr; reflexivity. }
  split; [by vm_compute|]. split; [by vm_compute|].
  split; [by vm_compute|]. by vm_compute.
Qed.

(** C6 (the code at a failing input): "A" voted on claims c1..c5 only and
    "B" on claims c6..c10 only, so they share no claim; the detector
    counts each one's own votes, compares the two sequences position by
    position, and reports both as suspects with probability 1. *)
Theorem detectCollusion_no_shared_claim :
  sharedClaims disjointHistory "A" "B" = [] /\
  votesOf disjointHistory "A" = [true; false; true; false; true] /\
  votesOf disjointHistory "B" = [true; false; true; false; true] /\
  detectCollusion disjointHistory ["A"; "B"]
  = {| detected := true; probability := one; suspects := ["A"; "B"] |}.
Proof. repeat split; by vm_compute. Qed.

(** The recorded calls are the calls of the run: scoring them in order
    gives the state the pair loops end in. *)
Lemma checkPair_scoreCall (s : Behaviour) (a b : string)
    (st0 : list string * number) (calls : list CorrelationCall) :
  checkPair s a (fold_left scoreCall calls st0) b
  = fold_left scoreCall (comparePair s a calls b) st0.
Proof.
  unfold checkPair, comparePair.
  destruct (fold_left scoreCall calls st0) as [sus mx] eqn:E.
  destruct (_ <? 5)%nat; [done|].
  rewrite fold_left_app, E. cbn [fold_left]. unfold scoreCall.
  cbn [callerA callerB argumentA argumentB fst snd]. done.
Qed.

Lemma checkPairs_scoreCall (s : Behaviour) (ids : list string) :
  forall (st0 : list string * number) (calls : list CorrelationCall),
    checkPairs s ids (fold_left scoreCall calls st0)
    = fold_left scoreCall (comparePairs s ids calls) st0.
Proof.
  induction ids as [|a ids IH]; intros st0 calls; cbn [checkPairs comparePairs]; [done|].
  rewrite <- IH. f_equal.
  generalize calls. clear.
  induction ids as [|b ids IH]; intros calls; cbn [fold_left]; [done|].
  by rewrite checkPair_scoreCall, IH.
Qed.

(** C10 (the code at a failing input): "A" voted on six past results and
    "B" on five of them; the only call of [calculateCorrelation] receives a
    6-element and a 5-element array, its loop reads index 5 of the second
    array, which is out of range, and the [NaN] this produces makes the
    correlation 0. *)
Theorem calculateCorrelation_unequal_lengths :
  let a := [true; false; true; false; true; true] in
  let b := [true; false; true; false; true] in
  correlationCalls unevenHistory ["A"; "B"]
  = [ {| callerA := "A"; callerB := "B"; argumentA := a; argumentB := b |} ] /\
  length a <> length b /\
  5 ∈ seq 0 (length (map boolToNumber a)) /\
  map boolToNumber b !! 5%nat = None /\
  index (map boolToNumber b) 5 = NaN /\
  calculateCorrelation a b = zero /\
  detectCollusion unevenHistory ["A"; "B"]
  = {| detected := false; probability := zero; suspects := [] |}.
Proof.
  cbv zeta. split; [by vm_compute|]. split; [by vm_compute|].
  split; [apply elem_of_seq; simpl; lia|].
  repeat split; by vm_compute.
Qed.

Lemma detectCollusion_scoreCalls (history : list ValidationResult.t) (ids : list string) :
  let st := fold_left scoreCall (correlationCalls history ids) ([], zero) in
  suspects (detectCollusion history ids) = st.1 /\
  probability (detectCollusion history ids) = st.2.
Proof.
  unfold detectCollusion, correlationCalls.
  destruct (_ || _)%bool; [done|].
  rewrite <- checkPairs_scoreCall. cbn [fold_left].
  by destruct (checkPairs _ _ _).
Qed.

(** ** Consensus proof *)

Section Sorting.
Context {A : Type} (compareFn : A -> A -> Z).

(** A consistent comparator, as [Array.prototype.sort] requires. *)
Hypothesis compareFn_antisym : forall a b, Z.sgn (compareFn b a) = (- Z.sgn (compareFn a b))%Z.
Hypothesis compareFn_trans :
  forall a b c, (compareFn a b <= 0)%Z -> (compareFn b c <= 0)%Z -> (compareFn a c <= 0)%Z.

Lemma before_total (a b : A) : before compareFn a b \/ before compareFn b a.
Proof using compareFn_antisym. unfold before. pose proof (compareFn_antisym a b). lia. Qed.

Lemma insertSorted_Permutation (x : A) (l : list A) :
  Permutation (insertSorted compareFn x l) (x :: l).
Proof.
  induction l as [|y l IH]; simpl; [done|].
  destruct (compareFn x y <=? 0)%Z; [done|].
  rewrite IH. apply perm_swap.
Qed.

Lemma Array_sort_Permutation (l : list A) : Permutation (Array_sort compareFn l) l.
Proof.
  induction l as [|x l IH]; simpl; [done|].
  rewrite insertSorted_Permutation. by constructor.
Qed.

Lemma insertSorted_sorted (x : A) (l : list A) :
  StronglySorted (before compareFn) l -> StronglySorted (before compareFn) (insertSorted compareFn x l).
Proof using compareFn_antisym compareFn_trans.
  induction 1 as [|y l Hl IH Hy]; simpl.
  - repeat constructor.
  - destruct (Z.leb_spec (compareFn x y) 0) as [Hxy|Hxy].
    + constructor; [by constructor|]. constructor; [done|].
      eapply Forall_impl; [exact Hy|]. intros z Hz. by eapply compareFn_trans.
    + constructor; [done|].
      rewrite (Forall_forall (before compareFn y)). intros z Hz.
      rewrite insertSorted_Permutation in Hz.
      apply elem_of_cons in Hz as [->|Hz].
      * destruct (before_total y x) as [|H]; [done|]. unfold before in H. lia.
      * rewrite (Forall_forall (before compareFn y)) in Hy. by apply Hy.
Qed.

Lemma Array_sort_sorted (l : list A) : StronglySorted (before compareFn) (Array_sort compareFn l).
Proof using compareFn_antisym compareFn_trans.
  induction l as [|x l IH]; simpl; [constructor|]. by apply insertSorted_sorted.
Qed.

(** Sorted arrangements of the same elements coincide, as long as no two
    different elements compare equal. *)
Lemma sorted_unique (l1 : list A) :
  forall l2,
    StronglySorted (before compareFn) l1 -> StronglySorted (before compareFn) l2 ->
    Permutation l1 l2 ->
    (forall x y, x ∈ l1 -> y ∈ l1 -> compareFn x y = 0%Z -> x = y) ->
    l1 = l2.
Proof using compareFn_antisym.
  induction l1 as [|x l1 IH]; intros l2 H1 H2 Hperm Hinj.
  - by apply Permutation_nil in Hperm.
  - destruct l2 as [|y l2].
    { symmetry in Hperm. by apply Permutation_nil in Hperm. }
    apply StronglySorted_inv in H1 as [H1 Hx], H2 as [H2 Hy].
    rewrite (Forall_forall (before compareFn x)) in Hx. rewrite (Forall_forall (before compareFn y)) in Hy.
    assert (Hxy : x = y).
    { assert (Hxin : x ∈ y :: l2) by (rewrite <- Hperm; by left).
      assert (Hyin : y ∈ x :: l1) by (rewrite Hperm; by left).
      apply elem_of_cons in Hxin as [->|Hxin]; [done|].
      apply elem_of_cons in Hyin as [->|Hyin]; [done|].
      apply Hinj; [by left | by right |].
      pose proof (Hx y Hyin) as Hb1. pose proof (Hy x Hxin) as Hb2.
      unfold before in *. pose proof (compareFn_antisym x y). lia. }
    subst y. f_equal. apply IH; try done.
    + by apply Permutation_cons_inv in Hperm.
    + intros a b Ha Hb. apply Hinj; by right.
Qed.

Lemma Array_sort_Permutation_eq (l1 l2 : list A) :
  Permutation l1 l2 ->
  (forall x y, x ∈ l1 -> y ∈ l1 -> compareFn x y = 0%Z -> x = y) ->
  Array_sort compareFn l1 = Array_sort compareFn l2.
Proof using compareFn_antisym compareFn_trans.
  intros Hperm Hinj. apply sorted_unique; try apply Array_sort_sorted.
  - by rewrite !Array_sort_Permutation.
  - intros x y Hx Hy. rewrite Array_sort_Permutation in Hx, Hy. by apply Hinj.
Qed.

End Sorting.

Lemma codeUnitCompare_le (a b : string) :
  (codeUnitCompare a b <= 0)%Z <-> String.le a b.
Proof.
  unfold codeUnitCompare, String.le, String.leb.
  destruct (a ?= b)%string; simpl; split; intros H; (lia || done).
Qed.

Lemma codeUnitCompare_antisym (a b : string) :
  Z.sgn (codeUnitCompare b a) = (- Z.sgn (codeUnitCompare a b))%Z.
Proof.
  unfold codeUnitCompare. rewrite (String.compare_antisym a b).
  by destruct (b ?= a)%string.
Qed.

Lemma codeUnitCompare_trans (a b c : string) :
  (codeUnitCompare a b <= 0)%Z -> (codeUnitCompare b c <= 0)%Z ->
  (codeUnitCompare a c <= 0)%Z.
Proof. rewrite !codeUnitCompare_le. apply transitivity. Qed.

Lemma codeUnitCompare_eq (a b : string) : codeUnitCompare a b = 0%Z -> a = b.
Proof.
  unfold codeUnitCompare. destruct (a ?= b)%string eqn:E; try done.
  intros _. by apply String.compare_eq_iff.
Qed.

Section ConsensusProof.
Variable localeCompare : string -> string -> Z.
Variable Number_toString : number -> string.

(** [localeCompare] is a consistent comparator. *)
Hypothesis localeCompare_antisym :
  forall a b, Z.sgn (localeCompare b a) = (- Z.sgn (localeCompare a b))%Z.
Hypothesis localeCompare_trans :
  forall a b c, (localeCompare a b <= 0)%Z -> (localeCompare b c <= 0)%Z ->
                (localeCompare a c <= 0)%Z.

Lemma hashValidations_Permutation (vs vs' : list Validation.t) :
  Permutation vs vs' ->
  (forall x y, x ∈ vs -> y ∈ vs ->
     localeCompare (Validation.validator x) (Validation.validator y) = 0%Z -> x = y) ->
  hashValidations localeCompare Number_toString vs
  = hashValidations localeCompare Number_toString vs'.
Proof using localeCompare_antisym localeCompare_trans.
  intros Hperm Hinj. unfold hashValidations. cbv zeta.
  rewrite (Array_sort_Permutation_eq _ (fun a b => localeCompare_antisym _ _)
             (fun a b c => localeCompare_trans _ _ _) vs vs' Hperm Hinj).
  done.
Qed.

(** C9 (as the code behaves): the proof bytes are a function of the
    result's data id, consensus ratio, timestamp and validations, and they
    do not change when the validations are reordered, provided no two
    different validations carry validator ids that compare equal. *)
Theorem generateConsensusProof_Permutation (r r' : ValidationResult.t) :
  ValidationResult.dataId r = ValidationResult.dataId r' ->
  ValidationResult.consensusRatio r = ValidationResult.consensusRatio r' ->
  ValidationResult.timestamp r = ValidationResult.timestamp r' ->
  Permutation (ValidationResult.validations r) (ValidationResult.validations r') ->
  (forall x y,
     x ∈ ValidationResult.validations r -> y ∈ ValidationResult.validations r ->
     localeCompare (Validation.validator x) (Validation.validator y) = 0%Z -> x = y) ->
  generateConsensusProof localeCompare Number_toString r
  = generateConsensusProof localeCompare Number_toString r'.
Proof using localeCompare_antisym localeCompare_trans.
  intros Hid Hratio Htime Hperm Hinj. unfold generateConsensusProof. cbv zeta.
  rewrite Hid, Hratio, Htime, (Permutation_length Hperm).
  by rewrite (hashValidations_Permutation _ _ Hperm Hinj).
Qed.

End ConsensusProof.

Lemma generateConsensusProof_Permutation_witness :
  generateConsensusProof codeUnitCompare decimalToString byAB
  = generateConsensusProof codeUnitCompare decimalToString byAB_swapped.
Proof.
  apply (generateConsensusProof_Permutation codeUnitCompare decimalToString
           codeUnitCompare_antisym codeUnitCompare_trans byAB byAB_swapped);
    try reflexivity.
  - apply perm_swap.
  - intros x y Hx Hy Hcmp. apply codeUnitCompare_eq in Hcmp.
    unfold byAB in Hx, Hy. cbn [ValidationResult.validations] in Hx, Hy.
    elem_cases Hx; elem_cases Hy; done.
Defined.

(** C9 as stated fails when one validator id occurs twice: the stable sort
    keeps the two validations in the order received, so swapping them
    changes the hashed string and with it the proof bytes. *)
Lemma generateConsensusProof_order_dependent :
  Permutation (ValidationResult.validations twiceA)
              (ValidationResult.validations twiceA_swapped) /\
  ValidationResult.dataId twiceA = ValidationResult.dataId twiceA_swapped /\
  ValidationResult.consensusRatio twiceA = ValidationResult.consensusRatio twiceA_swapped /\
  ValidationResult.timestamp twiceA = ValidationResult.timestamp twiceA_swapped /\
  hashValidations codeUnitCompare decimalToString (ValidationResult.validations twiceA)
  = "3cc97d84" /\
  hashValidations codeUnitCompare decimalToString
    (ValidationResult.validations twiceA_swapped)
  = "00a0e808" /\
  generateConsensusProof codeUnitCompare decimalToString twiceA
  <> generateConsensusProof codeUnitCompare decimalToString twiceA_swapped.
Proof.
  split; [apply perm_swap|]. repeat split; try by vm_compute.
Qed.

End CrossValidatorProps.

(* ===================================================================== *)
(** * More facts about the number model                                   *)
(* ===================================================================== *)

Module NumberProps.
Import JS JSFacts JSRuntime.

(** Finite arithmetic, up to the representation of the result. *)
Ltac fin_arith :=
  unfold sub, neg, add, mul, square, fin;
  try (f_equal; apply Qred_complete);
  rewrite ?Qred_correct;
  try (ring || lra).

Lemma Math_max_ofZ (a b : Z) : Math_max (ofZ a) (ofZ b) = ofZ (Z.max a b).
Proof.
  unfold Math_max, ofZ.
  destruct (ltb (Fin (inject_Z a)) (Fin (inject_Z b))) eqn:E.
  - apply ltb_Fin in E. rewrite <- Zlt_Qlt in E. by rewrite Z.max_r by lia.
  - apply ltb_Fin_false in E. rewrite <- Zle_Qle in E. by rewrite Z.max_l by lia.
Qed.

Lemma Math_min_ofZ' (a b : Z) : Math_min (ofZ a) (ofZ b) = ofZ (Z.min a b).
Proof.
  unfold Math_min, ofZ.
  destruct (ltb (Fin (inject_Z b)) (Fin (inject_Z a))) eqn:E.
  - apply ltb_Fin in E. rewrite <- Zlt_Qlt in E. by rewrite Z.min_r by lia.
  - apply ltb_Fin_false in E. rewrite <- Zle_Qle in E. by rewrite Z.min_l by lia.
Qed.

Lemma Math_round_Fin (q : Q) : Math_round (Fin q) = ofZ (Qfloor (q + (1 # 2))).
Proof. reflexivity. Qed.

(** Rounding keeps a value between the integers that bound it. *)
Lemma Qfloor_half_between (lo hi : Z) (q : Q) :
  (inject_Z lo <= q)%Q -> (q <= inject_Z hi)%Q ->
  (lo <= Qfloor (q + (1 # 2)) <= hi)%Z.
Proof.
  intros Hlo Hhi. split.
  - assert (H : (inject_Z lo <= q + (1 # 2))%Q) by lra.
    apply Qfloor_resp_le in H. by rewrite Qfloor_Z in H.
  - pose proof (Qfloor_le (q + (1 # 2))) as Hfl.
    assert (H : (inject_Z (Qfloor (q + (1 # 2))) < inject_Z (hi + 1))%Q).
    { rewrite inject_Z_plus. change (inject_Z 1) with 1%Q. lra. }
    rewrite <- Zlt_Qlt in H. lia.
Qed.


Lemma mul_comm (x y : number) : mul x y = mul y x.
Proof. destruct x, y; simpl; try reflexivity. apply fin_eq. ring. Qed.

Lemma Math_sqrt_zero (z : Q) : (z == 0)%Q -> Math_sqrt (Fin z) = zero.
Proof.
  intros Hz. unfold Math_sqrt.
  assert (E : (z ?= 0)%Q = Eq) by (by apply Qeq_alt).
  rewrite E, (Qred_complete z 0 Hz). reflexivity.
Qed.

End NumberProps.

(* ===================================================================== *)
(** * More properties of the Trust Scoring Service                         *)
(* ===================================================================== *)

Module TrustScorerMore.
Import JS JSFacts JSRuntime NumberProps TrustScorer TrustVocabulary.

(** ** Clamping *)

Lemma clamp_ofZ_any (z : Z) : clamp (ofZ z) = ofZ (Z.min 1000 (Z.max 0 z)).
Proof. unfold clamp, zero. by rewrite Math_max_ofZ, Math_min_ofZ'. Qed.

(** ** Validation rate *)

Lemma updateValidationRate_ofZ (z : Z) (isValidated : bool) :
  updateValidationRate (ofZ z) isValidated
  = ofZ (Z.min 1000 (Z.max 0 (z + (if isValidated then 10 else -20)))).
Proof.
  unfold updateValidationRate. destruct isValidated; by rewrite add_ofZ, clamp_ofZ_any.
Qed.

(** The two updates of the validation rate commute exactly on the rates
    that neither update can push against a bound. *)
Theorem updateValidationRate_order (z : Z) :
  (0 <= z <= 1000)%Z ->
  updateValidationRate (updateValidationRate (ofZ z) true) false
  = updateValidationRate (updateValidationRate (ofZ z) false) true
  <-> (20 <= z <= 990)%Z.
Proof.
  intros Hz. rewrite !updateValidationRate_ofZ. unfold ofZ. split.
  - intros H. injection H as H. lia.
  - intros H. do 2 f_equal. lia.
Qed.

Lemma updateValidationRate_order_witness :
  updateValidationRate (updateValidationRate (ofZ 1000) true) false
  = updateValidationRate (updateValidationRate (ofZ 1000) false) true
  <-> (20 <= 1000 <= 990)%Z.
Proof. apply (updateValidationRate_order 1000). lia. Defined.

(** One failure costs two successes: away from the bounds, a failure
    followed by two successes restores the rate. *)
Theorem updateValidationRate_recovery (z : Z) :
  (20 <= z <= 1000)%Z ->
  updateValidationRate
    (updateValidationRate (updateValidationRate (ofZ z) false) true) true
  = ofZ z.
Proof.
  intros Hz. rewrite !updateValidationRate_ofZ. f_equal. lia.
Qed.

Lemma updateValidationRate_recovery_witness :
  updateValidationRate
    (updateValidationRate (updateValidationRate (ofZ 640) false) true) true
  = ofZ 640.
Proof. apply (updateValidationRate_recovery 640). lia. Defined.

(** ** Bayesian update *)

Lemma unit_clamp_low (w : number) :
  leb w zero = true -> Math_max zero (Math_min one w) = zero.
Proof.
  destruct w as [x| | |]; try done. intros H. apply leb_Fin in H.
  change (inject_Z 0) with 0%Q in H.
  unfold Math_min, one, ofZ.
  assert (E : ltb (Fin x) (Fin (inject_Z 1)) = true).
  { apply ltb_Fin. change (inject_Z 1) with 1%Q. lra. }
  rewrite E. unfold Math_max, zero, ofZ.
  assert (E' : ltb (Fin (inject_Z 0)) (Fin x) = false).
  { apply ltb_Fin_false. change (inject_Z 0) with 0%Q. lra. }
  by rewrite E'.
Qed.

Lemma unit_clamp_high (w : number) :
  leb one w = true -> Math_max zero (Math_min one w) = one.
Proof.
  destruct w as [x| | |]; try done. intros H. apply leb_Fin in H.
  change (inject_Z 1) with 1%Q in H.
  unfold Math_min, one, ofZ.
  assert (E : ltb (Fin x) (Fin (inject_Z 1)) = false).
  { apply ltb_Fin_false. change (inject_Z 1) with 1%Q. lra. }
  by rewrite E.
Qed.

Lemma unit_clamp_range (w : number) :
  w <> NaN ->
  exists q, Math_max zero (Math_min one w) = Fin q /\ (0 <= q <= 1)%Q.
Proof.
  intros Hw. destruct w as [x| | |]; [| | |done].
  - destruct (Qlt_le_dec 0 x) as [Hpos|Hneg].
    + destruct (Qlt_le_dec x 1) as [Hlt|Hge].
      * exists x. unfold Math_min, one, ofZ.
        assert (E : ltb (Fin x) (Fin (inject_Z 1)) = true) by by apply ltb_Fin.
        rewrite E. unfold Math_max, zero, ofZ.
        assert (E' : ltb (Fin (inject_Z 0)) (Fin x) = true) by by apply ltb_Fin.
        rewrite E'. split; [done|lra].
      * exists 1%Q. rewrite unit_clamp_high by by apply leb_Fin. split; [done|lra].
    + exists 0%Q. rewrite unit_clamp_low by by apply leb_Fin. split; [done|lra].
  - by exists 1%Q; split; [|lra].
  - by exists 0%Q; split; [|lra].
Qed.

(** The rounded blend of two integer scores with a finite weight. *)
Lemma blend_ofZ (c e : Z) (q : Q) :
  Math_round (add (mul (ofZ c) (sub one (Fin q))) (mul (ofZ e) (Fin q)))
  = ofZ (Qfloor (inject_Z c * (1 - q) + inject_Z e * q + (1 # 2))).
Proof.
  unfold sub, one, neg, add, mul, fin, Math_round, ofZ. do 2 f_equal.
  apply Qfloor_comp. rewrite !Qred_correct. change (inject_Z 1) with 1%Q. ring.
Qed.

(** The updated score lies between the current score and the evidence. *)
Theorem updateTrustScore_between (c e : Z) (w : option number) :
  (0 <= c <= 1000)%Z -> (0 <= e <= 1000)%Z -> w <> Some NaN ->
  exists k, updateTrustScore (ofZ c) (ofZ e) w = ofZ k
            /\ (Z.min c e <= k <= Z.max c e)%Z.
Proof.
  intros Hc He Hw. unfold updateTrustScore.
  destruct (unit_clamp_range (w ?? Fin (1 # 10))) as (q & Hq & Hq01).
  { destruct w as [w|]; simpl; congruence. }
  cbv zeta. rewrite Hq, blend_ofZ.
  set (x := (inject_Z c * (1 - q) + inject_Z e * q)%Q).
  assert (Hx : (inject_Z (Z.min c e) <= x /\ x <= inject_Z (Z.max c e))%Q).
  { subst x. destruct (Z.le_ge_cases c e) as [Hle|Hle].
    - rewrite Z.min_l, Z.max_r by done. rewrite Zle_Qle in Hle. split; nra.
    - rewrite Z.min_r, Z.max_l by done. rewrite Zle_Qle in Hle. split; nra. }
  destruct Hx as [Hlo Hhi].
  pose proof (Qfloor_half_between _ _ _ Hlo Hhi) as Hk.
  exists (Qfloor (x + (1 # 2))). split; [|done].
  rewrite clamp_ofZ_any. f_equal. lia.
Qed.

Lemma updateTrustScore_between_witness :
  exists k, updateTrustScore (ofZ 700) (ofZ 400) (Some (Fin (1 # 4))) = ofZ k
            /\ (Z.min 700 400 <= k <= Z.max 700 400)%Z.
Proof.
  apply (updateTrustScore_between 700 400 (Some (Fin (1 # 4)))); [lia | lia | discriminate].
Defined.

(** A weight at or below 0 (also -Infinity) leaves the score unchanged; a
    weight at or above 1 (also +Infinity) replaces it by the evidence. *)
Theorem updateTrustScore_extremes (c e : Z) (w : number) :
  (0 <= c <= 1000)%Z -> (0 <= e <= 1000)%Z ->
  (leb w zero = true -> updateTrustScore (ofZ c) (ofZ e) (Some w) = ofZ c) /\
  (leb one w = true -> updateTrustScore (ofZ c) (ofZ e) (Some w) = ofZ e).
Proof.
  intros Hc He. unfold updateTrustScore. cbn [nullish]. cbv zeta. split; intros Hw.
  - rewrite unit_clamp_low by done. change zero with (Fin 0). rewrite blend_ofZ.
    rewrite (Qfloor_half c) by ring. rewrite clamp_ofZ_any. f_equal. lia.
  - rewrite unit_clamp_high by done. change one with (Fin 1). rewrite blend_ofZ.
    rewrite (Qfloor_half e) by ring. rewrite clamp_ofZ_any. f_equal. lia.
Qed.

Lemma updateTrustScore_extremes_witness :
  (leb (ofZ (-3)) zero = true ->
   updateTrustScore (ofZ 700) (ofZ 400) (Some (ofZ (-3))) = ofZ 700) /\
  (leb one (ofZ (-3)) = true ->
   updateTrustScore (ofZ 700) (ofZ 400) (Some (ofZ (-3))) = ofZ 400).
Proof. apply (updateTrustScore_extremes 700 400 (ofZ (-3))); lia. Defined.

(** With the default weight 0.1 the update is round((9 c + e) / 10). *)
Theorem updateTrustScore_default (c e : Z) :
  (0 <= c <= 1000)%Z -> (0 <= e <= 1000)%Z ->
  updateTrustScore (ofZ c) (ofZ e) None = ofZ ((9 * c + e + 5) / 10).
Proof.
  intros Hc He. unfold updateTrustScore. cbn [nullish]. cbv zeta.
  assert (Hw : Math_max zero (Math_min one (Fin (1 # 10))) = Fin (1 # 10)) by reflexivity.
  rewrite Hw, blend_ofZ.
  assert (Hfl : Qfloor (inject_Z c * (1 - (1 # 10)) + inject_Z e * (1 # 10) + (1 # 2))
                = ((9 * c + e + 5) / 10)%Z).
  { rewrite (Qfloor_comp _ (inject_Z (9 * c + e + 5) / 10)).
    - unfold Qfloor, Qdiv, Qmult, Qinv, inject_Z. cbn [Qnum Qden]. by rewrite Z.mul_1_r.
    - rewrite !inject_Z_plus, !inject_Z_mult. field. }
  rewrite Hfl, clamp_ofZ_any. f_equal.
  assert (0 <= (9 * c + e + 5) / 10)%Z by (apply Z.div_pos; lia).
  assert ((9 * c + e + 5) / 10 < 1001)%Z by (apply Z.div_lt_upper_bound; lia).
  lia.
Qed.

Lemma updateTrustScore_default_witness :
  updateTrustScore (ofZ 700) (ofZ 400) None = ofZ ((9 * 700 + 400 + 5) / 10).
Proof. apply (updateTrustScore_default 700 400); lia. Defined.

(** ** Decayed accuracy *)

Lemma rationalExp_positive (q : Q) :
  exists r, rationalExp (Fin q) = Fin r /\ (0 < r)%Q.
Proof.
  unfold rationalExp. destruct (Qle_bool q 0) eqn:E.
  - apply Qle_bool_iff in E. eexists. split; [reflexivity|].
    rewrite Qred_correct. apply Qlt_shift_div_l; lra.
  - assert (0 < q)%Q.
    { destruct (Qlt_le_dec 0 q) as [|Hle]; [done|].
      apply Qle_bool_iff in Hle. congruence. }
    eexists. split; [reflexivity|]. rewrite Qred_correct. lra.
Qed.

(** The decay loop over records with scores between [lo] and [hi] and
    positive weights: the weighted sum stays between [lo] and [hi] times
    the total weight. *)
Lemma decay_loop (Math_exp : number -> number) (now lo hi : Q)
    (history : list AccuracyHistory) :
  Forall (boundedRecord lo hi) history ->
  Forall (counted Math_exp (Fin now)) history ->
  forall W S, (0 <= W)%Q -> (lo * W <= S <= hi * W)%Q ->
  exists W' S',
    fold_left
      (fun '(totalWeight, weightedSum) entry =>
         let ageInDays := div (sub (Fin now) (timestamp entry)) msPerDay in
         let weight := Math_exp (mul (neg decayRate) ageInDays) in
         (add totalWeight weight, add weightedSum (mul (score entry) weight)))
      history (Fin W, Fin S)
    = (Fin W', Fin S')
    /\ (W <= W')%Q /\ (history <> [] -> W < W')%Q
    /\ (lo * W' <= S' <= hi * W')%Q.
Proof.
  induction history as [|h history IH]; intros Hb Hc W S HW HS.
  - exists W, S. cbn [fold_left]. split; [done|]. split; [lra|]. split; [done|done].
  - apply Forall_cons in Hb as [(t & s & Ht & Hs & _ & Hrange) Hb].
    apply Forall_cons in Hc as [(r & Hr & Hr01) Hc].
    unfold decayWeight in Hr. rewrite Ht in Hr.
    cbn [fold_left]. cbv zeta. rewrite Ht, Hs, Hr.
    cbn [add mul]. unfold fin.
    destruct (IH Hb Hc (Qred (W + r)) (Qred (S + Qred (s * r))))
      as (W' & S' & Hfold & HW' & _ & HS').
    + rewrite Qred_correct. lra.
    + rewrite !Qred_correct. nra.
    + rewrite Qred_correct in HW'. exists W', S'. split; [exact Hfold|].
      split; [lra|]. split; [intros _; lra|done].
Qed.

(** The decayed accuracy is a weighted average: over records that are not
    dated in the future and still count, it lies between the smallest and
    the largest recorded score. *)
Theorem calculateDecayedAccuracy_between
    (Math_exp : number -> number) (now : Q) (lo hi : Z)
    (history : list AccuracyHistory) :
  (0 <= lo)%Z -> (hi <= 1000)%Z -> safe now ->
  history <> [] ->
  Forall (boundedRecord (inject_Z lo) (inject_Z hi)) history ->
  Forall (counted Math_exp (Fin now)) history ->
  exists k, calculateDecayedAccuracy Math_exp (Fin now) history = ofZ k
            /\ (lo <= k <= hi)%Z.
Proof.
  intros _ _ _ Hne Hall Hcount. unfold calculateDecayedAccuracy.
  destruct history as [|h0 rest] eqn:Eh; [done|]. rewrite <- Eh in *.
  assert (Hlen : (length history =? 0)%nat = false) by (by rewrite Eh).
  rewrite Hlen.
  destruct (decay_loop Math_exp now (inject_Z lo) (inject_Z hi) history Hall Hcount 0 0)
    as (W & S & Hfold & _ & HW & HS); [lra | lra |].
  match goal with
  | |- context [fold_left ?f history ?a] =>
      replace (fold_left f history a) with (Fin W, Fin S) by (symmetry; exact Hfold)
  end.
  assert (HWpos : (0 < W)%Q) by (apply HW; by rewrite Eh).
  assert (Hgt : gtb (Fin W) zero = true) by (by apply ltb_Fin).
  rewrite Hgt. unfold div.
  destruct (Qeq_bool W 0) eqn:E0.
  { apply Qeq_bool_eq in E0. lra. }
  unfold fin. rewrite Math_round_Fin. eexists. split; [reflexivity|].
  apply Qfloor_half_between; rewrite Qred_correct.
  - apply Qle_shift_div_l; lra.
  - apply Qle_shift_div_r; lra.
Qed.

Lemma calculateDecayedAccuracy_between_witness :
  exists k,
    calculateDecayedAccuracy rationalExp (Fin 1700000000000%Q)
      [ {| timestamp := ofZ 1690000000000; score := ofZ 400 |};
        {| timestamp := ofZ 1699000000000; score := ofZ 650 |} ] = ofZ k
    /\ (400 <= k <= 650)%Z.
Proof.
  apply (calculateDecayedAccuracy_between rationalExp 1700000000000%Q 400%Z 650%Z);
    [lia | lia | by vm_compute | discriminate | |].
  - repeat apply List.Forall_cons; try apply List.Forall_nil.
    + exists 1690000000000%Q, 400%Q. repeat split; (reflexivity || by vm_compute).
    + exists 1699000000000%Q, 650%Q. repeat split; (reflexivity || by vm_compute).
  - repeat apply List.Forall_cons; try apply List.Forall_nil;
      (eexists; split; [vm_compute; reflexivity|split; by vm_compute]).
Defined.

(** ** The full score *)

Lemma finite_Fin (x : number) : finite x <-> exists q, x = Fin q.
Proof.
  destruct x; simpl; split; try done; eauto; by intros [? ?].
Qed.

Lemma boundedRecord_finite (lo hi : Q) (h : AccuracyHistory) :
  boundedRecord lo hi h -> finiteRecord h.
Proof. intros (t & s & Ht & Hs & _). split; apply finite_Fin; eauto. Qed.

(** The decay loop over finite records with finite weights. *)
Lemma decay_loop_finite (Math_exp : number -> number) (now : Q)
    (history : list AccuracyHistory) :
  Forall finiteRecord history ->
  Forall (discounted Math_exp (Fin now)) history ->
  forall W S,
  exists W' S',
    fold_left
      (fun '(totalWeight, weightedSum) entry =>
         let ageInDays := div (sub (Fin now) (timestamp entry)) msPerDay in
         let weight := Math_exp (mul (neg decayRate) ageInDays) in
         (add totalWeight weight, add weightedSum (mul (score entry) weight)))
      history (Fin W, Fin S)
    = (Fin W', Fin S').
Proof.
  induction history as [|h history IH]; intros Hf Hd W S.
  - by exists W, S.
  - apply Forall_cons in Hf as [[Ht Hs] Hf].
    apply Forall_cons in Hd as [(r & Hr & _) Hd].
    cbn [fold_left]. cbv zeta.
    apply finite_Fin in Ht as [t Ht], Hs as [s Hs].
    unfold decayWeight in Hr. rewrite Ht in Hr. rewrite Ht, Hs, Hr.
    cbn [add mul]. unfold fin. by apply IH.
Qed.

Lemma calculateDecayedAccuracy_integer (Math_exp : number -> number) (now : Q)
    (history : list AccuracyHistory) :
  Forall finiteRecord history ->
  Forall (discounted Math_exp (Fin now)) history ->
  exists k, calculateDecayedAccuracy Math_exp (Fin now) history = ofZ k.
Proof.
  intros Hall Hd. unfold calculateDecayedAccuracy.
  destruct (length history =? 0)%nat; [by eexists|].
  destruct (decay_loop_finite Math_exp now history Hall Hd 0 0) as (W & S & Hfold).
  match goal with
  | |- context [fold_left ?f history ?a] =>
      replace (fold_left f history a) with (Fin W, Fin S) by (symmetry; exact Hfold)
  end.
  destruct (gtb (Fin W) zero) eqn:Hgt; [|by eexists].
  apply ltb_Fin in Hgt. change (inject_Z 0) with 0%Q in Hgt.
  unfold div. destruct (Qeq_bool W 0) eqn:E0.
  { apply Qeq_bool_eq in E0. lra. }
  unfold fin. rewrite Math_round_Fin. by eexists.
Qed.

(** Normalised weights are finite as soon as the weights are finite and
    do not add up to zero. *)
Lemma normalizeWeights_finite (wa wc wv : Q) :
  ~ (wa + wc + wv == 0)%Q ->
  normalizeWeights {| accuracy := Fin wa; consistency := Fin wc; validation := Fin wv |}
  = {| accuracy := fin (wa / (wa + wc + wv));
       consistency := fin (wc / (wa + wc + wv));
       validation := fin (wv / (wa + wc + wv)) |}.
Proof.
  intros Hsum. unfold normalizeWeights. cbn [accuracy consistency validation add].
  assert (Htotal : add (fin (wa + wc)) (Fin wv) = Fin (Qred (Qred (wa + wc) + wv)))
    by reflexivity.
  rewrite Htotal. unfold div.
  assert (E : Qeq_bool (Qred (Qred (wa + wc) + wv)) 0 = false).
  { destruct (Qeq_bool _ _) eqn:E; [|done]. apply Qeq_bool_eq in E.
    rewrite !Qred_correct in E. contradiction. }
  rewrite E. f_equal; apply fin_eq; by rewrite !Qred_correct.
Qed.

Lemma share_range (w total : Q) :
  (0 <= w <= total)%Q -> (0 < total)%Q ->
  exists r, fin (w / total) = Fin r /\ (0 <= r <= 1)%Q.
Proof.
  intros Hw Ht. eexists. split; [reflexivity|]. rewrite Qred_correct. split.
  - apply Qle_shift_div_l; lra.
  - apply Qle_shift_div_r; lra.
Qed.

(** Weights that are not negative and not all zero are normalised to
    shares: each normalised weight is a number of [[0,1]]. *)
Theorem normalizeWeights_shares (wa wc wv : Q) :
  (0 <= wa)%Q -> (0 <= wc)%Q -> (0 <= wv)%Q -> (0 < wa + wc + wv)%Q ->
  let w := normalizeWeights
             {| accuracy := Fin wa; consistency := Fin wc; validation := Fin wv |} in
  exists a c v,
    accuracy w = Fin a /\ consistency w = Fin c /\ validation w = Fin v
    /\ (0 <= a <= 1)%Q /\ (0 <= c <= 1)%Q /\ (0 <= v <= 1)%Q.
Proof.
  intros Ha Hc Hv Hsum. cbv zeta. rewrite normalizeWeights_finite by lra.
  cbn [accuracy consistency validation].
  destruct (share_range wa (wa + wc + wv)) as (a & -> & Ha'); [lra|done|].
  destruct (share_range wc (wa + wc + wv)) as (c & -> & Hc'); [lra|done|].
  destruct (share_range wv (wa + wc + wv)) as (v & -> & Hv'); [lra|done|].
  by exists a, c, v.
Qed.

Lemma normalizeWeights_shares_witness :
  let w := normalizeWeights
             {| accuracy := Fin 3; consistency := Fin 1; validation := Fin (1 # 2) |} in
  exists a c v,
    accuracy w = Fin a /\ consistency w = Fin c /\ validation w = Fin v
    /\ (0 <= a <= 1)%Q /\ (0 <= c <= 1)%Q /\ (0 <= v <= 1)%Q.
Proof. apply (normalizeWeights_shares 3 1 (1 # 2)); by vm_compute. Defined.

(** With weights that are not negative and not all zero, factors of
    [[0,1000]] and a history of scores of [[0,1000]] that is not dated in
    the future, the score is an integer of [[0,1000]]. *)
Theorem calculateTrustScore_in_range
    (Math_exp : number -> number) (now : Q)
    (params : TrustScoreParams) (weights : Partial.TrustScoreWeights)
    (wa wc wv cf vr : Q) :
  Partial.accuracy weights ?? accuracy defaultWeights = Fin wa ->
  Partial.consistency weights ?? consistency defaultWeights = Fin wc ->
  Partial.validation weights ?? validation defaultWeights = Fin wv ->
  (0 <= wa)%Q -> (0 <= wc)%Q -> (0 <= wv)%Q -> (0 < wa + wc + wv)%Q ->
  consistencyFactor params ?? ofZ 500 = Fin cf -> (0 <= cf <= 1000)%Q ->
  validationSuccessRate params ?? ofZ 500 = Fin vr -> (0 <= vr <= 1000)%Q ->
  safe now ->
  Forall (boundedRecord 0 1000) (accuracyHistory params ?? []) ->
  Forall (discounted Math_exp (Fin now)) (accuracyHistory params ?? []) ->
  exists k, calculateTrustScore Math_exp (Fin now) params weights = ofZ k
            /\ (0 <= k <= 1000)%Z.
Proof.
  intros Hwa Hwc Hwv Ha Hc Hv Hsum Hcf _ Hvr _ _ Hhist Hdisc.
  unfold calculateTrustScore. cbv zeta.
  rewrite Hwa, Hwc, Hwv, Hcf, Hvr, normalizeWeights_finite by lra.
  cbn [accuracy consistency validation].
  assert (Hfin : Forall finiteRecord (accuracyHistory params ?? [])).
  { eapply Forall_impl; [exact Hhist|]. intros h. apply boundedRecord_finite. }
  destruct (calculateDecayedAccuracy_integer Math_exp now _ Hfin Hdisc) as [a ->].
  unfold ofZ at 1. unfold fin. cbn [mul]. unfold fin. rewrite !Math_round_Fin, !add_ofZ.
  rewrite clamp_ofZ_any. eexists. split; [reflexivity|]. lia.
Qed.

Lemma calculateTrustScore_in_range_witness :
  exists k,
    calculateTrustScore rationalExp (Fin 1700000000000%Q)
      {| baseScore := None;
         accuracyHistory := Some [ {| timestamp := ofZ 1690000000000; score := ofZ 400 |} ];
         consistencyFactor := Some (ofZ 800);
         validationSuccessRate := None;
         totalSubmissions := None |}
      {| Partial.accuracy := Some (ofZ 2); Partial.consistency := None;
         Partial.validation := Some zero |} = ofZ k
    /\ (0 <= k <= 1000)%Z.
Proof.
  apply (calculateTrustScore_in_range rationalExp 1700000000000%Q _ _
           2 (1 # 5) 0 800 500);
    [reflexivity | reflexivity | reflexivity
    | by vm_compute | by vm_compute | by vm_compute | by vm_compute
    | reflexivity | by vm_compute | reflexivity | by vm_compute | by vm_compute
    | | ].
  - apply List.Forall_cons; [|apply List.Forall_nil].
    exists 1690000000000%Q, 400%Q. repeat split; (reflexivity || by vm_compute).
  - apply List.Forall_cons; [|apply List.Forall_nil].
    eexists. split; [vm_compute; reflexivity|split; by vm_compute].
Defined.

(** ** Consistency factor *)

(** One submission moves the consistency factor by at most 100 points,
    and never out of [[0,1000]]. *)
Theorem updateConsistencyFactor_step
    (Math_exp : number -> number) (c : Z) (a b : Q) :
  (forall q, exists r, Math_exp (Fin q) = Fin r /\ (0 <= r)%Q) ->
  (0 <= c <= 1000)%Z ->
  exists k, updateConsistencyFactor Math_exp (ofZ c) (Fin a) (Fin b) = ofZ k
            /\ (0 <= k <= 1000)%Z /\ (c - 100 <= k <= c + 100)%Z.
Proof.
  intros Hexp Hc. unfold updateConsistencyFactor. cbv zeta.
  set (arg := mul (ofZ (-10))
                (sub (div (Math_abs (sub (Fin a) (Fin b))) (ofZ 1000)) (Fin (1 # 2)))).
  assert (Harg : exists q, arg = Fin q) by (by eexists).
  destruct Harg as [q ->]. destruct (Hexp q) as (r & -> & Hr).
  assert (Hsig : exists s, div one (add one (Fin r)) = Fin s /\ (0 < s <= 1)%Q).
  { unfold one, ofZ, add, fin, div.
    destruct (Qeq_bool (Qred (inject_Z 1 + r)) 0) eqn:E0.
    { apply Qeq_bool_eq in E0. rewrite Qred_correct in E0.
      change (inject_Z 1) with 1%Q in E0. lra. }
    eexists. split; [reflexivity|]. rewrite !Qred_correct.
    change (inject_Z 1) with 1%Q. split.
    - apply Qlt_shift_div_l; lra.
    - apply Qle_shift_div_r; lra. }
  destruct Hsig as (s & -> & Hs).
  assert (Hdelta : exists d,
             Math_round (mul (sub (Fin (1 # 2)) (Fin s)) (ofZ 200)) = ofZ d
             /\ (-100 <= d <= 100)%Z).
  { unfold sub, neg, add, mul, ofZ, fin. rewrite Math_round_Fin.
    eexists. split; [reflexivity|].
    apply Qfloor_half_between; rewrite !Qred_correct;
      change (inject_Z 200) with 200%Q;
      [change (inject_Z (-100)) with (-100)%Q | change (inject_Z 100) with 100%Q]; lra. }
  destruct Hdelta as (d & -> & Hd).
  rewrite add_ofZ, clamp_ofZ_any. eexists. split; [reflexivity|]. lia.
Qed.

Lemma updateConsistencyFactor_step_witness :
  exists k, updateConsistencyFactor rationalExp (ofZ 500) (Fin 900) (Fin 100) = ofZ k
            /\ (0 <= k <= 1000)%Z /\ (500 - 100 <= k <= 500 + 100)%Z.
Proof.
  apply (updateConsistencyFactor_step rationalExp 500 900 100); [|lia].
  intros q. destruct (rationalExp_positive q) as (r & -> & Hr).
  exists r. split; [done|lra].
Defined.

(** ** Linear regression *)

Lemma sum_Fin (qs : list Q) :
  forall q0, exists v, fold_left add (map Fin qs) (Fin q0) = Fin v
                       /\ (v == q0 + Qsum qs)%Q.
Proof.
  induction qs as [|q qs IH]; intros q0; cbn [map fold_left Qsum fold_right].
  - exists q0. split; [done|ring].
  - cbn [add]. unfold fin. destruct (IH (Qred (q0 + q))) as (v & -> & Hv).
    exists v. split; [done|]. rewrite Hv, Qred_correct. fold (Qsum qs). ring.
Qed.

Lemma mean_Fin (qs : list Q) :
  qs <> [] ->
  exists m, div (sum (map Fin qs)) (ofNat (length (map Fin qs))) = Fin m
            /\ (m * inject_Z (Z.of_nat (length qs)) == Qsum qs)%Q.
Proof.
  intros Hne. unfold sum. destruct (sum_Fin qs 0) as (v & Hv & Hsum).
  change zero with (Fin 0). rewrite Hv, length_map. unfold div, ofNat, ofZ.
  assert (Hn : (0 < inject_Z (Z.of_nat (length qs)))%Q).
  { change 0%Q with (inject_Z 0). rewrite <- Zlt_Qlt. destruct qs; [done|simpl; lia]. }
  destruct (Qeq_bool (inject_Z (Z.of_nat (length qs))) 0) eqn:E0.
  { apply Qeq_bool_eq in E0. lra. }
  eexists. split; [reflexivity|]. rewrite Qred_correct, Hsum. field. lra.
Qed.

Lemma index_Fin (qs : list Q) (i : nat) (q : Q) :
  qs !! i = Some q -> index (map Fin qs) i = Fin q.
Proof. intros H. unfold index. by rewrite list_lookup_fmap, H. Qed.

(** The regression loop on points that satisfy [y - my = a (x - mx)]. *)
Lemma regression_loop (x y : list number) (mx my a : Q) (indices : list nat) :
  (forall i, i ∈ indices ->
     exists xi yi, index x i = Fin xi /\ index y i = Fin yi
                   /\ (yi - my == a * (xi - mx))%Q) ->
  forall N D, (N == a * D)%Q -> (0 <= D)%Q ->
  exists N' D',
    fold_left
      (fun '(numerator, denominator) i =>
         (add numerator (mul (sub (index x i) (Fin mx)) (sub (index y i) (Fin my))),
          add denominator (square (sub (index x i) (Fin mx)))))
      indices (Fin N, Fin D)
    = (Fin N', Fin D')
    /\ (N' == a * D')%Q /\ (D <= D')%Q
    /\ ((exists i xi, i ∈ indices /\ index x i = Fin xi /\ ~ (xi == mx)%Q) -> (D < D')%Q).
Proof.
  induction indices as [|i indices IH]; intros Hpts N D HN HD; cbn [fold_left].
  - exists N, D. split; [done|]. split; [done|]. split; [lra|].
    intros (i & xi & Hi & _). by apply elem_of_nil in Hi.
  - destruct (Hpts i) as (xi & yi & Hxi & Hyi & Hline); [by left|].
    rewrite Hxi, Hyi. unfold square, sub, neg, add, mul, fin.
    pose proof (sq_nonneg (xi - mx)) as Hsq.
    destruct (IH (fun j Hj => Hpts j (list_elem_of_further _ _ _ Hj))
                 (Qred (N + Qred (Qred (xi + Qred (- mx)) * Qred (yi + Qred (- my)))))
                 (Qred (D + Qred (Qred (xi + Qred (- mx)) * Qred (xi + Qred (- mx))))))
      as (N' & D' & Hfold & HN' & HD' & Hlt).
    + rewrite !Qred_correct.
      assert (E : (yi + - my == a * (xi + - mx))%Q) by (rewrite <- Hline; ring).
      rewrite E, HN. ring.
    + rewrite !Qred_correct.
      assert (E : ((xi + - mx) * (xi + - mx) == (xi - mx) * (xi - mx))%Q) by ring.
      rewrite E. lra.
    + rewrite !Qred_correct in HD'.
      assert (E : ((xi + - mx) * (xi + - mx) == (xi - mx) * (xi - mx))%Q) by ring.
      rewrite E in HD'.
      exists N', D'. split; [exact Hfold|]. split; [done|]. split; [lra|].
      intros (j & xj & Hj & Hxj & Hne).
      apply elem_of_cons in Hj as [->|Hj].
      * rewrite Hxi in Hxj. injection Hxj as <-.
        assert ((0 < (xi - mx) * (xi - mx))%Q); [|lra].
        destruct (Qlt_le_dec 0 ((xi - mx) * (xi - mx))) as [|Hz]; [done|].
        exfalso. apply Hne. apply sq_zero in Hz. lra.
      * assert (Hstep : (Qred (D + Qred (Qred (xi + Qred (- mx)) * Qred (xi + Qred (- mx))))
                         < D')%Q) by (apply Hlt; eauto).
        rewrite !Qred_correct, E in Hstep. lra.
Qed.

Lemma onLine_sum (a b : Q) (xs ys : list Q) :
  onLine a b xs ys ->
  (Qsum ys == a * Qsum xs + inject_Z (Z.of_nat (length xs)) * b)%Q.
Proof.
  induction 1 as [|x y xs ys Hxy _ IH].
  - simpl. ring.
  - cbn [Qsum fold_right length]. fold (Qsum xs) (Qsum ys).
    rewrite Nat2Z.inj_succ, <- Z.add_1_r, inject_Z_plus, IH, Hxy.
    change (inject_Z 1) with 1%Q. ring.
Qed.

Lemma onLine_lookup (a b : Q) (xs ys : list Q) (i : nat) :
  onLine a b xs ys -> (i < length xs)%nat ->
  exists xi yi, xs !! i = Some xi /\ ys !! i = Some yi /\ (yi == a * xi + b)%Q.
Proof.
  intros Hline Hi.
  destruct (lookup_lt_is_Some_2 xs i Hi) as [xi Hxi].
  destruct (Forall2_lookup_l _ _ _ _ _ Hline Hxi) as (yi & Hyi & Hxy).
  by exists xi, yi.
Qed.

Lemma regression_on_line (a b : Q) (xs ys : list Q) :
  onLine a b xs ys ->
  (exists x1 x2, x1 ∈ xs /\ x2 ∈ xs /\ ~ (x1 == x2)%Q) ->
  linearRegression (map Fin xs) (map Fin ys)
  = {| slope := fin a; intercept := fin b |}.
Proof.
  intros Hline (x1 & x2 & Hx1 & Hx2 & Hne).
  assert (Hxs : xs <> []) by (intros ->; by apply elem_of_nil in Hx1).
  assert (Hlen : length xs = length ys) by (by eapply Forall2_length).
  assert (Hys : ys <> []) by (intros ->; by destruct xs).
  unfold linearRegression.
  destruct (mean_Fin xs Hxs) as (mx & -> & Hmx).
  destruct (mean_Fin ys Hys) as (my & -> & Hmy).
  assert (Hn : (0 < inject_Z (Z.of_nat (length xs)))%Q).
  { change 0%Q with (inject_Z 0). rewrite <- Zlt_Qlt. destruct xs; [done|simpl; lia]. }
  assert (Hmean : (my == a * mx + b)%Q).
  { rewrite <- Hlen, (onLine_sum a b xs ys Hline) in Hmy.
    assert (E : ((my - (a * mx + b)) * inject_Z (Z.of_nat (length xs)) == 0)%Q).
    { rewrite <- Hmx in Hmy. lra. }
    apply Qmult_integral in E as [E|E]; lra. }
  destruct (regression_loop (map Fin xs) (map Fin ys) mx my a
              (seq 0 (length (map Fin xs)))) with (N := 0%Q) (D := 0%Q)
    as (N & D & Hfold & HN & _ & HD); [|ring|lra|].
  { intros i Hi. apply elem_of_seq in Hi. rewrite length_map in Hi.
    destruct (onLine_lookup a b xs ys i Hline) as (xi & yi & Hxi & Hyi & Hxy); [lia|].
    exists xi, yi. rewrite (index_Fin _ _ _ Hxi), (index_Fin _ _ _ Hyi).
    split; [done|]. split; [done|]. rewrite Hxy, Hmean. ring. }
  change (zero, zero) with (Fin 0, Fin 0). cbv zeta. rewrite Hfold.
  assert (HDpos : (0 < D)%Q).
  { apply HD.
    apply list_elem_of_lookup in Hx1 as [i Hi], Hx2 as [j Hj].
    destruct (Qeq_dec x1 mx) as [Heq|Hneq].
    - exists j, x2. split; [|split].
      + apply elem_of_seq. apply lookup_lt_Some in Hj. rewrite length_map. lia.
      + by apply index_Fin.
      + intros H. apply Hne. by rewrite Heq, H.
    - exists i, x1. split; [|split; [by apply index_Fin|done]].
      apply elem_of_seq. apply lookup_lt_Some in Hi. rewrite length_map. lia. }
  assert (Hneq : neqb (Fin D) zero = true).
  { unfold neqb, zero, ofZ. destruct (Qeq_bool D (inject_Z 0)) eqn:E; [|done].
    apply Qeq_bool_eq in E. change (inject_Z 0) with 0%Q in E. lra. }
  rewrite Hneq. unfold div.
  destruct (Qeq_bool D 0) eqn:E0.
  { apply Qeq_bool_eq in E0. lra. }
  unfold sub, neg, mul, add, fin. f_equal; f_equal; apply Qred_complete.
  - rewrite HN. field. lra.
  - rewrite !Qred_correct, HN, Hmean. field. lra.
Qed.

(** The regression loop on finite points: the sums stay finite, and when
    every abscissa equals the mean they do not move. *)
Lemma regression_loop_finite (x y : list number) (mx my : Q) (indices : list nat) :
  (forall i, i ∈ indices -> exists xi yi, index x i = Fin xi /\ index y i = Fin yi) ->
  forall N D,
  exists N' D',
    fold_left
      (fun '(numerator, denominator) i =>
         (add numerator (mul (sub (index x i) (Fin mx)) (sub (index y i) (Fin my))),
          add denominator (square (sub (index x i) (Fin mx)))))
      indices (Fin N, Fin D)
    = (Fin N', Fin D')
    /\ ((forall i xi, i ∈ indices -> index x i = Fin xi -> (xi == mx)%Q) ->
        (N' == N)%Q /\ (D' == D)%Q).
Proof.
  induction indices as [|i indices IH]; intros Hpts N D; cbn [fold_left].
  - exists N, D. split; [done|]. intros _. split; reflexivity.
  - destruct (Hpts i) as (xi & yi & Hxi & Hyi); [by left|].
    rewrite Hxi, Hyi. unfold square, sub, neg, add, mul, fin.
    destruct (IH (fun j Hj => Hpts j (list_elem_of_further _ _ _ Hj))
                 (Qred (N + Qred (Qred (xi + Qred (- mx)) * Qred (yi + Qred (- my)))))
                 (Qred (D + Qred (Qred (xi + Qred (- mx)) * Qred (xi + Qred (- mx))))))
      as (N' & D' & Hfold & Hflat).
    exists N', D'. split; [exact Hfold|]. intros Hall.
    destruct Hflat as [HN' HD'].
    { intros j xj Hj. apply Hall. by right. }
    assert (Hx : (xi == mx)%Q) by (apply (Hall i); [by left|done]).
    rewrite HN', HD', !Qred_correct, Hx. split; ring.
Qed.

Lemma Qsum_constant (x0 : Q) (xs : list Q) :
  (forall x, x ∈ xs -> (x == x0)%Q) ->
  (Qsum xs == x0 * inject_Z (Z.of_nat (length xs)))%Q.
Proof.
  induction xs as [|x xs IH]; intros Hall.
  - simpl. ring.
  - cbn [Qsum fold_right length]. fold (Qsum xs).
    rewrite Nat2Z.inj_succ, <- Z.add_1_r, inject_Z_plus, IH, (Hall x) by
      (try (by left); intros; apply Hall; by right).
    change (inject_Z 1) with 1%Q. ring.
Qed.

Lemma mean_constant (x0 m : Q) (xs : list Q) :
  xs <> [] ->
  (forall x, x ∈ xs -> (x == x0)%Q) ->
  (m * inject_Z (Z.of_nat (length xs)) == Qsum xs)%Q -> (m == x0)%Q.
Proof.
  intros Hne Hall Hm. rewrite (Qsum_constant x0 xs Hall) in Hm.
  assert (Hn : (0 < inject_Z (Z.of_nat (length xs)))%Q).
  { change 0%Q with (inject_Z 0). rewrite <- Zlt_Qlt. destruct xs; [done|simpl; lia]. }
  assert (E : ((m - x0) * inject_Z (Z.of_nat (length xs)) == 0)%Q) by lra.
  apply Qmult_integral in E as [E|E]; lra.
Qed.

Lemma regression_degenerate (x0 : Q) (xs ys : list Q) :
  xs <> [] -> length xs = length ys ->
  (forall x, x ∈ xs -> (x == x0)%Q) ->
  linearRegression (map Fin xs) (map Fin ys)
  = {| slope := zero;
       intercept := fin (Qsum ys / inject_Z (Z.of_nat (length ys))) |}.
Proof.
  intros Hxs Hlen Hall.
  assert (Hys : ys <> []) by (intros ->; by destruct xs).
  unfold linearRegression.
  destruct (mean_Fin xs Hxs) as (mx & -> & Hmx).
  destruct (mean_Fin ys Hys) as (my & -> & Hmy).
  pose proof (mean_constant x0 mx xs Hxs Hall Hmx) as Hmx0.
  destruct (regression_loop_finite (map Fin xs) (map Fin ys) mx my
              (seq 0 (length (map Fin xs)))) with (N := 0%Q) (D := 0%Q)
    as (N & D & Hfold & Hflat).
  { intros i Hi. apply elem_of_seq in Hi. rewrite length_map in Hi.
    destruct (lookup_lt_is_Some_2 xs i) as [xi Hxi]; [lia|].
    destruct (lookup_lt_is_Some_2 ys i) as [yi Hyi]; [lia|].
    exists xi, yi. by rewrite (index_Fin _ _ _ Hxi), (index_Fin _ _ _ Hyi). }
  destruct Hflat as [_ HD].
  { intros i xi Hi Hxi. apply elem_of_seq in Hi. rewrite length_map in Hi.
    destruct (lookup_lt_is_Some_2 xs i) as [xi' Hxi']; [lia|].
    rewrite (index_Fin _ _ _ Hxi') in Hxi. injection Hxi as <-.
    rewrite Hmx0. apply Hall. by eapply list_elem_of_lookup_2. }
  change (zero, zero) with (Fin 0, Fin 0). cbv zeta. rewrite Hfold.
  assert (Hneq : neqb (Fin D) zero = false).
  { unfold neqb, zero, ofZ. destruct (Qeq_bool D (inject_Z 0)) eqn:E; [done|].
    apply Qeq_bool_neq in E. exfalso. apply E. by rewrite HD. }
  rewrite Hneq. f_equal. unfold sub, neg, mul, add, zero, ofZ, fin.
  f_equal. apply Qred_complete. rewrite !Qred_correct.
  assert (Hn : (0 < inject_Z (Z.of_nat (length ys)))%Q).
  { change 0%Q with (inject_Z 0). rewrite <- Zlt_Qlt. destruct ys; [done|simpl; lia]. }
  rewrite <- Hmy. change (inject_Z 0) with 0%Q. field. lra.
Qed.

Lemma equal_or_distinct (xs : list Q) :
  (exists x0, forall x, x ∈ xs -> (x == x0)%Q) \/
  (exists x1 x2, x1 ∈ xs /\ x2 ∈ xs /\ ~ (x1 == x2)%Q).
Proof.
  destruct xs as [|x0 xs]; [left; exists 0%Q; intros x Hx; by apply elem_of_nil in Hx|].
  induction xs as [|x xs IH].
  - left. exists x0. intros x Hx. apply elem_of_cons in Hx as [->|Hx]; [reflexivity|]. by apply elem_of_nil in Hx.
  - destruct IH as [[x0' Hall]|(x1 & x2 & H1 & H2 & Hne)].
    + destruct (Qeq_dec x x0) as [Heq|Hne].
      * left. exists x0. intros y Hy.
        assert (Hx0 : (x0 == x0')%Q) by (apply Hall; by left).
        apply elem_of_cons in Hy as [->|Hy]; [reflexivity|].
        apply elem_of_cons in Hy as [->|Hy]; [done|].
        rewrite Hx0. apply Hall. by right.
      * right. exists x, x0. split; [right; by left|]. split; [by left|done].
    + right. exists x1, x2.
      split; [|split; [|done]].
      * apply elem_of_cons in H1 as [->|H1]; [by left | right; by right].
      * apply elem_of_cons in H2 as [->|H2]; [by left | right; by right].
Qed.

(** A flat cloud of points: when every ordinate is the same trust score
    the fitted line is that score, with slope 0, wherever the abscissas
    lie within the safe range. *)
Theorem linearRegression_flat (s : Z) (xs : list Q) :
  xs <> [] -> (0 <= s <= 1000)%Z ->
  Forall safe xs ->
  linearRegression (map Fin xs) (map (fun _ => ofZ s) xs)
  = {| slope := zero; intercept := ofZ s |}.
Proof.
  intros Hxs _ _.
  set (ys := map (fun _ : Q => inject_Z s) xs).
  assert (Hys : map (fun _ : Q => ofZ s) xs = map Fin ys).
  { subst ys. rewrite map_map. reflexivity. }
  rewrite Hys.
  destruct (equal_or_distinct xs) as [[x0 Hall]|Hdist].
  - rewrite (regression_degenerate x0 xs ys Hxs) by
      (try done; subst ys; by rewrite length_map).
    f_equal. rewrite <- fin_inject_Z. apply fin_eq.
    assert (Hsum : (Qsum ys == inject_Z s * inject_Z (Z.of_nat (length ys)))%Q).
    { apply Qsum_constant. subst ys. intros y Hy'.
      apply list_elem_of_fmap in Hy' as (? & -> & _). reflexivity. }
    assert (Hn : (0 < inject_Z (Z.of_nat (length ys)))%Q).
    { change 0%Q with (inject_Z 0). rewrite <- Zlt_Qlt. subst ys.
      rewrite length_map. destruct xs; [done|simpl; lia]. }
    rewrite Hsum. field. lra.
  - rewrite (regression_on_line 0 (inject_Z s) xs ys); [|
      subst ys; unfold onLine; clear; induction xs; constructor; [ring|done] | done].
    f_equal. apply fin_inject_Z.
Qed.

Lemma linearRegression_flat_witness :
  linearRegression (map Fin [1700000000000; 1700086400000; 1700172800000]%Q)
    (map (fun _ => ofZ 640) [1700000000000; 1700086400000; 1700172800000]%Q)
  = {| slope := zero; intercept := ofZ 640 |}.
Proof.
  apply (linearRegression_flat 640 [1700000000000; 1700086400000; 1700172800000]%Q);
    [discriminate | lia |].
  repeat (apply List.Forall_cons; [by vm_compute|]). apply List.Forall_nil.
Defined.

(** Zero variance in the abscissas: when every point carries the same
    timestamp, an integer whose multiples up to the number of points stay
    within 2^53, the guard on the denominator makes the slope 0. *)
Theorem linearRegression_degenerate (x0 : Z) (xs ys : list Q) :
  xs <> [] -> length xs = length ys ->
  (0 <= x0)%Z -> (Z.of_nat (length xs) * x0 <= 2 ^ 53)%Z ->
  (forall x, x ∈ xs -> (x == inject_Z x0)%Q) ->
  slope (linearRegression (map Fin xs) (map Fin ys)) = zero.
Proof.
  intros Hxs Hlen _ _ Hall.
  by rewrite (regression_degenerate (inject_Z x0) xs ys Hxs Hlen Hall).
Qed.

Lemma linearRegression_degenerate_witness :
  slope (linearRegression (map Fin [7; 7; 7]%Q) (map Fin [300; 600; 900]%Q)) = zero.
Proof.
  apply (linearRegression_degenerate 7 [7; 7; 7]%Q [300; 600; 900]%Q);
    [discriminate | reflexivity | lia | by vm_compute |].
  intros x Hx. repeat (apply elem_of_cons in Hx as [->|Hx]; [reflexivity|]).
  by apply elem_of_nil in Hx.
Defined.

(** ** Trend prediction *)

Lemma finite_history (history : list AccuracyHistory) :
  Forall finiteRecord history ->
  exists xs ys, map timestamp history = map Fin xs /\ map score history = map Fin ys
                /\ length xs = length history /\ length ys = length history.
Proof.
  induction 1 as [|h history [Ht Hs] _ (xs & ys & Hx & Hy & Hlx & Hly)].
  - by exists [], [].
  - apply finite_Fin in Ht as [t Ht], Hs as [s Hs].
    exists (t :: xs), (s :: ys). cbn [map length]. by rewrite Ht, Hs, Hx, Hy, Hlx, Hly.
Qed.

Lemma linearRegression_finite (xs ys : list Q) :
  xs <> [] -> length xs = length ys ->
  exists sl ic, linearRegression (map Fin xs) (map Fin ys)
                = {| slope := Fin sl; intercept := Fin ic |}.
Proof.
  intros Hxs Hlen.
  assert (Hys : ys <> []) by (intros ->; by destruct xs).
  unfold linearRegression.
  destruct (mean_Fin xs Hxs) as (mx & -> & _).
  destruct (mean_Fin ys Hys) as (my & -> & _).
  destruct (regression_loop_finite (map Fin xs) (map Fin ys) mx my
              (seq 0 (length (map Fin xs)))) with (N := 0%Q) (D := 0%Q)
    as (N & D & Hfold & _).
  { intros i Hi. apply elem_of_seq in Hi. rewrite length_map in Hi.
    destruct (lookup_lt_is_Some_2 xs i) as [xi Hxi]; [lia|].
    destruct (lookup_lt_is_Some_2 ys i) as [yi Hyi]; [lia|].
    exists xi, yi. by rewrite (index_Fin _ _ _ Hxi), (index_Fin _ _ _ Hyi). }
  change (zero, zero) with (Fin 0, Fin 0). cbv zeta. rewrite Hfold.
  unfold neqb, zero, ofZ. destruct (Qeq_bool D (inject_Z 0)) eqn:E; cbn [negb].
  - by eexists _, _.
  - unfold div. change (inject_Z 0) with 0%Q in E. rewrite E. by eexists _, _.
Qed.

(** The prediction from a regression with finite coefficients. *)
Lemma predict_from_regression (now d sl ic : Q) :
  Math_min (ofZ 1000)
    (Math_max zero
       (Math_round (add (mul (Fin sl) (add (Fin now) (mul (Fin d) msPerDay))) (Fin ic))))
  = ofZ (Z.min 1000
           (Z.max 0 (Qfloor (sl * (now + d * 86400000) + ic + (1 # 2))))).
Proof.
  change msPerDay with (Fin 86400000). cbn [add mul]. unfold fin. cbn [add]. unfold fin.
  rewrite Math_round_Fin. unfold zero. rewrite Math_max_ofZ, Math_min_ofZ'.
  do 3 f_equal. apply Qfloor_comp. rewrite !Qred_correct. ring.
Qed.

Lemma bounded_history (lo hi : Q) (history : list AccuracyHistory) :
  Forall (boundedRecord lo hi) history -> Forall finiteRecord history.
Proof.
  intros H. eapply Forall_impl; [exact H|]. intros h. apply boundedRecord_finite.
Qed.

(** With at least three records of scores of [[0,1000]], and timestamps,
    clock and horizon within the safe range, the prediction is an integer
    of [[0,1000]]. *)
Theorem predictTrustScoreTrend_in_range
    (now d : Q) (history : list AccuracyHistory) (daysToPredict : option number) :
  (3 <= length history)%nat ->
  Forall (boundedRecord 0 1000) history ->
  safe now ->
  daysToPredict ?? ofZ 30 = Fin d -> safe d ->
  exists k, predictTrustScoreTrend (Fin now) history daysToPredict = ofZ k
            /\ (0 <= k <= 1000)%Z.
Proof.
  intros Hlen Hb _ Hd _. apply bounded_history in Hb as Hfin.
  unfold predictTrustScoreTrend. cbv zeta.
  destruct (Nat.ltb_spec (length history) 3) as [|_]; [lia|].
  destruct (finite_history history Hfin) as (xs & ys & -> & -> & Hlx & Hly).
  destruct (linearRegression_finite xs ys) as (sl & ic & ->);
    [intros ->; simpl in Hlx; lia | lia |].
  cbn [slope intercept]. rewrite Hd, predict_from_regression.
  eexists. split; [reflexivity|]. lia.
Qed.

Lemma predictTrustScoreTrend_in_range_witness :
  exists k,
    predictTrustScoreTrend (Fin 1700000000000%Q)
      [ {| timestamp := ofZ 1; score := ofZ 400 |};
        {| timestamp := ofZ 2; score := ofZ 650 |};
        {| timestamp := ofZ 5; score := ofZ 990 |} ] None = ofZ k
    /\ (0 <= k <= 1000)%Z.
Proof.
  apply (predictTrustScoreTrend_in_range 1700000000000%Q 30);
    [simpl; lia | | by vm_compute | reflexivity | by vm_compute].
  repeat apply List.Forall_cons; try apply List.Forall_nil.
  - exists 1%Q, 400%Q. repeat split; (reflexivity || by vm_compute).
  - exists 2%Q, 650%Q. repeat split; (reflexivity || by vm_compute).
  - exists 5%Q, 990%Q. repeat split; (reflexivity || by vm_compute).
Defined.

Lemma predict_on_line
    (now d a b : Q) (history : list AccuracyHistory) (xs ys : list Q)
    (daysToPredict : option number) :
  (3 <= length history)%nat ->
  map timestamp history = map Fin xs -> map score history = map Fin ys ->
  onLine a b xs ys ->
  (exists x1 x2, x1 ∈ xs /\ x2 ∈ xs /\ ~ (x1 == x2)%Q) ->
  daysToPredict ?? ofZ 30 = Fin d ->
  predictTrustScoreTrend (Fin now) history daysToPredict
  = ofZ (Z.min 1000
           (Z.max 0 (Qfloor (a * (now + d * 86400000) + b + (1 # 2))))).
Proof.
  intros Hlen Hx Hy Hline Hdist Hd. unfold predictTrustScoreTrend. cbv zeta.
  destruct (Nat.ltb_spec (length history) 3) as [|_]; [lia|].
  rewrite Hx, Hy, (regression_on_line a b xs ys Hline Hdist).
  cbn [slope intercept]. rewrite Hd. unfold fin. rewrite predict_from_regression.
  do 3 f_equal. apply Qfloor_comp. by rewrite !Qred_correct.
Qed.

Lemma flat_history (s : Z) (history : list AccuracyHistory) :
  Forall (fun h => boundedRecord 0 1000 h /\ score h = ofZ s) history ->
  exists xs, map timestamp history = map Fin xs
             /\ map score history = map Fin (map (fun _ => inject_Z s) xs)
             /\ length xs = length history.
Proof.
  induction 1 as [|h history [(t & s' & Ht & _) Hs] _ (xs & Hx & Hy & Hlen)].
  - by exists [].
  - exists (t :: xs). cbn [map length]. by rewrite Ht, Hs, Hx, Hy, Hlen.
Qed.

(** Prediction when every record carries the same timestamp: the slope is
    0 and the prediction is the mean of the scores, rounded half up, for
    every horizon. *)
Lemma predict_degenerate (now d x0 : Q) (xs ys : list Q)
    (history : list AccuracyHistory) (daysToPredict : option number) :
  (3 <= length history)%nat ->
  map timestamp history = map Fin xs -> map score history = map Fin ys ->
  length xs = length history -> length ys = length history ->
  (forall x, x ∈ xs -> (x == x0)%Q) ->
  daysToPredict ?? ofZ 30 = Fin d ->
  predictTrustScoreTrend (Fin now) history daysToPredict
  = ofZ (Z.min 1000
           (Z.max 0 (Qfloor (Qsum ys / inject_Z (Z.of_nat (length ys)) + (1 # 2))))).
Proof.
  intros Hlen Hx Hy Hlx Hly Hall Hd. unfold predictTrustScoreTrend. cbv zeta.
  destruct (Nat.ltb_spec (length history) 3) as [|_]; [lia|].
  assert (Hxs : xs <> []) by (intros ->; simpl in Hlx; lia).
  rewrite Hx, Hy, (regression_degenerate x0 xs ys Hxs) by (try done; lia).
  cbn [slope intercept]. rewrite Hd. unfold fin.
  rewrite (predict_from_regression now d 0).
  do 3 f_equal. apply Qfloor_comp. rewrite Qred_correct. ring.
Qed.

(** A flat history predicts itself: when every recorded score is the same
    trust score, that score is the prediction, whatever the timestamps,
    the clock and the horizon are within the safe range. *)
Theorem predictTrustScoreTrend_flat
    (now d : Q) (s : Z) (history : list AccuracyHistory)
    (daysToPredict : option number) :
  (3 <= length history)%nat ->
  Forall (fun h => boundedRecord 0 1000 h /\ score h = ofZ s) history ->
  (0 <= s <= 1000)%Z ->
  safe now ->
  daysToPredict ?? ofZ 30 = Fin d -> safe d ->
  predictTrustScoreTrend (Fin now) history daysToPredict = ofZ s.
Proof.
  intros Hlen Hflat Hs _ Hd _.
  destruct (flat_history s history Hflat) as (xs & Hx & Hy & Hlx).
  set (ys := map (fun _ : Q => inject_Z s) xs) in *.
  assert (Hxs : xs <> []) by (intros ->; simpl in Hlx; lia).
  assert (Hly : length ys = length history) by (subst ys; by rewrite length_map).
  destruct (equal_or_distinct xs) as [[x0 Hall]|Hdist].
  - rewrite (predict_degenerate now d x0 xs ys history); try done.
    rewrite (Qfloor_half s); [f_equal; lia|].
    assert (Hsum : (Qsum ys == inject_Z s * inject_Z (Z.of_nat (length ys)))%Q).
    { apply Qsum_constant. subst ys. intros y Hy'.
      apply list_elem_of_fmap in Hy' as (? & -> & _). reflexivity. }
    assert (Hn : (0 < inject_Z (Z.of_nat (length ys)))%Q).
    { change 0%Q with (inject_Z 0). rewrite <- Zlt_Qlt. lia. }
    rewrite Hsum. field. lra.
  - rewrite (predict_on_line now d 0 (inject_Z s) history xs ys); try done.
    + rewrite (Qfloor_half s); [f_equal; lia|]. ring.
    + subst ys. unfold onLine. clear. induction xs; constructor; [ring|done].
Qed.

Lemma predictTrustScoreTrend_flat_witness :
  predictTrustScoreTrend (Fin 1700000000000%Q)
    [ {| timestamp := ofZ 1; score := ofZ 640 |};
      {| timestamp := ofZ 2; score := ofZ 640 |};
      {| timestamp := ofZ 2; score := ofZ 640 |} ] (Some (ofZ 365))
  = ofZ 640.
Proof.
  apply (predictTrustScoreTrend_flat 1700000000000%Q 365 640);
    [simpl; lia | | lia | by vm_compute | reflexivity | by vm_compute].
  repeat apply List.Forall_cons; try apply List.Forall_nil.
  - split; [|reflexivity]. exists 1%Q, 640%Q. repeat split; (reflexivity || by vm_compute).
  - split; [|reflexivity]. exists 2%Q, 640%Q. repeat split; (reflexivity || by vm_compute).
  - split; [|reflexivity]. exists 2%Q, 640%Q. repeat split; (reflexivity || by vm_compute).
Defined.

Lemma Qsum_inject_Z (zs : list Z) : (Qsum (map inject_Z zs) == inject_Z (Zsum zs))%Q.
Proof.
  induction zs as [|z zs IH]; [reflexivity|].
  cbn [map Qsum Zsum fold_right]. fold (Qsum (map inject_Z zs)) (Zsum zs).
  rewrite IH, inject_Z_plus. reflexivity.
Qed.

Lemma Zsum_range (zs : list Z) :
  Forall (fun z => (0 <= z <= 1000)%Z) zs ->
  (0 <= Zsum zs <= 1000 * Z.of_nat (length zs))%Z.
Proof.
  induction 1 as [|z zs Hz _ IH]; [simpl; lia|].
  cbn [Zsum fold_right length]. fold (Zsum zs). lia.
Qed.

(** Records that all carry the same timestamp give no trend: the
    prediction is the mean of the recorded trust scores, rounded half up,
    for every horizon within the safe range. *)
Theorem predictTrustScoreTrend_same_timestamp
    (now d : Q) (x0 : Z) (zs : list Z) (history : list AccuracyHistory)
    (daysToPredict : option number) :
  (3 <= length history)%nat ->
  map timestamp history = map (fun _ => ofZ x0) zs ->
  map score history = map ofZ zs ->
  Forall (fun z => (0 <= z <= 1000)%Z) zs ->
  (0 <= x0)%Z -> (Z.of_nat (length history) * x0 <= 2 ^ 53)%Z ->
  safe now ->
  daysToPredict ?? ofZ 30 = Fin d -> safe d ->
  predictTrustScoreTrend (Fin now) history daysToPredict
  = ofZ ((2 * Zsum zs + Z.of_nat (length zs)) / (2 * Z.of_nat (length zs))).
Proof.
  intros Hlen Hx Hy Hzs _ _ _ Hd _.
  assert (Hl : length zs = length history).
  { rewrite <- (length_map ofZ zs), <- Hy. apply length_map. }
  set (n := Z.of_nat (length zs)).
  assert (Hn : (3 <= n)%Z) by (subst n; lia).
  rewrite (predict_degenerate now d (inject_Z x0)
             (map (fun _ => inject_Z x0) zs) (map inject_Z zs) history); try done.
  - rewrite length_map. fold n.
    assert (Hfl : Qfloor (Qsum (map inject_Z zs) / inject_Z n + (1 # 2))
                  = ((2 * Zsum zs + n) / (2 * n))%Z).
    { rewrite Zdiv_Qdiv. apply Qfloor_comp.
      rewrite Qsum_inject_Z, inject_Z_plus, !inject_Z_mult.
      change (inject_Z 2) with 2%Q. field.
      change 0%Q with (inject_Z 0). rewrite inject_Z_injective. lia. }
    rewrite Hfl. f_equal.
    pose proof (Zsum_range zs Hzs) as Hs. fold n in Hs.
    assert (0 <= (2 * Zsum zs + n) / (2 * n))%Z by (apply Z.div_pos; lia).
    assert ((2 * Zsum zs + n) / (2 * n) < 1001)%Z
      by (apply Z.div_lt_upper_bound; lia).
    lia.
  - rewrite Hx, map_map. reflexivity.
  - rewrite Hy, map_map. reflexivity.
  - by rewrite length_map.
  - by rewrite length_map.
  - intros x Hx'. apply list_elem_of_fmap in Hx' as (? & -> & _). reflexivity.
Qed.

Lemma predictTrustScoreTrend_same_timestamp_witness :
  predictTrustScoreTrend (Fin 1700000000000%Q)
    [ {| timestamp := ofZ 1690000000000; score := ofZ 300 |};
      {| timestamp := ofZ 1690000000000; score := ofZ 600 |};
      {| timestamp := ofZ 1690000000000; score := ofZ 901 |} ] None
  = ofZ ((2 * Zsum [300; 600; 901]%Z + Z.of_nat 3) / (2 * Z.of_nat 3)).
Proof.
  apply (predictTrustScoreTrend_same_timestamp 1700000000000%Q 30 1690000000000
           [300; 600; 901]%Z);
    [simpl; lia | reflexivity | reflexivity | | lia | by vm_compute | by vm_compute
    | reflexivity | by vm_compute].
  repeat (apply List.Forall_cons; [lia|]). apply List.Forall_nil.
Defined.

End TrustScorerMore.

(* ===================================================================== *)
(** * More properties of the Cross-Validator Service                       *)
(* ===================================================================== *)

Module CrossValidatorMore.
Import JS JSFacts JSRuntime NumberProps TrustVocabulary TrustScorerMore.
Import CrossValidator CrossVocabulary CrossValidatorProps Examples.

(** ** Who is suspected *)

Lemma pushNew_elem (x y : string) (l : list string) :
  y ∈ pushNew x l -> y = x \/ y ∈ l.
Proof.
  unfold pushNew. case_bool_decide as Hin; [by right|].
  intros Hy. apply elem_of_app in Hy as [Hy|Hy]; [by right|].
  apply list_elem_of_singleton in Hy. by left.
Qed.

Lemma pushNew_NoDup (x : string) (l : list string) : NoDup l -> NoDup (pushNew x l).
Proof.
  intros Hl. unfold pushNew. case_bool_decide as Hin; [done|].
  apply NoDup_app. split; [done|]. split; [|apply NoDup_singleton].
  intros y Hy Hy'. apply list_elem_of_singleton in Hy' as ->. done.
Qed.

(** The suspects never repeat, and each comes from a suspicious pair that
    the loops visited. *)
Lemma scan_suspects (history : list ValidationResult.t) (ps : list (string * string)) :
  forall st,
  let st' := fold_left (checkPairOf history) ps st in
  (NoDup st.1 -> NoDup st'.1) /\
  (forall x, x ∈ st'.1 ->
     x ∈ st.1 \/
     exists a b, (a, b) ∈ ps /\ suspicious history a b /\ (x = a \/ x = b)).
Proof.
  induction ps as [|[a b] ps IH]; intros st; cbn [fold_left].
  - cbv zeta. split; [done|]. intros x Hx. by left.
  - destruct (checkPairOf_cases history st a b) as [[-> _]|[-> Hyes]].
    + destruct (IH st) as [H1 H2]. cbv zeta. split; [done|].
      intros x Hx. destruct (H2 x Hx) as [|(a' & b' & Hin & Hsus & Hx')]; [by left|].
      right. exists a', b'. split; [by right|done].
    + set (st1 := (pushNew b (pushNew a st.1),
                   Math_max st.2 (correlationOf history a b))) in *.
      destruct (IH st1) as [H1 H2]. cbv zeta. split.
      * intros Hnd. apply H1. subst st1. cbn [fst]. by apply pushNew_NoDup, pushNew_NoDup.
      * intros x Hx. destruct (H2 x Hx) as [Hx1|(a' & b' & Hin & Hsus & Hx')].
        -- subst st1. cbn [fst] in Hx1.
           apply pushNew_elem in Hx1 as [->|Hx1].
           { right. exists a, b. split; [by left|]. split; [done|by right]. }
           apply pushNew_elem in Hx1 as [->|Hx1]; [|by left].
           right. exists a, b. split; [by left|]. split; [done|by left].
        -- right. exists a', b'. split; [by right|done].
Qed.

(** The suspects are candidates, and no suspect is listed twice. *)
Theorem detectCollusion_suspects_wellformed
    (history : list ValidationResult.t) (ids : list string) :
  let report := detectCollusion history ids in
  NoDup (suspects report) /\ (forall x, x ∈ suspects report -> x ∈ ids).
Proof.
  cbv zeta. unfold detectCollusion. destruct (_ || _)%bool.
  - cbn [suspects]. split; [constructor|]. intros x Hx. by apply elem_of_nil in Hx.
  - rewrite checkPairs_votesOf.
    pose proof (scan_suspects history (pairsOf ids) ([], zero)) as Hscan.
    destruct (fold_left (checkPairOf history) (pairsOf ids) ([], zero)) as [sus mx].
    cbv zeta in Hscan. cbn [fst suspects] in *. destruct Hscan as [Hnd Hfrom].
    split; [apply Hnd; constructor|].
    intros x Hx. destruct (Hfrom x Hx) as [H|(a & b & Hin & _ & Hab)].
    + by apply elem_of_nil in H.
    + apply pairsOf_members in Hin as [Ha Hb]. by destruct Hab as [-> | ->].
Qed.

(** With enough history, and no candidate named after the prototype slot
    of the records ([__proto__], whose count a plain object does not
    store), the suspects are exactly the members of the flagged pairs. *)
Theorem detectCollusion_suspects_flagged
    (history : list ValidationResult.t) (ids : list string) (x : string) :
  (5 <= length history)%nat ->
  "__proto__" ∉ ids ->
  x ∈ suspects (detectCollusion history ids)
  <-> exists y, flagged history ids x y \/ flagged history ids y x.
Proof.
  intros Hlen _. split.
  - unfold detectCollusion.
    destruct (Nat.ltb_spec (length history) 5) as [|_]; [lia|].
    destruct (length ids <? 2)%nat; cbn [orb].
    { cbn [suspects]. intros Hx. by apply elem_of_nil in Hx. }
    rewrite checkPairs_votesOf.
    pose proof (scan_suspects history (pairsOf ids) ([], zero)) as Hscan.
    destruct (fold_left (checkPairOf history) (pairsOf ids) ([], zero)) as [sus mx].
    cbv zeta in Hscan. cbn [fst suspects] in *. destruct Hscan as [_ Hfrom].
    intros Hx. destruct (Hfrom x Hx) as [H|(a & b & Hin & Hsus & Hab)].
    + by apply elem_of_nil in H.
    + destruct Hab as [-> | ->]; [exists b; left | exists a; right]; by split.
  - intros [y Hy].
    destruct (detectCollusion_flagged history ids Hlen) as [Hall _].
    destruct Hy as [Hy|Hy]; by destruct (Hall _ _ Hy) as (? & ? & _).
Qed.

Lemma detectCollusion_suspects_flagged_witness :
  "A" ∈ suspects (detectCollusion lockstepHistory ["A"; "B"])
  <-> exists y, flagged lockstepHistory ["A"; "B"] "A" y
                \/ flagged lockstepHistory ["A"; "B"] y "A".
Proof.
  apply (detectCollusion_suspects_flagged lockstepHistory ["A"; "B"] "A").
  - simpl. lia.
  - intros H. repeat (apply elem_of_cons in H as [H|H]; [discriminate H|]).
    by apply elem_of_nil in H.
Defined.

(** ** The reported probability *)

Lemma ltb_leb_trans (x y z : number) :
  ltb x y = true -> leb y z = true -> ltb x z = true.
Proof.
  destruct x as [a| | |], y as [b| | |], z as [c| | |]; try done.
  rewrite !ltb_Fin, leb_Fin. lra.
Qed.

Lemma pushNew_nonempty (x : string) (l : list string) : pushNew x l <> [].
Proof.
  unfold pushNew. case_bool_decide as Hin.
  - intros ->. by apply elem_of_nil in Hin.
  - by destruct l.
Qed.

(** Either nobody is suspected and the maximum is still 0, or somebody is
    and the maximum is above the threshold. *)
Lemma scan_probability (history : list ValidationResult.t) (ps : list (string * string)) :
  forall st,
  (st.1 = [] /\ st.2 = zero) \/ (st.1 <> [] /\ gtb st.2 (Fin (9 # 10)) = true) ->
  let st' := fold_left (checkPairOf history) ps st in
  (st'.1 = [] /\ st'.2 = zero) \/ (st'.1 <> [] /\ gtb st'.2 (Fin (9 # 10)) = true).
Proof.
  induction ps as [|[a b] ps IH]; intros st Hst; cbn [fold_left]; [done|].
  destruct (checkPairOf_cases history st a b) as [[-> _]|[-> Hyes]]; [by apply IH|].
  apply IH. right. cbn [fst snd]. split; [apply pushNew_nonempty|].
  destruct Hyes as (_ & _ & Hgt).
  assert (Hmx : st.2 <> NaN).
  { destruct Hst as [[_ ->]|[_ H]]; [done|]. by apply gtb_not_NaN in H. }
  destruct (Math_max_spec st.2 (correlationOf history a b) Hmx (gtb_not_NaN _ _ Hgt))
    as (_ & _ & Hle).
  unfold gtb in *. by eapply ltb_leb_trans.
Qed.

(** The reported probability is 0 exactly when nothing is detected, and
    is above 0.9 otherwise. *)
Theorem detectCollusion_probability
    (history : list ValidationResult.t) (ids : list string) :
  let report := detectCollusion history ids in
  (detected report = false /\ suspects report = [] /\ probability report = zero) \/
  (detected report = true /\ suspects report <> []
   /\ gtb (probability report) (Fin (9 # 10)) = true).
Proof.
  cbv zeta. unfold detectCollusion. destruct (_ || _)%bool; [by left|].
  rewrite checkPairs_votesOf.
  pose proof (scan_probability history (pairsOf ids) ([], zero)) as Hscan.
  destruct (fold_left (checkPairOf history) (pairsOf ids) ([], zero)) as [sus mx].
  cbv zeta in Hscan. cbn [fst snd detected suspects probability] in *.
  destruct Hscan as [[-> ->]|[Hne Hgt]]; [by left | by left |].
  right. split; [|done]. by destruct sus.
Qed.

(** ** What the detector looks at *)

(** Only the candidates' own vote sequences matter: two histories of at
    least 5 results in which every candidate cast the same sequence of
    votes get the same report, whatever else they contain. *)
Theorem detectCollusion_votes_only
    (history history' : list ValidationResult.t) (ids : list string) :
  (5 <= length history)%nat -> (5 <= length history')%nat ->
  (forall id, id ∈ ids -> votesOf history id = votesOf history' id) ->
  detectCollusion history ids = detectCollusion history' ids.
Proof.
  intros Hlen Hlen' Hvotes. unfold detectCollusion.
  destruct (Nat.ltb_spec (length history) 5) as [|_]; [lia|].
  destruct (Nat.ltb_spec (length history') 5) as [|_]; [lia|].
  destruct (length ids <? 2)%nat; cbn [orb]; [done|].
  rewrite !checkPairs_votesOf.
  rewrite (fold_left_ext_elem (checkPairOf history) (checkPairOf history')); [done|].
  intros [a b] Hab st. apply pairsOf_members in Hab as [Ha Hb].
  unfold checkPairOf, correlationOf. cbn [fst snd].
  by rewrite (Hvotes a Ha), (Hvotes b Hb).
Qed.

Lemma detectCollusion_votes_only_witness :
  detectCollusion lockstepHistory ["A"; "B"]
  = detectCollusion
      (map (fun r => pastResult (ValidationResult.dataId r)
                       (ValidationResult.validations r ++ [vote "Z" false 1]))
           lockstepHistory)
      ["A"; "B"].
Proof.
  apply (detectCollusion_votes_only lockstepHistory _ ["A"; "B"]);
    [simpl; lia | simpl; lia |].
  intros id Hid. elem_cases Hid; reflexivity.
Defined.

(** ** Correlation *)

Lemma accumulate_swap (numA numB : list number) (meanA meanB : number)
    (indices : list nat) :
  forall n dA dB n' dA' dB',
    fold_left (accumulate numA numB meanA meanB) indices (n, dA, dB) = (n', dA', dB') ->
    fold_left (accumulate numB numA meanB meanA) indices (n, dB, dA) = (n', dB', dA').
Proof.
  induction indices as [|i indices IH]; intros n dA dB n' dA' dB'; cbn [fold_left].
  - by intros [= -> -> ->].
  - unfold accumulate at 2 4.
    rewrite (mul_comm (sub (index numB i) meanB) (sub (index numA i) meanA)).
    apply IH.
Qed.

Lemma correlation_symmetric (a b : list bool) :
  length a = length b -> calculateCorrelation a b = calculateCorrelation b a.
Proof.
  intros Hlen. unfold calculateCorrelation. cbv zeta.
  rewrite !length_map, <- Hlen.
  destruct (fold_left _ (seq 0 (length a)) (zero, zero, zero)) as [[n dA] dB] eqn:E.
  apply accumulate_swap in E. rewrite E. by rewrite (mul_comm dB dA).
Qed.

(** On sequences of equal length the correlation is symmetric. *)
Theorem calculateCorrelation_symmetric (a b : list bool) :
  length a = length b -> calculateCorrelation a b = calculateCorrelation b a.
Proof. apply correlation_symmetric. Qed.

Lemma calculateCorrelation_symmetric_witness :
  calculateCorrelation [true; false; true; true; false] [true; true; false; true; false]
  = calculateCorrelation [true; true; false; true; false] [true; false; true; true; false].
Proof. by apply (calculateCorrelation_symmetric _ _). Defined.

Lemma map_boolToNumber (a : list bool) :
  map boolToNumber a = map Fin (map bitValue a).
Proof. induction a as [|[] a IH]; [done|..]; cbn [map]; by rewrite IH. Qed.

Lemma Qsum_bits_negb (a : list bool) :
  (Qsum (map bitValue (map negb a))
   == inject_Z (Z.of_nat (length a)) - Qsum (map bitValue a))%Q.
Proof.
  induction a as [|x a IH]; [reflexivity|].
  cbn [map Qsum fold_right length].
  fold (Qsum (map bitValue (map negb a))) (Qsum (map bitValue a)).
  rewrite Nat2Z.inj_succ, <- Z.add_1_r, inject_Z_plus, IH.
  change (inject_Z 1) with 1%Q. destruct x; simpl; ring.
Qed.

(** The correlation loop on points with [b - mB = c (a - mA)]. *)
Lemma correlation_loop_affine (A B : list number) (mA mB c : Q) (indices : list nat) :
  (forall i, i ∈ indices ->
     exists ai bi, index A i = Fin ai /\ index B i = Fin bi
                   /\ (bi - mB == c * (ai - mA))%Q) ->
  forall N DA DB, (N == c * DA)%Q -> (DB == c * c * DA)%Q -> (0 <= DA)%Q ->
  exists N' DA' DB',
    fold_left (accumulate A B (Fin mA) (Fin mB)) indices (Fin N, Fin DA, Fin DB)
    = (Fin N', Fin DA', Fin DB')
    /\ (N' == c * DA')%Q /\ (DB' == c * c * DA')%Q /\ (DA <= DA')%Q
    /\ ((exists i ai, i ∈ indices /\ index A i = Fin ai /\ ~ (ai == mA)%Q)
        -> (DA < DA')%Q).
Proof.
  induction indices as [|i indices IH]; intros Hpts N DA DB HN HDB HDA; cbn [fold_left].
  - exists N, DA, DB. repeat split; try done; try lra.
    intros (i & ai & Hi & _). by apply elem_of_nil in Hi.
  - destruct (Hpts i) as (ai & bi & Hai & Hbi & Hline); [by left|].
    unfold accumulate at 2. rewrite Hai, Hbi. unfold sub, neg, add, mul, fin.
    pose proof (sq_nonneg (ai - mA)) as Hsq.
    assert (Ea : (ai + - mA == ai - mA)%Q) by ring.
    assert (Eb : (bi + - mB == c * (ai - mA))%Q) by (rewrite <- Hline; ring).
    edestruct (IH (fun j Hj => Hpts j (list_elem_of_further _ _ _ Hj)))
      as (N' & DA' & DB' & Hfold & HN' & HDB' & HDA' & Hlt);
      [| | |exists N', DA', DB'; split; [exact Hfold|]].
    + rewrite !Qred_correct, Ea, Eb, HN. ring.
    + rewrite !Qred_correct, Ea, Eb, HDB. ring.
    + rewrite !Qred_correct, Ea. lra.
    + rewrite !Qred_correct, Ea in HDA'.
      split; [done|]. split; [done|]. split; [lra|].
      intros (j & aj & Hj & Haj & Hne).
      apply elem_of_cons in Hj as [->|Hj].
      * rewrite Hai in Haj. injection Haj as <-.
        assert ((0 < (ai - mA) * (ai - mA))%Q); [|lra].
        destruct (Qlt_le_dec 0 ((ai - mA) * (ai - mA))) as [|Hz]; [done|].
        exfalso. apply Hne. apply sq_zero in Hz. lra.
      * assert (Hstep : (Qred (DA + Qred (Qred (ai + Qred (- mA)) * Qred (ai + Qred (- mA))))
                         < DA')%Q) by (apply Hlt; eauto).
        rewrite !Qred_correct, Ea in Hstep. lra.
Qed.

(** In exact arithmetic a sequence that holds both votes correlates at -1
    with its negation. *)
Lemma correlation_opposite (a : list bool) :
  true ∈ a -> false ∈ a ->
  calculateCorrelation a (map negb a) = ofZ (-1).
Proof.
  intros Ht Hf.
  unfold calculateCorrelation. cbv zeta.
  rewrite !map_boolToNumber.
  set (qa := map bitValue a). set (qb := map bitValue (map negb a)).
  assert (Hla : length qa = length a) by (subst qa; by rewrite length_map).
  assert (Hlb : length qb = length a) by (subst qb; by rewrite !length_map).
  assert (Hne : a <> []) by (intros ->; by apply elem_of_nil in Ht).
  assert (Hqa : qa <> []) by (intros E; rewrite E in Hla; by destruct a).
  assert (Hqb : qb <> []) by (intros E; rewrite E in Hlb; by destruct a).
  destruct (mean_Fin qa Hqa) as (mA & -> & HmA).
  destruct (mean_Fin qb Hqb) as (mB & -> & HmB).
  assert (Hn : (0 < inject_Z (Z.of_nat (length a)))%Q).
  { change 0%Q with (inject_Z 0). rewrite <- Zlt_Qlt. destruct a; [done|simpl; lia]. }
  assert (Hmean : (mB == 1 - mA)%Q).
  { rewrite Hla in HmA. rewrite Hlb in HmB. subst qa qb.
    rewrite Qsum_bits_negb, <- HmA in HmB.
    assert (E : ((mB - (1 - mA)) * inject_Z (Z.of_nat (length a)) == 0)%Q) by lra.
    apply Qmult_integral in E as [E|E]; lra. }
  destruct (correlation_loop_affine (map Fin qa) (map Fin qb) mA mB (-1)
              (seq 0 (length (map Fin qa)))) with (N := 0%Q) (DA := 0%Q) (DB := 0%Q)
    as (N & DA & DB & Hfold & HN & HDB & _ & HD); [|ring|ring|lra|].
  { intros i Hi. apply elem_of_seq in Hi. rewrite length_map, Hla in Hi.
    destruct (lookup_lt_is_Some_2 a i) as [x Hx]; [lia|].
    exists (bitValue x), (bitValue (negb x)).
    split; [apply index_Fin; subst qa; by rewrite list_lookup_fmap, Hx|].
    split; [apply index_Fin; subst qb; by rewrite !list_lookup_fmap, Hx|].
    rewrite Hmean. destruct x; simpl; ring. }
  change (zero, zero, zero) with (Fin 0, Fin 0, Fin 0). rewrite Hfold.
  assert (HDpos : (0 < DA)%Q).
  { apply HD.
    apply list_elem_of_lookup in Ht as [i Hi], Hf as [j Hj].
    destruct (Qeq_dec mA 1) as [Hm|Hm].
    - exists j, 0%Q. split; [|split].
      + apply elem_of_seq. apply lookup_lt_Some in Hj. rewrite length_map, Hla. lia.
      + apply index_Fin. subst qa. by rewrite list_lookup_fmap, Hj.
      + rewrite Hm. discriminate.
    - exists i, 1%Q. split; [|split].
      + apply elem_of_seq. apply lookup_lt_Some in Hi. rewrite length_map, Hla. lia.
      + apply index_Fin. subst qa. by rewrite list_lookup_fmap, Hi.
      + intros H. apply Hm. by symmetry. }
  assert (Hmul : mul (Fin DA) (Fin DB) = mul (Fin DA) (Fin DA)).
  { unfold mul. apply fin_eq. rewrite HDB. ring. }
  rewrite Hmul, Math_sqrt_square by lra.
  unfold fin, gtb.
  assert (Hgt : ltb zero (Fin (Qred DA)) = true).
  { apply ltb_Fin. rewrite Qred_correct. by change (inject_Z 0) with 0%Q. }
  rewrite Hgt. unfold div.
  destruct (Qeq_bool (Qred DA) 0) eqn:E.
  { apply Qeq_bool_eq in E. rewrite Qred_correct in E. lra. }
  rewrite <- (fin_inject_Z (-1)). apply fin_eq.
  rewrite Qred_correct, HN. change (inject_Z (-1)) with (-1)%Q. field. lra.
Qed.

(** Validators that always disagree are never flagged: their correlation
    is negative, far below the threshold. *)
Theorem calculateCorrelation_opposite (a : list bool) :
  true ∈ a -> false ∈ a ->
  ltb (calculateCorrelation a (map negb a)) zero = true
  /\ gtb (calculateCorrelation a (map negb a)) (Fin (9 # 10)) = false.
Proof.
  intros Ht Hf. by rewrite (correlation_opposite a Ht Hf).
Qed.

Lemma calculateCorrelation_opposite_witness :
  ltb (calculateCorrelation [true; false; true; true; false]
         (map negb [true; false; true; true; false])) zero = true
  /\ gtb (calculateCorrelation [true; false; true; true; false]
            (map negb [true; false; true; true; false])) (Fin (9 # 10)) = false.
Proof.
  apply (calculateCorrelation_opposite [true; false; true; true; false]).
  - by left.
  - right. by left.
Defined.

(** The correlation loop when every entry of the first array equals its
    mean: the numerator and the first denominator do not move. *)
Lemma correlation_loop_flat (A B : list number) (mA mB : Q) (indices : list nat) :
  (forall i, i ∈ indices ->
     exists ai bi, index A i = Fin ai /\ index B i = Fin bi /\ (ai == mA)%Q) ->
  forall N DA DB,
  exists N' DA' DB',
    fold_left (accumulate A B (Fin mA) (Fin mB)) indices (Fin N, Fin DA, Fin DB)
    = (Fin N', Fin DA', Fin DB')
    /\ (N' == N)%Q /\ (DA' == DA)%Q.
Proof.
  induction indices as [|i indices IH]; intros Hpts N DA DB; cbn [fold_left].
  - exists N, DA, DB. repeat split; reflexivity.
  - destruct (Hpts i) as (ai & bi & Hai & Hbi & Hflat); [by left|].
    unfold accumulate at 2. rewrite Hai, Hbi. unfold sub, neg, add, mul, fin.
    edestruct (IH (fun j Hj => Hpts j (list_elem_of_further _ _ _ Hj)))
      as (N' & DA' & DB' & Hfold & HN' & HDA').
    exists N', DA', DB'. split; [exact Hfold|].
    rewrite HN', HDA', !Qred_correct, Hflat. split; ring.
Qed.

(** Zero variance: a validator whose recorded votes are all the same
    correlates at 0 with every sequence of the same length, on either
    side of the comparison. *)
Theorem calculateCorrelation_constant (v : bool) (a b : list bool) :
  a <> [] -> length a = length b ->
  (forall x, x ∈ a -> x = v) ->
  calculateCorrelation a b = zero /\ calculateCorrelation b a = zero.
Proof.
  intros Hne Hlen Hconst.
  assert (Hab : calculateCorrelation a b = zero).
  2:{ split; [done|]. by rewrite <- (correlation_symmetric a b Hlen). }
  unfold calculateCorrelation. cbv zeta. rewrite !map_boolToNumber.
  set (qa := map bitValue a). set (qb := map bitValue b).
  assert (Hla : length qa = length a) by (subst qa; by rewrite length_map).
  assert (Hlb : length qb = length a) by (subst qb; by rewrite length_map).
  assert (Hqa : qa <> []) by (intros E; rewrite E in Hla; by destruct a).
  assert (Hqb : qb <> []) by (intros E; rewrite E in Hlb; by destruct a).
  destruct (mean_Fin qa Hqa) as (mA & -> & HmA).
  destruct (mean_Fin qb Hqb) as (mB & -> & _).
  assert (HmAv : (mA == bitValue v)%Q).
  { apply (mean_constant _ _ qa Hqa); [|done].
    subst qa. intros x Hx. apply list_elem_of_fmap in Hx as (y & -> & Hy).
    by rewrite (Hconst y Hy). }
  destruct (correlation_loop_flat (map Fin qa) (map Fin qb) mA mB
              (seq 0 (length (map Fin qa)))) with (N := 0%Q) (DA := 0%Q) (DB := 0%Q)
    as (N & DA & DB & Hfold & _ & HDA).
  { intros i Hi. apply elem_of_seq in Hi. rewrite length_map, Hla in Hi.
    destruct (lookup_lt_is_Some_2 a i) as [x Hx]; [lia|].
    destruct (lookup_lt_is_Some_2 b i) as [y Hy]; [lia|].
    exists (bitValue x), (bitValue y).
    split; [apply index_Fin; subst qa; by rewrite list_lookup_fmap, Hx|].
    split; [apply index_Fin; subst qb; by rewrite list_lookup_fmap, Hy|].
    rewrite HmAv, (Hconst x); [reflexivity|]. by eapply list_elem_of_lookup_2. }
  change (zero, zero, zero) with (Fin 0, Fin 0, Fin 0). rewrite Hfold.
  unfold mul, fin. rewrite Math_sqrt_zero; [done|].
  rewrite Qred_correct, HDA. ring.
Qed.

Lemma calculateCorrelation_constant_witness :
  calculateCorrelation [true; true; true; true; true] [true; false; true; false; true]
  = zero
  /\ calculateCorrelation [true; false; true; false; true] [true; true; true; true; true]
     = zero.
Proof.
  apply (calculateCorrelation_constant true); [discriminate | reflexivity |].
  intros x Hx. elem_cases Hx; reflexivity.
Defined.

(** ** Aggregation *)

Lemma fold_weigh_unanimous (v : bool) (l : list Validation.t) :
  Forall (fun x => Validation.result x = v /\ nonNegative (Validation.trustScore x)) l ->
  forall w, (0 <= w)%Q ->
  exists w',
    fold_left weigh l (if v then (Fin w, zero) else (zero, Fin w))
    = (if v then (Fin w', zero) else (zero, Fin w'))
    /\ (w <= w')%Q
    /\ (Exists (fun x => gtb (Validation.trustScore x) zero = true) l -> (w < w')%Q).
Proof.
  induction 1 as [|x l [Hres Hnn] _ IH]; intros w Hw; cbn [fold_left].
  - exists w. split; [done|]. split; [lra|]. intros H. by apply Exists_nil in H.
  - destruct (Validation.trustScore x) as [t| | |] eqn:Et; try done. simpl in Hnn.
    assert (Hstep : weigh (if v then (Fin w, zero) else (zero, Fin w)) x
                    = if v then (Fin (Qred (w + t)), zero) else (zero, Fin (Qred (w + t)))).
    { unfold weigh. destruct v; rewrite Hres, Et; reflexivity. }
    rewrite Hstep.
    destruct (IH (Qred (w + t))) as (w' & Hfold & Hle & Hlt).
    { rewrite Qred_correct. lra. }
    rewrite Qred_correct in Hle. exists w'. split; [done|]. split; [lra|].
    intros Hex. apply Exists_cons in Hex as [Hpos|Hex].
    + rewrite Et in Hpos. apply ltb_Fin in Hpos. change (inject_Z 0) with 0%Q in Hpos. lra.
    + specialize (Hlt Hex). rewrite Qred_correct in Hlt. lra.
Qed.

Lemma inScoreRange_weight (x : number) : inScoreRange x -> nonNegative x.
Proof. destruct x; simpl; [lra|done..]. Qed.

Lemma isTrustScore_weight (x : number) : isTrustScore x -> nonNegative x.
Proof.
  intros (t & -> & Ht). simpl. change 0%Q with (inject_Z 0). rewrite <- Zle_Qle. lia.
Qed.

(** A unanimous round: when enough validations arrive, all with the same
    verdict, with trust scores between 0 and 1000 and at least one of them
    positive, the ratio is 1 for a unanimous yes and 0 for a unanimous no,
    and the other side weighs nothing. *)
Theorem aggregateValidations_unanimous
    (v : bool) (dataId : string) (validations : list Validation.t)
    (config : ConsensusConfig.partial) (now : number) :
  ltb (ofNat (length validations))
      (ConsensusConfig.minValidations (mergeConfig config)) = false ->
  Forall (fun x => Validation.result x = v /\ inScoreRange (Validation.trustScore x))
         validations ->
  Exists (fun x => gtb (Validation.trustScore x) zero = true) validations ->
  exists r,
    aggregateValidations dataId validations config now = Resolved r /\
    ValidationResult.consensusRatio r = boolToNumber v /\
    (if v then ValidationResult.weightedNegative r
     else ValidationResult.weightedPositive r) = zero /\
    ValidationResult.isValid r
    = leb (ConsensusConfig.consensusThreshold (mergeConfig config)) (boolToNumber v).
Proof.
  intros Hmin Hall Hex. unfold aggregateValidations. cbv zeta. rewrite Hmin.
  assert (Hall' : Forall (fun x => Validation.result x = v
                                   /\ nonNegative (Validation.trustScore x)) validations).
  { eapply Forall_impl; [exact Hall|]. intros x [Hr Hs].
    split; [done|by apply inScoreRange_weight]. }
  destruct (fold_weigh_unanimous v validations Hall' 0) as (w & Hfold & _ & Hw); [lra|].
  specialize (Hw Hex).
  assert (Hstart : (zero, zero) = if v then (Fin 0, zero) else (zero, Fin 0))
    by (by destruct v).
  rewrite Hstart, Hfold.
  assert (Hgt : gtb (Fin (Qred w)) zero = true).
  { apply ltb_Fin. rewrite Qred_correct. by change (inject_Z 0) with 0%Q. }
  assert (E0 : Qeq_bool (Qred w) 0 = false).
  { destruct (Qeq_bool _ _) eqn:E; [|done]. apply Qeq_bool_eq in E.
    rewrite Qred_correct in E. lra. }
  destruct v.
  - assert (Htot : add (Fin w) zero = Fin (Qred w)).
    { unfold add, zero, ofZ, fin. f_equal. apply Qred_complete.
      change (inject_Z 0) with 0%Q. ring. }
    rewrite Htot, Hgt. unfold div. rewrite E0.
    assert (Hone : fin (w / Qred w) = one).
    { unfold one. rewrite <- (fin_inject_Z 1). apply fin_eq.
      rewrite Qred_correct. change (inject_Z 1) with 1%Q. field. lra. }
    rewrite Hone. eexists. split; [reflexivity|]. by cbn.
  - assert (Htot : add zero (Fin w) = Fin (Qred w)).
    { unfold add, zero, ofZ, fin. f_equal. apply Qred_complete.
      change (inject_Z 0) with 0%Q. ring. }
    rewrite Htot, Hgt. unfold zero at 1, ofZ, div. rewrite E0.
    assert (Hzero : fin (inject_Z 0 / Qred w) = zero).
    { unfold zero. rewrite <- (fin_inject_Z 0). apply fin_eq.
      change (inject_Z 0) with 0%Q. field. rewrite Qred_correct. lra. }
    rewrite Hzero. eexists. split; [reflexivity|]. by cbn.
Qed.

Lemma aggregateValidations_unanimous_witness :
  exists r,
    aggregateValidations "claim-1"
      [vote "A" true 900; vote "B" true 0; vote "C" true 300]
      ConsensusConfig.empty (ofZ 1700000000000) = Resolved r /\
    ValidationResult.consensusRatio r = boolToNumber true /\
    (if true then ValidationResult.weightedNegative r
     else ValidationResult.weightedPositive r) = zero /\
    ValidationResult.isValid r
    = leb (ConsensusConfig.consensusThreshold (mergeConfig ConsensusConfig.empty))
          (boolToNumber true).
Proof.
  apply (aggregateValidations_unanimous true "claim-1"
           [vote "A" true 900; vote "B" true 0; vote "C" true 300]
           ConsensusConfig.empty (ofZ 1700000000000)).
  - reflexivity.
  - repeat (apply List.Forall_cons; [split; [reflexivity|by vm_compute]|]).
    apply List.Forall_nil.
  - apply List.Exists_cons_hd. reflexivity.
Defined.

Lemma sufficient_succ (n : nat) (m : number) :
  ltb (ofNat n) m = false -> ltb (ofNat (S n)) m = false.
Proof.
  destruct m as [q| | |]; try done. unfold ofNat, ofZ. rewrite !ltb_Fin_false.
  intros H. rewrite Nat2Z.inj_succ, <- Z.add_1_r, inject_Z_plus.
  change (inject_Z 1) with 1%Q. lra.
Qed.

(** The ratio of a non-negative part to the whole does not drop when the
    part grows. *)
Lemma ratio_monotone (p n t : Q) :
  (0 <= p)%Q -> (0 <= n)%Q -> (0 <= t)%Q ->
  leb (if gtb (add (Fin p) (Fin n)) zero
       then div (Fin p) (add (Fin p) (Fin n)) else zero)
      (if gtb (add (fin (p + t)) (Fin n)) zero
       then div (fin (p + t)) (add (fin (p + t)) (Fin n)) else zero) = true.
Proof.
  intros Hp Hn Ht.
  assert (Hpt : (0 <= Qred (p + t))%Q) by (rewrite Qred_correct; lra).
  destruct (ratio_range (Qred (p + t)) n Hpt Hn) as [Hlo _]. cbv zeta in Hlo.
  unfold fin at 1 2 3.
  destruct (gtb (add (Fin p) (Fin n)) zero) eqn:E; [|exact Hlo].
  cbn [add] in *. unfold fin in *.
  apply ltb_Fin in E. rewrite Qred_correct in E. change (inject_Z 0) with 0%Q in E.
  assert (E' : gtb (Fin (Qred (Qred (p + t) + n))) zero = true).
  { apply ltb_Fin. rewrite !Qred_correct. change (inject_Z 0) with 0%Q. lra. }
  rewrite E'. unfold div.
  destruct (Qeq_bool (Qred (p + n)) 0) eqn:E0.
  { apply Qeq_bool_eq in E0. rewrite Qred_correct in E0. lra. }
  destruct (Qeq_bool (Qred (Qred (p + t) + n)) 0) eqn:E1.
  { apply Qeq_bool_eq in E1. rewrite !Qred_correct in E1. lra. }
  apply leb_Fin. unfold fin. rewrite !Qred_correct.
  apply Qle_shift_div_l; [lra|].
  assert (Hfrac : (p / (p + n) * (p + t + n) == p + p * t / (p + n))%Q) by (field; lra).
  rewrite Hfrac.
  assert (Hq : (p * t / (p + n) <= t)%Q); [|lra].
  apply Qle_shift_div_r; [lra|]. nra.
Qed.

(** On validations that carry trust scores (integers of [[0,1000]]), one
    more supporting validation never lowers the consensus ratio and never
    turns an accepted round into a rejected one. *)
Theorem aggregateValidations_support
    (dataId : string) (validations : list Validation.t) (v : Validation.t)
    (config : ConsensusConfig.partial) (now now' : number) :
  Forall (fun x => isTrustScore (Validation.trustScore x)) validations ->
  isTrustScore (Validation.trustScore v) ->
  Validation.result v = true ->
  exists r r',
    aggregateValidations dataId validations config now = Resolved r /\
    aggregateValidations dataId (validations ++ [v]) config now' = Resolved r' /\
    leb (ValidationResult.consensusRatio r) (ValidationResult.consensusRatio r') = true /\
    (ValidationResult.isValid r = true -> ValidationResult.isValid r' = true).
Proof.
  intros Hall Hv Hres.
  apply isTrustScore_weight in Hv.
  assert (Hall' : Forall (fun x => nonNegative (Validation.trustScore x)) validations).
  { eapply Forall_impl; [exact Hall|]. intros x. apply isTrustScore_weight. }
  clear Hall. rename Hall' into Hall.
  unfold aggregateValidations. cbv zeta.
  rewrite length_app, Nat.add_1_r, fold_left_app. cbn [fold_left].
  destruct (fold_weigh_nonNegative _ Hall 0 0) as (p & n & Hfold & Hp & Hn); [lra|lra|].
  change (Fin 0, Fin 0) with (zero, zero) in Hfold. rewrite Hfold.
  destruct (Validation.trustScore v) as [t| | |] eqn:Et; try done. simpl in Hv.
  assert (Hstep : weigh (Fin p, Fin n) v = (fin (p + t), Fin n)).
  { unfold weigh. by rewrite Hres, Et. }
  rewrite Hstep.
  assert (Hpt : (0 <= Qred (p + t))%Q) by (rewrite Qred_correct; lra).
  destruct (ratio_range (Qred (p + t)) n Hpt Hn) as [Hlo' _]. cbv zeta in Hlo'.
  destruct (ltb (ofNat (length validations)) _) eqn:Hmin.
  - destruct (ltb (ofNat (S (length validations))) _).
    + eexists _, _. repeat split; done.
    + eexists _, _. split; [reflexivity|]. split; [reflexivity|].
      cbn [ValidationResult.consensusRatio ValidationResult.isValid]. split; [exact Hlo'|done].
  - rewrite (sufficient_succ _ _ Hmin).
    eexists _, _. split; [reflexivity|]. split; [reflexivity|].
    cbn [ValidationResult.consensusRatio ValidationResult.isValid].
    pose proof (ratio_monotone p n t Hp Hn Hv) as Hmono.
    split; [exact Hmono|]. unfold geb. intros Hacc. by eapply leb_trans.
Qed.

Lemma aggregateValidations_support_witness :
  exists r r',
    aggregateValidations "claim-1"
      [vote "A" true 300; vote "B" false 100; vote "C" false 100]
      ConsensusConfig.empty (ofZ 1) = Resolved r /\
    aggregateValidations "claim-1"
      ([vote "A" true 300; vote "B" false 100; vote "C" false 100] ++ [vote "D" true 500])
      ConsensusConfig.empty (ofZ 2) = Resolved r' /\
    leb (ValidationResult.consensusRatio r) (ValidationResult.consensusRatio r') = true /\
    (ValidationResult.isValid r = true -> ValidationResult.isValid r' = true).
Proof.
  apply (aggregateValidations_support "claim-1"
           [vote "A" true 300; vote "B" false 100; vote "C" false 100]
           (vote "D" true 500) ConsensusConfig.empty (ofZ 1) (ofZ 2)).
  - repeat (apply List.Forall_cons; [eexists; split; [reflexivity|lia]|]).
    apply List.Forall_nil.
  - eexists. split; [reflexivity|lia].
  - reflexivity.
Defined.

(** ** Consensus proof *)

Section Commitment.
Variable localeCompare : string -> string -> Z.
Variable Number_toString : number -> string.

Lemma insertSorted_sameCommitment (x x' : Validation.t) (l l' : list Validation.t) :
  sameCommitment x x' -> Forall2 sameCommitment l l' ->
  Forall2 sameCommitment
    (insertSorted
       (fun a b => localeCompare (Validation.validator a) (Validation.validator b)) x l)
    (insertSorted
       (fun a b => localeCompare (Validation.validator a) (Validation.validator b)) x' l').
Proof.
  intros Hx. induction 1 as [|y y' l l' Hy Hl IH]; cbn [insertSorted].
  - apply List.Forall2_cons; [done|apply List.Forall2_nil].
  - pose proof Hx as (Hxv & _). pose proof Hy as (Hyv & _). rewrite <- Hxv, <- Hyv.
    destruct (_ <=? 0)%Z.
    + apply List.Forall2_cons; [done|]. by apply List.Forall2_cons.
    + apply List.Forall2_cons; [done|]. apply IH.
Qed.

Lemma Array_sort_sameCommitment (l l' : list Validation.t) :
  Forall2 sameCommitment l l' ->
  Forall2 sameCommitment
    (Array_sort
       (fun a b => localeCompare (Validation.validator a) (Validation.validator b)) l)
    (Array_sort
       (fun a b => localeCompare (Validation.validator a) (Validation.validator b)) l').
Proof.
  induction 1 as [|x x' l l' Hx _ IH]; cbn [Array_sort foldr]; [apply List.Forall2_nil|].
  by apply insertSorted_sameCommitment.
Qed.

Lemma validationEntry_sameCommitment (l l' : list Validation.t) :
  Forall2 sameCommitment l l' ->
  map (validationEntry Number_toString) l = map (validationEntry Number_toString) l'.
Proof.
  induction 1 as [|x x' l l' (Hv & Hr & Ht) _ IH]; cbn [map]; [done|].
  unfold validationEntry at 1 3. by rewrite Hv, Hr, Ht, IH.
Qed.

(** What the proof commits to: the data id, the ratio, the timestamp of the
    result and, of every validation, the validator, the verdict and the
    trust score.  The verdict [isValid], the two weighted sums, and the
    timestamps and evidence of the validations have no influence on the
    bytes. *)
Theorem generateConsensusProof_commitment (r r' : ValidationResult.t) :
  ValidationResult.dataId r = ValidationResult.dataId r' ->
  ValidationResult.consensusRatio r = ValidationResult.consensusRatio r' ->
  ValidationResult.timestamp r = ValidationResult.timestamp r' ->
  Forall2 sameCommitment (ValidationResult.validations r) (ValidationResult.validations r') ->
  generateConsensusProof localeCompare Number_toString r
  = generateConsensusProof localeCompare Number_toString r'.
Proof.
  intros Hid Hratio Htime Hsame. unfold generateConsensusProof, hashValidations. cbv zeta.
  rewrite Hid, Hratio, Htime, (Forall2_length _ _ _ Hsame).
  by rewrite (validationEntry_sameCommitment _ _ (Array_sort_sameCommitment _ _ Hsame)).
Qed.

End Commitment.

Lemma generateConsensusProof_commitment_witness :
  generateConsensusProof codeUnitCompare decimalToString byAB
  = generateConsensusProof codeUnitCompare decimalToString
      {| ValidationResult.dataId := "claim-1";
         ValidationResult.isValid := false;
         ValidationResult.weightedPositive := ofZ 77;
         ValidationResult.weightedNegative := ofZ 0;
         ValidationResult.consensusRatio := Fin (1 # 3);
         ValidationResult.validations :=
           [ {| Validation.validator := "A"; Validation.result := true;
                Validation.trustScore := ofZ 1; Validation.timestamp := ofZ 99;
                Validation.evidence := Some "x" |};
             vote "B" false 2 ];
         ValidationResult.timestamp := ofZ 1700000000000 |}.
Proof.
  apply (generateConsensusProof_commitment codeUnitCompare decimalToString byAB);
    try reflexivity.
  repeat (apply List.Forall2_cons; [by repeat split|]). apply List.Forall2_nil.
Defined.

(** ** The string hash *)

Lemma toInt32_isInt32 (z : Z) : isInt32 (toInt32 z).
Proof.
  unfold isInt32, toInt32.
  pose proof (Z.mod_pos_bound (z + 2 ^ 31) (2 ^ 32)). lia.
Qed.

Lemma toInt32_id (z : Z) : isInt32 z -> toInt32 z = z.
Proof.
  unfold isInt32, toInt32. intros H. rewrite Z.mod_small by lia. lia.
Qed.

Lemma hashStep_isInt32 (hash : Z) (c : ascii) : isInt32 (hashStep hash c).
Proof. unfold hashStep. cbv zeta. rewrite Z.land_diag. apply toInt32_isInt32. Qed.

Lemma hashLoop_isInt32 (s : string) : forall hash, isInt32 hash -> isInt32 (hashLoop s hash).
Proof.
  induction s as [|c s IH]; intros hash Hh; cbn [hashLoop]; [done|].
  apply IH, hashStep_isInt32.
Qed.

Lemma toInt32_shift (z q : Z) : toInt32 (z + q * 2 ^ 32) = toInt32 z.
Proof.
  unfold toInt32. f_equal.
  replace (z + q * 2 ^ 32 + 2 ^ 31)%Z with (z + 2 ^ 31 + q * 2 ^ 32)%Z by lia.
  apply Z_mod_plus_full.
Qed.

Lemma toInt32_quotient (z : Z) :
  toInt32 z = (z + - ((z + 2 ^ 31) / 2 ^ 32) * 2 ^ 32)%Z.
Proof.
  unfold toInt32. pose proof (Z.div_mod (z + 2 ^ 31) (2 ^ 32)). lia.
Qed.

(** While the hash fits 32 bits, every turn of the loop is
    [hash * 31 + char], wrapped to 32 bits. *)
Lemma hashStep_closed (hash : Z) (c : ascii) :
  isInt32 hash -> hashStep hash c = toInt32 (hash * 31 + charCodeAt c).
Proof.
  intros Hh. unfold hashStep, shl5. cbv zeta.
  rewrite Z.land_diag, (toInt32_id hash Hh), Z.shiftl_mul_pow2 by lia.
  rewrite (toInt32_quotient (hash * 2 ^ 5)).
  set (q := (- ((hash * 2 ^ 5 + 2 ^ 31) / 2 ^ 32))%Z).
  replace (hash * 2 ^ 5 + q * 2 ^ 32 - hash + charCodeAt c)%Z
    with (hash * 31 + charCodeAt c + q * 2 ^ 32)%Z by lia.
  apply toInt32_shift.
Qed.

Lemma length_append (s1 s2 : string) :
  String.length (s1 +:+ s2) = (String.length s1 + String.length s2)%nat.
Proof. induction s1 as [|c s1 IH]; simpl; [done|]. by rewrite IH. Qed.

Lemma length_repeatChar (n : nat) (c : ascii) : String.length (repeatChar n c) = n.
Proof. induction n as [|n IH]; simpl; [done|]. by rewrite IH. Qed.

Lemma length_padStart (n : nat) (c : ascii) (s : string) :
  (String.length s <= n)%nat -> String.length (padStart n c s) = n.
Proof.
  intros H. unfold padStart. rewrite length_append, length_repeatChar. lia.
Qed.

(** The digits written for a number below [16^(k+1)]: between 1 and
    [k+1] of them. *)
Lemma length_digits (k : nat) :
  forall fuel n acc,
    (0 <= n < 16 ^ Z.of_nat (S k))%Z ->
    (String.length acc < String.length (digits 16 fuel n acc)
     <= String.length acc + S k)%nat.
Proof.
  induction k as [|k IH]; intros fuel n acc Hn.
  - assert (Hq : (n / 16 = 0)%Z) by (apply Z.div_small; simpl in Hn; lia).
    destruct fuel; cbn [digits]; [simpl; lia|].
    rewrite Hq. simpl. lia.
  - destruct fuel; cbn [digits]; [simpl; lia|].
    destruct (n / 16 =? 0)%Z eqn:E; [simpl; lia|].
    assert (Hq : (0 <= n / 16 < 16 ^ Z.of_nat (S k))%Z).
    { split; [apply Z.div_pos; lia|].
      apply Z.div_lt_upper_bound; [lia|].
      rewrite <- Z.pow_succ_r by lia. rewrite <- Nat2Z.inj_succ. lia. }
    pose proof (IH fuel (n / 16)%Z (String (digitChar (n mod 16)) acc) Hq) as H.
    simpl in H. simpl. lia.
Qed.

Lemma length_hex_int32 (hash : Z) :
  isInt32 hash -> (String.length (toStringRadix 16 (Z.abs hash)) <= 8)%nat.
Proof.
  intros Hh. unfold toStringRadix.
  pose proof (length_digits 7 (Z.to_nat (Z.log2 (Z.abs hash))) (Z.abs hash) EmptyString) as H.
  simpl String.length in H. apply H. unfold isInt32 in Hh.
  change (16 ^ Z.of_nat 8)%Z with 4294967296%Z. change (2 ^ 31)%Z with 2147483648%Z in Hh.
  lia.
Qed.

(** The hash of the validations is always exactly 8 characters long. *)
Theorem hashValidations_length
    (localeCompare : string -> string -> Z) (Number_toString : number -> string)
    (validations : list Validation.t) :
  String.length (hashValidations localeCompare Number_toString validations) = 8%nat.
Proof.
  unfold hashValidations. cbv zeta. apply length_padStart, length_hex_int32.
  apply hashLoop_isInt32. by vm_compute.
Qed.

Lemma polynomialHash_shift (s : string) :
  forall hash q,
    toInt32 (polynomialHash s (hash + q * 2 ^ 32)) = toInt32 (polynomialHash s hash).
Proof.
  induction s as [|c s IH]; intros hash q; cbn [polynomialHash].
  - apply toInt32_shift.
  - replace ((hash + q * 2 ^ 32) * 31 + charCodeAt c)%Z
      with (hash * 31 + charCodeAt c + (q * 31) * 2 ^ 32)%Z by lia.
    apply IH.
Qed.

(** The shift, subtract and mask of the hashing loop compute the
    polynomial hash with multiplier 31, wrapped to a signed 32-bit
    integer once at the end. *)
Theorem hashLoop_polynomial (s : string) (hash : Z) :
  isInt32 hash -> hashLoop s hash = toInt32 (polynomialHash s hash).
Proof.
  revert hash. induction s as [|c s IH]; intros hash Hh; cbn [hashLoop polynomialHash].
  - by rewrite toInt32_id.
  - rewrite IH by apply hashStep_isInt32. rewrite (hashStep_closed hash c Hh).
    rewrite (toInt32_quotient (hash * 31 + charCodeAt c)). apply polynomialHash_shift.
Qed.

Lemma hashLoop_polynomial_witness :
  hashLoop "A:true:900|B:false:100" 0
  = toInt32 (polynomialHash "A:true:900|B:false:100" 0).
Proof. apply (hashLoop_polynomial "A:true:900|B:false:100" 0). by vm_compute. Defined.

End CrossValidatorMore.

(* ===================================================================== *)
(** * The simulated validators                                             *)
(* ===================================================================== *)

Module SimulationProps.
Import JS JSFacts JSRuntime NumberProps.
Import CrossValidator CrossVocabulary CrossValidatorProps CrossValidatorMore Simulation.

(** ** Writing and reading hexadecimal numbers *)

Lemma hexValue_digitChar (d : Z) :
  (0 <= d < 16)%Z -> hexValue (digitChar d) = Some d.
Proof.
  intros Hd.
  assert (H : (d = 0 \/ d = 1 \/ d = 2 \/ d = 3 \/ d = 4 \/ d = 5 \/ d = 6 \/ d = 7
               \/ d = 8 \/ d = 9 \/ d = 10 \/ d = 11 \/ d = 12 \/ d = 13 \/ d = 14
               \/ d = 15)%Z) by lia.
  repeat (destruct H as [->|H]; [reflexivity|]). by subst d.
Qed.

Lemma hexDigits_digits :
  forall fuel n acc,
    (0 <= n)%Z -> hexDigits acc = true -> hexDigits (digits 16 fuel n acc) = true.
Proof.
  induction fuel as [|fuel IH]; intros n acc Hn Hacc; cbn [digits].
  - cbn [hexDigits]. rewrite hexValue_digitChar; [done|]. by apply Z.mod_pos_bound.
  - assert (Hstep : hexDigits (String (digitChar (n mod 16)) acc) = true).
    { cbn [hexDigits]. rewrite hexValue_digitChar; [done|]. by apply Z.mod_pos_bound. }
    destruct (n / 16 =? 0)%Z; [done|].
    apply IH; [|done]. by apply Z.div_pos.
Qed.

(** Reading back what [digits] wrote continues with the value written. *)
Lemma hexPrefix_digits :
  forall fuel n acc seen,
    (0 <= n < 2 ^ Z.of_nat (S fuel))%Z ->
    hexPrefix (digits 16 fuel n acc) 0 seen = hexPrefix acc n true.
Proof.
  induction fuel as [|fuel IH]; intros n acc seen Hn; cbn [digits].
  - change (2 ^ Z.of_nat 1)%Z with 2%Z in Hn.
    cbn [hexPrefix]. rewrite hexValue_digitChar by (apply Z.mod_pos_bound; lia).
    rewrite Z.mod_small by lia. do 2 f_equal.
  - destruct (n / 16 =? 0)%Z eqn:E.
    + apply Z.eqb_eq in E.
      assert (Hsmall : (n < 16)%Z).
      { pose proof (Z.div_mod n 16 ltac:(lia)) as Hdm.
        pose proof (Z.mod_pos_bound n 16 ltac:(lia)). lia. }
      cbn [hexPrefix]. rewrite hexValue_digitChar by (apply Z.mod_pos_bound; lia).
      rewrite Z.mod_small by lia. do 2 f_equal.
    + rewrite IH.
      * cbn [hexPrefix]. rewrite hexValue_digitChar by (apply Z.mod_pos_bound; lia).
        f_equal. pose proof (Z.div_mod n 16 ltac:(lia)). lia.
      * split; [apply Z.div_pos; lia|].
        apply Z.div_lt_upper_bound; [lia|].
        rewrite (Nat2Z.inj_succ (S fuel)), Z.pow_succ_r in Hn by lia. lia.
Qed.

(** What [parseInt] does before the digits changes nothing in a string of
    hexadecimal digits. *)
Lemma parseInt16_hexDigits (s : string) :
  hexDigits s = true ->
  parseInt16 s = match hexPrefix s 0 false with
                 | Some value => ofZ value
                 | None => NaN
                 end.
Proof.
  destruct s as [|c s]; [done|].
  cbn [hexDigits]. destruct (hexValue c) as [d|] eqn:Ec; [|done]. intros Hs.
  assert (Hc : isWhiteSpace c = false /\ Ascii.eqb c "-" = false
               /\ Ascii.eqb c "+" = false).
  { revert Ec. clear.
    destruct c as [[] [] [] [] [] [] [] []]; vm_compute; intros E; by try discriminate E. }
  destruct Hc as (Hws & Hminus & Hplus).
  unfold parseInt16. cbn [trimStart]. rewrite Hws, Hminus, Hplus.
  assert (Hprefix :
            match String c s with
            | String c0 (String c1 s') =>
                if (Ascii.eqb c0 "0" && (Ascii.eqb c1 "x" || Ascii.eqb c1 "X"))%bool
                then s' else String c s
            | _ => String c s
            end = String c s).
  { destruct s as [|c1 s]; [done|].
    cbn [hexDigits] in Hs. destruct (hexValue c1) as [d1|] eqn:Ec1; [|done].
    assert (Hx : (Ascii.eqb c1 "x" || Ascii.eqb c1 "X")%bool = false).
    { revert Ec1. clear.
      destruct c1 as [[] [] [] [] [] [] [] []]; vm_compute; intros E; by try discriminate E. }
    rewrite Hx. by rewrite andb_false_r. }
  rewrite Hprefix.
  destruct (hexPrefix (String c s) 0 false) as [v|]; [|done].
  by rewrite Z.mul_1_l.
Qed.

(** [parseInt(n.toString(16), 16)] is [n] for every integer [n >= 0]. *)
Theorem parseInt16_toStringRadix (n : Z) :
  (0 <= n)%Z -> parseInt16 (toStringRadix 16 n) = ofZ n.
Proof.
  intros Hn. rewrite parseInt16_hexDigits.
  - unfold toStringRadix. rewrite hexPrefix_digits; [done|].
    split; [done|].
    destruct (Z.eq_dec n 0%Z) as [->|Hpos]; [done|].
    rewrite Nat2Z.inj_succ, Z2Nat.id by apply Z.log2_nonneg.
    apply Z.log2_spec. lia.
  - unfold toStringRadix. by apply hexDigits_digits.
Qed.

Lemma parseInt16_toStringRadix_witness :
  parseInt16 (toStringRadix 16 61746601) = ofZ 61746601.
Proof. apply (parseInt16_toStringRadix 61746601). lia. Defined.

(** ** The hash of the simulation *)

Lemma append_cons (c : ascii) (a b : string) : String c a +:+ b = String c (a +:+ b).
Proof. reflexivity. Qed.

Lemma append_nil (b : string) : EmptyString +:+ b = b.
Proof. reflexivity. Qed.

Lemma repeatChar_add (a b : nat) (c : ascii) :
  repeatChar (a + b) c = repeatChar a c +:+ repeatChar b c.
Proof.
  induction a as [|a IH]; cbn [repeatChar Nat.add]; [by rewrite append_nil|].
  by rewrite append_cons, IH.
Qed.

Lemma append_assoc (a b c : string) : (a +:+ b) +:+ c = a +:+ (b +:+ c).
Proof.
  induction a as [|x a IH]; [by rewrite !append_nil|].
  by rewrite !append_cons, IH.
Qed.

Lemma hexDigits_zeros (k : nat) (s : string) :
  hexDigits s = true -> hexDigits (repeatChar k "0" +:+ s) = true.
Proof.
  intros Hs. induction k as [|k IH]; cbn [repeatChar]; [by rewrite append_nil|].
  rewrite append_cons. cbn [hexDigits]. by change (hexValue "0") with (Some 0%Z).
Qed.

Lemma hexPrefix_zeros (k : nat) (s : string) :
  hexPrefix (repeatChar k "0" +:+ s) 0 true = hexPrefix s 0 true.
Proof.
  induction k as [|k IH]; cbn [repeatChar]; [by rewrite append_nil|].
  rewrite append_cons. cbn [hexPrefix]. by change (hexValue "0") with (Some 0%Z).
Qed.

Lemma hexPrefix_toStringRadix (n : Z) (seen : bool) :
  (0 <= n)%Z -> hexPrefix (toStringRadix 16 n) 0 seen = Some n.
Proof.
  intros Hn. unfold toStringRadix. rewrite hexPrefix_digits; [done|].
  split; [done|].
  destruct (Z.eq_dec n 0%Z) as [->|Hpos]; [done|].
  rewrite Nat2Z.inj_succ, Z2Nat.id by apply Z.log2_nonneg.
  apply Z.log2_spec. lia.
Qed.

Lemma substring_append_left (p t : string) :
  forall a m,
    (a + m <= String.length p)%nat ->
    String.substring a m (p +:+ t) = String.substring a m p.
Proof.
  induction p as [|c p IH]; intros a m H.
  - simpl in H. assert (a = 0%nat) as -> by lia. assert (m = 0%nat) as -> by lia.
    rewrite append_nil. by destruct t.
  - rewrite append_cons. simpl in H.
    destruct a as [|a]; destruct m as [|m]; cbn [String.substring]; try done.
    + f_equal. apply (IH 0%nat m). lia.
    + apply (IH a 0%nat). lia.
    + apply (IH a (S m)). lia.
Qed.

Lemma hashString_shape (str : string) :
  exists low,
    hashString str = "000000000000000000000000" +:+ low
    /\ String.length low = 8%nat.
Proof.
  set (text := toStringRadix 16 (Z.abs (hashLoop str 0))).
  assert (Hlen : (String.length text <= 8)%nat).
  { apply length_hex_int32, hashLoop_isInt32. by vm_compute. }
  exists (padStart 8 "0" text). split; [|by apply length_padStart].
  unfold hashString. fold text. unfold padStart.
  replace (32 - String.length text)%nat with (24 + (8 - String.length text))%nat by lia.
  by rewrite repeatChar_add, append_assoc.
Qed.

Lemma parseInt16_padded (k : nat) (n : Z) :
  (0 <= n)%Z -> parseInt16 (repeatChar k "0" +:+ toStringRadix 16 n) = ofZ n.
Proof.
  intros Hn. rewrite parseInt16_hexDigits.
  - destruct k as [|k]; cbn [repeatChar].
    + rewrite append_nil. by rewrite hexPrefix_toStringRadix.
    + rewrite append_cons. cbn [hexPrefix]. change (hexValue "0") with (Some 0%Z).
      cbn iota. change (16 * 0 + 0)%Z with 0%Z.
      rewrite hexPrefix_zeros. by rewrite hexPrefix_toStringRadix.
  - apply hexDigits_zeros. unfold toStringRadix. by apply hexDigits_digits.
Qed.

(** The hash has at most 8 significant digits, so of the 32 characters the
    first 24 are always the padding.  The string reads back, as a
    hexadecimal number, as the absolute value of the 32-bit hash. *)
Theorem hashString_padding (str : string) :
  String.length (hashString str) = 32%nat
  /\ String.substring 0 24 (hashString str) = "000000000000000000000000"
  /\ parseInt16 (hashString str) = ofZ (Z.abs (hashLoop str 0)).
Proof.
  destruct (hashString_shape str) as (low & Hs & Hlen).
  split; [|split].
  - rewrite Hs, length_append, Hlen. done.
  - rewrite Hs. by rewrite substring_append_left by (simpl; lia).
  - unfold hashString, padStart. apply parseInt16_padded, Z.abs_nonneg.
Qed.

(** ** What the simulated validators answer *)

(** The three slices the simulation reads lie in the padding. *)
Lemma hashString_slices (str : string) :
  substring 0 8 (hashString str) = "00000000"
  /\ substring 8 16 (hashString str) = "00000000"
  /\ substring 16 18 (hashString str) = "00".
Proof.
  destruct (hashString_shape str) as (low & Hs & Hlen).
  assert (H32 : String.length (hashString str) = 32%nat).
  { rewrite Hs, length_append, Hlen. done. }
  unfold substring. rewrite H32. cbn [Nat.min Nat.max Nat.sub].
  rewrite Hs. rewrite !substring_append_left by (simpl; lia). done.
Qed.

Lemma simulate_constant
    (Number_toString : number -> string)
    (validator : string) (request : ValidationRequest.t) (now : number) :
  simulateValidation Number_toString validator request now
  = {| Validation.validator := validator;
       Validation.result := true;
       Validation.trustScore := ofZ 200;
       Validation.timestamp := now;
       Validation.evidence :=
         Some (simulatedEvidence Number_toString (Fin (7 # 10))) |}.
Proof.
  unfold simulateValidation.
  destruct (hashString_slices (validator +:+ ":" +:+ ValidationRequest.dataHash request))
    as (-> & -> & ->).
  reflexivity.
Qed.

(** Every simulated validator answers yes with trust score 200 and
    confidence 0.7, whatever its name and whatever the data: the digits the
    answer is drawn from are all padding. *)
Theorem simulateValidation_constant
    (Number_toString : number -> string)
    (validator : string) (request : ValidationRequest.t) (now : number) :
  simulateValidation Number_toString validator request now
  = {| Validation.validator := validator;
       Validation.result := true;
       Validation.trustScore := ofZ 200;
       Validation.timestamp := now;
       Validation.evidence :=
         Some (simulatedEvidence Number_toString (Fin (7 # 10))) |}.
Proof. apply simulate_constant. Qed.

(** ** A simulated request *)

Lemma fold_weigh_simulated (l : list Validation.t) :
  Forall (fun x => Validation.result x = true /\ Validation.trustScore x = ofZ 200) l ->
  forall p,
    fold_left weigh l (ofZ p, zero) = (ofZ (p + 200 * Z.of_nat (length l)), zero).
Proof.
  induction 1 as [|x l [Hres Hts] _ IH]; intros p; cbn [fold_left length].
  - do 2 f_equal. lia.
  - assert (Hstep : weigh (ofZ p, zero) x = (ofZ (p + 200), zero)).
    { unfold weigh. by rewrite Hres, Hts, add_ofZ. }
    rewrite Hstep, IH. do 2 f_equal. lia.
Qed.

Lemma div_self (k : Z) : (0 < k)%Z -> div (ofZ k) (ofZ k) = one.
Proof.
  intros Hk. unfold div, ofZ.
  destruct (Qeq_bool (inject_Z k) 0) eqn:E.
  - apply Qeq_bool_iff in E. unfold Qeq, inject_Z in E. simpl in E. lia.
  - unfold one. rewrite <- fin_inject_Z. apply fin_eq.
    change (inject_Z 1) with 1%Q. field.
    intros H. unfold Qeq, inject_Z in H. simpl in H. lia.
Qed.

(** A request to at least one validator, and to as many as the
    configuration asks for, always ends in a unanimous yes: each validator
    weighs 200, the consensus ratio is 1, and the data is valid as soon as
    the configured threshold is at most 1.  The thresholds carried by the
    request itself are not looked at. *)
Theorem requestValidations_unanimous
    (Number_toString : number -> string)
    (request : ValidationRequest.t) (config : ConsensusConfig.partial)
    (clock : nat -> number) :
  let validators := ValidationRequest.validators request in
  validators <> [] ->
  ltb (ofNat (length validators))
      (ConsensusConfig.minValidations (mergeConfig config)) = false ->
  requestValidations Number_toString request config clock
  = Resolved
      {| ValidationResult.dataId := ValidationRequest.dataId request;
         ValidationResult.isValid :=
           geb one (ConsensusConfig.consensusThreshold (mergeConfig config));
         ValidationResult.weightedPositive :=
           ofZ (200 * Z.of_nat (length validators));
         ValidationResult.weightedNegative := zero;
         ValidationResult.consensusRatio := one;
         ValidationResult.validations :=
           imap (fun i validator =>
                   {| Validation.validator := validator;
                      Validation.result := true;
                      Validation.trustScore := ofZ 200;
                      Validation.timestamp := clock i;
                      Validation.evidence :=
                        Some (simulatedEvidence Number_toString (Fin (7 # 10))) |})
                validators;
         ValidationResult.timestamp := clock (length validators) |}.
Proof.
  intros validators Hne Hmin. unfold requestValidations. fold validators.
  rewrite (imap_ext _ (fun i validator =>
                   {| Validation.validator := validator;
                      Validation.result := true;
                      Validation.trustScore := ofZ 200;
                      Validation.timestamp := clock i;
                      Validation.evidence :=
                        Some (simulatedEvidence Number_toString (Fin (7 # 10))) |})
             validators)
    by (intros i x _; apply simulate_constant).
  set (answers := imap _ validators).
  assert (Hlen : length answers = length validators) by apply length_imap.
  assert (Hall : Forall (fun x => Validation.result x = true
                                  /\ Validation.trustScore x = ofZ 200) answers).
  { apply Forall_lookup_2. intros i x Hx. unfold answers in Hx.
    rewrite list_lookup_imap in Hx.
    destruct (validators !! i) as [v|]; [|done]. simpl in Hx.
    by injection Hx as <-. }
  unfold aggregateValidations. rewrite Hlen, Hmin.
  change (zero, zero) with (ofZ 0, zero).
  rewrite (fold_weigh_simulated answers Hall 0), Hlen.
  assert (Hpos : (0 < 0 + 200 * Z.of_nat (length validators))%Z).
  { destruct validators; [done|]. simpl length. lia. }
  replace (0 + 200 * Z.of_nat (length validators))%Z
    with (200 * Z.of_nat (length validators))%Z in * by lia.
  change zero with (ofZ 0). rewrite add_ofZ, Z.add_0_r.
  assert (Hgt : gtb (ofZ (200 * Z.of_nat (length validators))) (ofZ 0) = true).
  { unfold gtb, ofZ. apply ltb_Fin. rewrite <- Zlt_Qlt. done. }
  rewrite Hgt, div_self by done. done.
Qed.

Lemma requestValidations_unanimous_witness :
  exists r,
    requestValidations decimalToString
      {| ValidationRequest.dataId := "d1";
         ValidationRequest.dataHash := "abc";
         ValidationRequest.category := ofZ 1;
         ValidationRequest.validators := ["validator-a"; "validator-b"; "validator-c"];
         ValidationRequest.minValidations := ofZ 5;
         ValidationRequest.consensusThreshold := ofZ 2 |}
      ConsensusConfig.empty (fun i => ofNat i) = Resolved r
    /\ ValidationResult.isValid r = true
    /\ ValidationResult.weightedPositive r = ofZ 600.
Proof.
  eexists. split.
  - apply (requestValidations_unanimous decimalToString
             {| ValidationRequest.dataId := "d1";
                ValidationRequest.dataHash := "abc";
                ValidationRequest.category := ofZ 1;
                ValidationRequest.validators := ["validator-a"; "validator-b"; "validator-c"];
                ValidationRequest.minValidations := ofZ 5;
                ValidationRequest.consensusThreshold := ofZ 2 |}
             ConsensusConfig.empty (fun i => ofNat i)); [done|by vm_compute].
  - split; by vm_compute.
Defined.

End SimulationProps.
